(** * gossa: the execution engine of the SSA interpreter

    A shallow embedding of the operator kernel (asInt, asUint64, the
    binary operators from opADD to opGEQ, unop, widen, slice,
    typeAssert), of the instruction compiler (getIndex, makeInstr, the
    visitor of functions) and of the frame machinery (call, callSSA,
    callFunction, runFrame, runDefers, doRecover, callBuiltin, Run) of
    package gossa, together with the properties of these functions: those
    that the specification states, and further ones that the code
    shows. *)

From Stdlib Require Import ZArith String Ascii List Lia Bool.
From Stdlib Require Import Floats.SpecFloat.
From stdpp Require Import base option list gmap strings pretty.

Open Scope string_scope.
Open Scope Z_scope.

#[local] Set Warnings "-register-all".

(** ** The host machine

    [const intSize = 32 << (^uint(0) >> 63)]: the width of [int], [uint]
    and [uintptr] on the machine that runs the interpreter. *)

Inductive arch := Arch32 | Arch64.

Class Host := host_arch : arch.

Definition uint_bits `{Host} : Z :=
  match host_arch with Arch32 => 32 | Arch64 => 64 end.

Definition intSize `{Host} : Z :=
  Z.shiftl 32 (Z.shiftr (2 ^ uint_bits - 1) 63).

(** [init]: [maxMemLen] is [1<<31 - 1] when [intSize == 32] and
    [int(int64(1) << 59)] otherwise. *)
Definition maxMemLen `{Host} : Z :=
  if intSize =? 32 then Z.shiftl 1 31 - 1 else Z.shiftl 1 59.

(** ** Kinds and types *)

(** The integer kinds, in the order of the type switches of the kernel. *)
Inductive ikind :=
| Int | Int8 | Int16 | Int32 | Int64
| Uint | Uint8 | Uint16 | Uint32 | Uint64 | Uintptr.

Inductive fkind := Float32 | Float64.
Inductive ckind := Complex64 | Complex128.

Global Instance ikind_eq_dec : EqDecision ikind.
Proof. solve_decision. Defined.
Global Instance fkind_eq_dec : EqDecision fkind.
Proof. solve_decision. Defined.
Global Instance ckind_eq_dec : EqDecision ckind.
Proof. solve_decision. Defined.

Definition ik_signed (k : ikind) : bool :=
  match k with
  | Int | Int8 | Int16 | Int32 | Int64 => true
  | _ => false
  end.

Definition ik_bits `{Host} (k : ikind) : Z :=
  match k with
  | Int | Uint | Uintptr => intSize
  | Int8 | Uint8 => 8
  | Int16 | Uint16 => 16
  | Int32 | Uint32 => 32
  | Int64 | Uint64 => 64
  end.

(** Two's complement wrap-around of a mathematical integer into a kind. *)
Definition wrap_unsigned (w n : Z) : Z := n mod 2 ^ w.
Definition wrap_signed (w n : Z) : Z :=
  (n + 2 ^ (w - 1)) mod 2 ^ w - 2 ^ (w - 1).

Definition wrap `{Host} (k : ikind) (n : Z) : Z :=
  if ik_signed k then wrap_signed (ik_bits k) n
  else wrap_unsigned (ik_bits k) n.

(** [reflect.Kind], with the numbering of package reflect (the shift
    executors compare kinds with [>=] and [<=]). *)
Inductive Kind :=
| Invalid | KBool | KInteger (k : ikind) | KFloat (k : fkind)
| KComplex (k : ckind) | KArray | KChan | KFunc | KInterface | KMap
| KPtr | KSlice | KString | KStruct | KUnsafePointer.

Global Instance Kind_eq_dec : EqDecision Kind.
Proof. solve_decision. Defined.

Definition ikind_code (k : ikind) : Z :=
  match k with
  | Int => 2 | Int8 => 3 | Int16 => 4 | Int32 => 5 | Int64 => 6
  | Uint => 7 | Uint8 => 8 | Uint16 => 9 | Uint32 => 10 | Uint64 => 11
  | Uintptr => 12
  end.

Definition Kind_code (k : Kind) : Z :=
  match k with
  | Invalid => 0 | KBool => 1 | KInteger i => ikind_code i
  | KFloat Float32 => 13 | KFloat Float64 => 14
  | KComplex Complex64 => 15 | KComplex Complex128 => 16
  | KArray => 17 | KChan => 18 | KFunc => 19 | KInterface => 20
  | KMap => 21 | KPtr => 22 | KSlice => 23 | KString => 24
  | KStruct => 25 | KUnsafePointer => 26
  end.

(** Types.  The same tree stands for a [types.Type] of the SSA program
    and for the [reflect.Type] that [toType] maps it to.  A defined
    (named) type is a node of its own above its underlying type, as
    [*types.Named] is. *)
Inductive type :=
| TBool
| TInteger (k : ikind)
| TFloat (k : fkind)
| TComplex (k : ckind)
| TString
| TNamed (name : string) (underlying : type)
| TPointer (elem : type)
| TSlice (elem : type)
| TArray (n : Z) (elem : type)
| TStruct (fields : list (string * type))
| TInterface (methods : list string)
| TFunc (signature : string).

Fixpoint Underlying (t : type) : type :=
  match t with
  | TNamed _ u => Underlying u
  | _ => t
  end.

Definition type_Kind (t : type) : Kind :=
  match Underlying t with
  | TBool => KBool
  | TInteger k => KInteger k
  | TFloat k => KFloat k
  | TComplex k => KComplex k
  | TString => KString
  | TNamed _ _ => Invalid
  | TPointer _ => KPtr
  | TSlice _ => KSlice
  | TArray _ _ => KArray
  | TStruct _ => KStruct
  | TInterface _ => KInterface
  | TFunc _ => KFunc
  end.

Definition ikind_name (k : ikind) : string :=
  match k with
  | Int => "int" | Int8 => "int8" | Int16 => "int16" | Int32 => "int32"
  | Int64 => "int64" | Uint => "uint" | Uint8 => "uint8"
  | Uint16 => "uint16" | Uint32 => "uint32" | Uint64 => "uint64"
  | Uintptr => "uintptr"
  end.

(** [Type.String()], which [%v] prints for a type. *)
Fixpoint type_String (t : type) : string :=
  match t with
  | TBool => "bool"
  | TInteger k => ikind_name k
  | TFloat Float32 => "float32"
  | TFloat Float64 => "float64"
  | TComplex Complex64 => "complex64"
  | TComplex Complex128 => "complex128"
  | TString => "string"
  | TNamed name _ => name
  | TPointer e => "*" ++ type_String e
  | TSlice e => "[]" ++ type_String e
  | TArray n e => "[" ++ pretty n ++ "]" ++ type_String e
  | TStruct fs =>
      match fs with
      | [] => "struct {}"
      | _ =>
        "struct { "
        ++ (fix fields (l : list (string * type)) : string :=
              match l with
              | [] => ""
              | [(f, ft)] => f ++ " " ++ type_String ft
              | (f, ft) :: r => f ++ " " ++ type_String ft ++ "; " ++ fields r
              end) fs
        ++ " }"
      end
  | TInterface [] => "interface {}"
  | TInterface ms => "interface { " ++ String.concat "; " ms ++ " }"
  | TFunc sig => sig
  end.

(** [Kind.String()]. *)
Definition Kind_String (k : Kind) : string :=
  match k with
  | Invalid => "invalid" | KBool => "bool" | KInteger i => ikind_name i
  | KFloat f => type_String (TFloat f)
  | KComplex c => type_String (TComplex c)
  | KArray => "array" | KChan => "chan" | KFunc => "func"
  | KInterface => "interface" | KMap => "map" | KPtr => "ptr"
  | KSlice => "slice" | KString => "string" | KStruct => "struct"
  | KUnsafePointer => "unsafe.Pointer"
  end.

(** ** Values

    A [value] is what an [interface{}] of the interpreter holds.  Pointers
    are addresses into the store of cells that [reflect.New] allocates: a
    cell and a path of field or element indices inside it.  [VFunction]
    is an [*ssa.Function], [VMakeFunc] the host function that [makeFuncEx]
    wraps around one.  Maps, channels and closures are not needed by the
    functions embedded here. *)

Record pointer := Pointer { p_cell : nat; p_path : list nat }.

(** The error values that [recover()] hands to the target program. *)
Inductive errkind := ErrRuntime | ErrPlain | ErrHostRuntime | ErrValueError.

(** The built-ins of [callBuiltin] that the embedding covers. *)
Inductive builtin := Bprint | Bprintln | Bpanic | Brecover.

Inductive value :=
| VNil
| VBool (b : bool)
| VInt (k : ikind) (n : Z)
| VFloat (k : fkind) (f : spec_float)
| VComplex (k : ckind) (re im : spec_float)
| VString (s : string)
| VNamed (name : string) (v : value)
| VPtr (elem : type) (p : option pointer)
| VSlice (elem : type) (base : option pointer) (off len cap : Z)
| VArray (elem : type) (elems : list value)
| VStruct (fields : list (string * type)) (vals : list value)
| VTuple (vs : list value)
| VFunction (name : string)
| VBuiltin (b : builtin)
| VMakeFunc (fn : string) (env : list value)
| VError (k : errkind) (msg : string).

(** The dynamic type of a value ([reflect.TypeOf]); [None] for nil. *)
Fixpoint type_of (v : value) : option type :=
  match v with
  | VNil => None
  | VBool _ => Some TBool
  | VInt k _ => Some (TInteger k)
  | VFloat k _ => Some (TFloat k)
  | VComplex k _ _ => Some (TComplex k)
  | VString _ => Some TString
  | VNamed name u =>
      match type_of u with
      | Some t => Some (TNamed name t)
      | None => None
      end
  | VPtr e _ => Some (TPointer e)
  | VSlice e _ _ _ _ => Some (TSlice e)
  | VArray e l => Some (TArray (Z.of_nat (length l)) e)
  | VStruct fs _ => Some (TStruct fs)
  | VTuple _ => Some (TNamed "gossa.tuple" (TSlice (TInterface [])))
  | VFunction _ => Some (TPointer (TNamed "ssa.Function" (TStruct [])))
  | VBuiltin _ => Some (TPointer (TNamed "ssa.Builtin" (TStruct [])))
  | VMakeFunc _ _ => Some (TFunc "func")
  | VError ErrRuntime _ => Some (TNamed "gossa.runtimeError" TString)
  | VError ErrPlain _ => Some (TNamed "gossa.plainError" TString)
  | VError ErrHostRuntime _ => Some (TNamed "runtime.errorString" TString)
  | VError ErrValueError _ =>
      Some (TPointer (TNamed "reflect.ValueError" (TStruct [])))
  end.

(** [reflect.ValueOf(x).Kind()]. *)
Definition Value_Kind (v : value) : Kind :=
  match type_of v with
  | Some t => type_Kind t
  | None => Invalid
  end.

(** [%T]. *)
Definition fmt_T (v : value) : string :=
  match type_of v with
  | Some t => type_String t
  | None => "<nil>"
  end.

(** The value below the defined types that wrap it. *)
Fixpoint payload (v : value) : value :=
  match v with
  | VNamed _ u => payload u
  | _ => v
  end.

(** [reflect.New(vx.Type()).Elem()] filled by one of the setters: the
    value of the same dynamic type as [x] with the payload [p]. *)
Fixpoint retype (x p : value) : value :=
  match x with
  | VNamed name u => VNamed name (retype u p)
  | _ => p
  end.

(** ** Host panics

    What the interpreter passes to the host's [panic]: its own kinds
    ([targetPanic], [runtimeError], [plainError], [exitPanic]), a plain
    string, and the values the host itself panics with (a [runtime.Error]
    such as a failed [x.(int)], a [*reflect.ValueError], any other error
    value). *)
Inductive panic_value :=
| targetPanic (v : value)
| runtimeError (msg : string)
| plainError (msg : string)
| exitPanic (code : Z)
| hostString (msg : string)
| hostRuntimeError (msg : string)
| hostValueError (method : string) (kind : Kind)
| hostError (T : string) (msg : string).

(** [func (e runtimeError) RuntimeError() {}]: of the interpreter's own
    kinds only [runtimeError] has the method that makes a [runtime.Error];
    [plainError] has [Error()] alone. *)
Definition is_runtime_Error (p : panic_value) : bool :=
  match p with
  | runtimeError _ | hostRuntimeError _ => true
  | _ => false
  end.

(** [func (e *ValueError) Error() string] of package reflect. *)
Definition ValueError_Error (method : string) (kind : Kind) : string :=
  if decide (kind = Invalid)
  then "reflect: call of " ++ method ++ " on zero Value"
  else "reflect: call of " ++ method ++ " on " ++ Kind_String kind ++ " Value".

(** The [Error()] methods. *)
Definition Error (p : panic_value) : option string :=
  match p with
  | runtimeError e => Some ("runtime error: " ++ e)
  | plainError e => Some e
  | hostRuntimeError e => Some e
  | hostValueError m k => Some (ValueError_Error m k)
  | hostError _ e => Some e
  | _ => None
  end.

(** A computation of the kernel: a result, or a host panic. *)
Inductive res (A : Type) :=
| Ok (a : A)
| Throw (p : panic_value).
Arguments Ok {A} a.
Arguments Throw {A} p.

Global Instance res_ret : MRet res := fun A a => Ok a.
Global Instance res_bind : MBind res := fun A B f m =>
  match m with
  | Ok a => f a
  | Throw p => Throw p
  end.

(** A failed single-result type assertion [y.(T)] of the host. *)
Definition assertion_failure (y : value) (T : string) : panic_value :=
  hostRuntimeError
    ("interface conversion: interface {} is "
       ++ match type_of y with Some t => type_String t | None => "nil" end
       ++ ", not " ++ T).

Definition assert_int (k : ikind) (y : value) : res Z :=
  match y with
  | VInt k' b => if decide (k' = k) then Ok b
                 else Throw (assertion_failure y (ikind_name k))
  | _ => Throw (assertion_failure y (ikind_name k))
  end.

Definition assert_float (k : fkind) (y : value) : res spec_float :=
  match y with
  | VFloat k' b => if decide (k' = k) then Ok b
                   else Throw (assertion_failure y (type_String (TFloat k)))
  | _ => Throw (assertion_failure y (type_String (TFloat k)))
  end.

Definition assert_complex (k : ckind) (y : value)
  : res (spec_float * spec_float) :=
  match y with
  | VComplex k' br bi =>
      if decide (k' = k) then Ok (br, bi)
      else Throw (assertion_failure y (type_String (TComplex k)))
  | _ => Throw (assertion_failure y (type_String (TComplex k)))
  end.

Definition assert_string (y : value) : res string :=
  match y with
  | VString b => Ok b
  | _ => Throw (assertion_failure y "string")
  end.

Definition assert_bool (y : value) : res bool :=
  match y with
  | VBool b => Ok b
  | _ => Throw (assertion_failure y "bool")
  end.

(** ** Floating point

    [float32] and [float64] are the IEEE 754 binary formats, with the
    operations of the Standard Library's executable specification. *)

Definition fprec (k : fkind) : Z :=
  match k with Float32 => 24 | Float64 => 53 end.
Definition femax (k : fkind) : Z :=
  match k with Float32 => 128 | Float64 => 1024 end.

Definition fadd (k : fkind) := SFadd (fprec k) (femax k).
Definition fsub (k : fkind) := SFsub (fprec k) (femax k).

(** [float32(f)] of a [float64] (the identity on [Float64]): what
    [SetFloat] and [SetComplex] store. *)
Definition fround (k : fkind) (f : spec_float) : spec_float :=
  match f with
  | S754_finite s m e => binary_normalize (fprec k) (femax k) (Z.pos m) e s
  | _ => f
  end.

Definition cpart (k : ckind) : fkind :=
  match k with Complex64 => Float32 | Complex128 => Float64 end.

(** ** Reflection on numbers and strings

    [v.Int()], [v.Uint()], [v.Float()], [v.Complex()], [v.String()] of a
    [reflect.Value] whose kind the caller has checked. *)
Definition int_of (v : value) : Z :=
  match payload v with VInt _ n => n | _ => 0 end.
Definition float_of (v : value) : spec_float :=
  match payload v with VFloat _ f => f | _ => S754_zero false end.
Definition complex_of (v : value) : spec_float * spec_float :=
  match payload v with
  | VComplex _ r i => (r, i)
  | _ => (S754_zero false, S754_zero false)
  end.
Definition string_of (v : value) : string :=
  match payload v with VString s => s | _ => "" end.

(** [vx.Type()]: panics on the zero [reflect.Value] of a nil interface. *)
Definition Value_Type (v : value) : res type :=
  match type_of v with
  | Some t => Ok t
  | None => Throw (hostValueError "reflect.Value.Type" Invalid)
  end.

(** [fr.SetInt], [SetUint]: the 64-bit result truncated to the kind. *)
Definition set_int `{Host} (x : value) (k : ikind) (n : Z) : value :=
  retype x (VInt k (wrap k (wrap (if ik_signed k then Int64 else Uint64) n))).

(** ** asInt and asUint64 *)

(** [asInt] converts x, which must be an integer, to an int.  The type
    switch lists the eleven predeclared integer types; the default case
    goes through the reflective kind. *)
Definition asInt `{Host} (x : value) : res Z :=
  match x with
  | VInt Int n => Ok n
  | VInt _ n => Ok (wrap Int n)
  | _ =>
      match Value_Kind x with
      | KInteger _ => Ok (wrap Int (int_of x))
      | _ => Throw (hostString ("cannot convert " ++ fmt_T x ++ " to int"))
      end
  end.

(** [asUint64] converts x, which must be an unsigned integer, to a
    uint64.  In the default case the source evaluates [v.Uint()] for the
    unsigned kinds without returning it, so every value that is not of a
    predeclared unsigned type reaches the final panic. *)
Definition asUint64 `{Host} (x : value) : res Z :=
  match x with
  | VInt Uint n | VInt Uint8 n | VInt Uint16 n | VInt Uint32 n
  | VInt Uintptr n => Ok (wrap Uint64 n)
  | VInt Uint64 n => Ok n
  | _ =>
      match Value_Kind x with
      | KInteger (Uint | Uint8 | Uint16 | Uint32 | Uint64 | Uintptr) =>
          let _ := int_of x in
          Throw (hostString ("cannot convert " ++ fmt_T x ++ " to uint64"))
      | _ => Throw (hostString ("cannot convert " ++ fmt_T x ++ " to uint64"))
      end
  end.

(** ** The generic numeric kernel *)

Definition invalid_binary_op {A} (op : string) (x y : value) : res A :=
  Throw (hostString
           ("invalid binary op: " ++ fmt_T x ++ " " ++ op ++ " " ++ fmt_T y)).

Definition opADD `{Host} (x y : value) : res value :=
  match x with
  | VInt k a => b ← assert_int k y; mret (VInt k (wrap k (a + b)))
  | VFloat k a => b ← assert_float k y; mret (VFloat k (fadd k a b))
  | VComplex k ar ai =>
      c ← assert_complex k y;
      mret (VComplex k (fadd (cpart k) ar c.1) (fadd (cpart k) ai c.2))
  | VString a => b ← assert_string y; mret (VString (a ++ b))
  | _ =>
      let kind := Value_Kind x in
      if decide (kind = Value_Kind y) then
        _ ← Value_Type x;
        match kind with
        | KInteger k => mret (set_int x k (int_of x + int_of y))
        | KFloat k =>
            mret (retype x (VFloat k
                    (fround k (fadd Float64 (float_of x) (float_of y)))))
        | KComplex k =>
            let '(ar, ai) := complex_of x in
            let '(br, bi) := complex_of y in
            mret (retype x (VComplex k
                    (fround (cpart k) (fadd Float64 ar br))
                    (fround (cpart k) (fadd Float64 ai bi))))
        | KString => mret (retype x (VString (string_of x ++ string_of y)))
        | _ => invalid_binary_op "+" x y
        end
      else invalid_binary_op "+" x y
  end.

Definition opSUB `{Host} (x y : value) : res value :=
  match x with
  | VInt k a => b ← assert_int k y; mret (VInt k (wrap k (a - b)))
  | VFloat k a => b ← assert_float k y; mret (VFloat k (fsub k a b))
  | VComplex k ar ai =>
      c ← assert_complex k y;
      mret (VComplex k (fsub (cpart k) ar c.1) (fsub (cpart k) ai c.2))
  | _ =>
      let kind := Value_Kind x in
      if decide (kind = Value_Kind y) then
        _ ← Value_Type x;
        match kind with
        | KInteger k => mret (set_int x k (int_of x - int_of y))
        | KFloat k =>
            mret (retype x (VFloat k
                    (fround k (fsub Float64 (float_of x) (float_of y)))))
        | KComplex k =>
            let '(ar, ai) := complex_of x in
            let '(br, bi) := complex_of y in
            mret (retype x (VComplex k
                    (fround (cpart k) (fsub Float64 ar br))
                    (fround (cpart k) (fsub Float64 ai bi))))
        | _ => invalid_binary_op "-" x y
        end
      else invalid_binary_op "-" x y
  end.

(** Byte-wise order of strings. *)
Definition string_ltb (a b : string) : bool :=
  match String.compare a b with Lt => true | _ => false end.

Definition opLSS `{Host} (x y : value) : res value :=
  match x with
  | VInt k a => b ← assert_int k y; mret (VBool (a <? b))
  | VFloat k a => b ← assert_float k y; mret (VBool (SFltb a b))
  | VString a => b ← assert_string y; mret (VBool (string_ltb a b))
  | _ =>
      let kind := Value_Kind x in
      if decide (kind = Value_Kind y) then
        match kind with
        | KInteger _ => mret (VBool (int_of x <? int_of y))
        | KFloat _ => mret (VBool (SFltb (float_of x) (float_of y)))
        | KString => mret (VBool (string_ltb (string_of x) (string_of y)))
        | _ => invalid_binary_op "<" x y
        end
      else invalid_binary_op "<" x y
  end.

(** Shifts.  A Go shift by a count of at least the width of the operand
    gives 0, or -1 for [>>] on a negative operand. *)
Definition shl `{Host} (k : ikind) (a y : Z) : Z :=
  if ik_bits k <=? y then 0 else wrap k (Z.shiftl a y).
Definition shr `{Host} (k : ikind) (a y : Z) : Z :=
  if ik_bits k <=? y then (if a <? 0 then -1 else 0) else Z.shiftr a y.

Definition wide (k : ikind) : ikind :=
  if ik_signed k then Int64 else Uint64.

Definition opSHL `{Host} (x _y : value) : res value :=
  y ← asUint64 _y;
  match x with
  | VInt k a => mret (VInt k (shl k a y))
  | _ =>
      _ ← Value_Type x;
      match Value_Kind x with
      | KInteger k => mret (set_int x k (shl (wide k) (int_of x) y))
      | _ => invalid_binary_op "<<" x (VInt Uint64 y)
      end
  end.

Definition opSHR `{Host} (x _y : value) : res value :=
  y ← asUint64 _y;
  match x with
  | VInt k a => mret (VInt k (shr k a y))
  | _ =>
      _ ← Value_Type x;
      match Value_Kind x with
      | KInteger k => mret (set_int x k (shr (wide k) (int_of x) y))
      | _ => invalid_binary_op ">>" x (VInt Uint64 y)
      end
  end.

(** ** The store of cells *)

Definition store := list value.

Fixpoint get_path (v : value) (path : list nat) : option value :=
  match path with
  | [] => Some v
  | i :: rest =>
      match payload v with
      | VStruct _ vals => f ← vals !! i; get_path f rest
      | VArray _ elems => e ← elems !! i; get_path e rest
      | _ => None
      end
  end.

Fixpoint set_path (v : value) (path : list nat) (new : value) : option value :=
  match path with
  | [] => Some new
  | i :: rest =>
      match payload v with
      | VStruct fs vals =>
          f ← vals !! i; f' ← set_path f rest new;
          Some (retype v (VStruct fs (<[i := f']> vals)))
      | VArray e elems =>
          f ← elems !! i; f' ← set_path f rest new;
          Some (retype v (VArray e (<[i := f']> elems)))
      | _ => None
      end
  end.

Definition load (m : store) (p : pointer) : option value :=
  c ← m !! p_cell p; get_path c (p_path p).

Definition store_at (m : store) (p : pointer) (new : value) : option store :=
  c ← m !! p_cell p; c' ← set_path c (p_path p) new;
  Some (<[p_cell p := c']> m).

(** The zero value of a type: [reflect.New(typ).Elem().Interface()]. *)
Fixpoint zero (t : type) : value :=
  match t with
  | TBool => VBool false
  | TInteger k => VInt k 0
  | TFloat k => VFloat k (S754_zero false)
  | TComplex k => VComplex k (S754_zero false) (S754_zero false)
  | TString => VString ""
  | TNamed name u =>
      match zero u with
      | VNil => VNil
      | z => VNamed name z
      end
  | TPointer e => VPtr e None
  | TSlice e => VSlice e None 0 0 0
  | TArray n e => VArray e (repeat (zero e) (Z.to_nat n))
  | TStruct fs => VStruct fs (map (fun f => zero f.2) fs)
  | TInterface _ => VNil
  | TFunc _ => VNil
  end.

(** ** slice: x[lo:hi:max] *)

(** [v.Elem()] of a pointer: the cell it points to, with its address;
    the zero [reflect.Value] for a nil or dangling pointer. *)
Definition Elem (m : store) (x : value) : value * option pointer :=
  match payload x with
  | VPtr _ (Some p) =>
      match load m p with
      | Some c => (c, Some p)
      | None => (VNil, None)
      end
  | _ => (VNil, None)
  end.

Definition Value_Len (v : value) : Z :=
  match payload v with
  | VString s => Z.of_nat (String.length s)
  | VSlice _ _ _ len _ => len
  | VArray _ l => Z.of_nat (length l)
  | _ => 0
  end.

Definition Value_Cap (v : value) : Z :=
  match payload v with
  | VSlice _ _ _ _ cap => cap
  | VArray _ l => Z.of_nat (length l)
  | _ => 0
  end.

(** [reflect.Value.Slice] on a string. *)
Definition Value_Slice (v : value) (i j : Z) : res value :=
  match payload v with
  | VString s =>
      if (i <? 0) || (j <? i) || (Z.of_nat (String.length s) <? j)
      then Throw (hostString
                    "reflect.Value.Slice: string slice index out of bounds")
      else mret (retype v (VString
                   (String.substring (Z.to_nat i) (Z.to_nat (j - i)) s)))
  | _ => Throw (hostValueError "reflect.Value.Slice" (Value_Kind v))
  end.

(** [reflect.Value.Slice3] on a slice or an addressable array. *)
Definition Value_Slice3 (v : value) (addr : option pointer) (i j k : Z)
  : res value :=
  match payload v with
  | VSlice e base off _ cap =>
      if (j <? i) || (k <? j) || (cap <? k)
      then Throw (hostString "reflect.Value.Slice3: slice index out of bounds")
      else mret (retype v (VSlice e base (off + i) (j - i) (k - i)))
  | VArray e l =>
      match addr with
      | None =>
          Throw (hostString "reflect.Value.Slice3: slice of unaddressable array")
      | Some p =>
          if (j <? i) || (k <? j) || (Z.of_nat (length l) <? k)
          then Throw (hostString
                        "reflect.Value.Slice3: slice index out of bounds")
          else mret (VSlice e (Some p) i (j - i) (k - i))
      end
  | _ => Throw (hostValueError "reflect.Value.Slice3" (Value_Kind v))
  end.

Definition out_of_range (s : string) : panic_value :=
  runtimeError ("slice bounds out of range " ++ s).

(** The bounds checks of [slice], in the order of the source. *)
Definition slice_bounds (makeslice slice3 : bool) (kind : Kind)
    (l h m Cap : Z) : res unit :=
  if makeslice then
    if h <? 0 then Throw (runtimeError "makeslice: len out of range")
    else if m <? h then Throw (runtimeError "makeslice: cap out of range")
    else mret ()
  else if slice3 then
    if m <? 0 then Throw (out_of_range ("[::" ++ pretty m ++ "]"))
    else if Cap <? m then
      if decide (kind = KSlice)
      then Throw (out_of_range
             ("[::" ++ pretty m ++ "] with capacity " ++ pretty Cap))
      else Throw (out_of_range
             ("[::" ++ pretty m ++ "] with length " ++ pretty Cap))
    else if h <? 0 then Throw (out_of_range ("[:" ++ pretty h ++ ":]"))
    else if m <? h then
      Throw (out_of_range ("[:" ++ pretty h ++ ":" ++ pretty m ++ "]"))
    else if l <? 0 then Throw (out_of_range ("[" ++ pretty l ++ "::]"))
    else if h <? l then
      Throw (out_of_range ("[" ++ pretty l ++ ":" ++ pretty h ++ ":]"))
    else mret ()
  else
    if h <? 0 then Throw (out_of_range ("[:" ++ pretty h ++ "]"))
    else if Cap <? h then
      if decide (kind = KSlice)
      then Throw (out_of_range
             ("[:" ++ pretty h ++ "] with capacity " ++ pretty Cap))
      else Throw (out_of_range
             ("[:" ++ pretty h ++ "] with length " ++ pretty Cap))
    else if l <? 0 then Throw (out_of_range ("[" ++ pretty l ++ ":]"))
    else if h <? l then
      Throw (out_of_range ("[" ++ pretty l ++ ":" ++ pretty h ++ "]"))
    else mret ().

(** [slice] returns x[lo:hi:max]; any of lo, hi and max may be nil.
    [makeslice] says whether the sliced operand is an [*ssa.Alloc]. *)
Definition slice `{Host} (mem : store) (makeslice : bool)
    (x lo hi max : value) : res value :=
  let '(v, addr) :=
    if decide (Value_Kind x = KPtr) then Elem mem x else (x, None) in
  let '(Len, Cap) :=
    match Value_Kind v with
    | KString => (Value_Len v, Value_Len v)
    | KSlice | KArray => (Value_Len v, Value_Cap v)
    | _ => (0, 0)
    end in
  l ← match lo with VNil => mret 0 | _ => asInt lo end;
  h ← match hi with VNil => mret Len | _ => asInt hi end;
  m ← match max with VNil => mret Cap | _ => asInt max end;
  let slice3 := match max with VNil => false | _ => true end in
  let kind := Value_Kind v in
  _ ← slice_bounds makeslice slice3 kind l h m Cap;
  match kind with
  | KString => if l =? h then Value_Slice v 0 0 else Value_Slice v l h
  | KSlice | KArray => Value_Slice3 v addr l h m
  | _ => Throw (hostString ("slice: unexpected X type: " ++ fmt_T x))
  end.

(** ** typeAssert *)

(** Identity of types ([typ == rt]). *)
Fixpoint type_eqb (a b : type) : bool :=
  match a, b with
  | TBool, TBool | TString, TString => true
  | TInteger k, TInteger k' => bool_decide (k = k')
  | TFloat k, TFloat k' => bool_decide (k = k')
  | TComplex k, TComplex k' => bool_decide (k = k')
  | TNamed n u, TNamed n' u' => bool_decide (n = n') && type_eqb u u'
  | TPointer e, TPointer e' | TSlice e, TSlice e' => type_eqb e e'
  | TArray n e, TArray n' e' => (n =? n') && type_eqb e e'
  | TStruct fs, TStruct fs' =>
      (fix fields (l l' : list (string * type)) : bool :=
         match l, l' with
         | [], [] => true
         | f :: r, f' :: r' =>
             bool_decide (f.1 = f'.1) && type_eqb f.2 f'.2 && fields r r'
         | _, _ => false
         end) fs fs'
  | TInterface ms, TInterface ms' => bool_decide (ms = ms')
  | TFunc s, TFunc s' => bool_decide (s = s')
  | _, _ => false
  end.

(** [Type.Name()] together with [Type.PkgPath()]: the qualified name of
    a defined type, the name of a predeclared one, empty otherwise. *)
Definition type_Name (t : type) : string :=
  match t with
  | TNamed _ _ | TBool | TInteger _ | TFloat _ | TComplex _ | TString =>
      type_String t
  | _ => ""
  end.

Section TypeAssert.

(** The reflective facilities of the host and the record of the type
    bridge, which the interpreter consults:  [rt.AssignableTo(typ)],
    [rv.Convert(typ)], [i.findType(rt, false)] (the [types.Type] behind
    a reflective type), [types.MissingMethod] (the name of the first
    method that is missing) and the scope [Obj().Parent()] in which a
    defined type is declared. *)
Variable AssignableTo : type -> type -> bool.
Variable Convert : value -> type -> value.
Variable findType : type -> option type.
Variable MissingMethod : type -> type -> option string.
Variable Parent : type -> nat.

Definition is_Named (t : type) : bool :=
  match t with TNamed _ _ => true | _ => false end.

(** The error of an assertion whose dynamic type [rt] is not
    assignable to the asserted type. *)
Definition conversion_error (X_Type AssertedType rt : type) : panic_value :=
  let typ := AssertedType in
  let err :=
    runtimeError ("interface conversion: " ++ type_String X_Type ++ " is "
                    ++ type_String rt ++ ", not " ++ type_String typ) in
  match Underlying AssertedType with
  | TInterface _ =>
      match findType rt with
      | Some it =>
          match MissingMethod it (Underlying AssertedType) with
          | Some meth =>
              runtimeError
                ("interface conversion: " ++ type_String rt ++ " is not "
                   ++ type_String AssertedType ++ ": missing method " ++ meth)
          | None => err
          end
      | None => err
      end
  | _ =>
      if bool_decide (type_Name typ = type_Name rt) then
        match findType typ, findType rt with
        | Some t1, Some t2 =>
            if is_Named t1 && is_Named t2
               && negb (Nat.eqb (Parent t1) (Parent t2))
            then runtimeError
                   ("interface conversion: " ++ type_String X_Type ++ " is "
                      ++ type_String rt ++ ", not " ++ type_String typ
                      ++ " (types from different scopes)")
            else err
        | _, _ => err
        end
      else err
  end.

(** [typeAssert] checks whether the dynamic type of [iv] is the
    asserted type.  It returns the extracted value on success and
    panics on failure, unless [CommaOk], in which case it always
    returns a "value,ok" tuple. *)
Definition typeAssert (X_Type AssertedType : type) (CommaOk : bool)
    (iv : value) : res value :=
  let typ := AssertedType in
  r ← match iv with
      | VNil =>
          mret (VNil,
                Some (plainError
                        ("interface conversion: interface is nil, not "
                           ++ type_String typ)))
      | _ =>
          rt ← Value_Type iv;
          if type_eqb typ rt then mret (iv, None)
          else if negb (AssignableTo rt typ)
          then mret (VNil, Some (conversion_error X_Type AssertedType rt))
          else mret (Convert iv typ, None)
      end;
  match r.2 with
  | Some err =>
      if negb CommaOk then Throw err
      else mret (VTuple [zero typ; VBool false])
  | None =>
      if CommaOk then mret (VTuple [r.1; VBool true]) else mret r.1
  end.
End TypeAssert.

(** ** The SSA program

    An operand ([ssa.Value]) is identified by [id], the key under which
    the frame's [env] and the compiled function's [valueIndex] know it.
    The instruction compiler looks at the shape of three kinds of operand
    ([*ssa.Convert], [*ssa.Alloc], [*ssa.FieldAddr]), which therefore keep
    their own operands; [Instr] is the result of any other instruction
    and [Param] a parameter or free variable. *)
Inductive ssa_Value :=
| Const (id : string) (T : type) (Value : value)
| FunctionRef (name : string)
| BuiltinRef (b : builtin)
| Param (id : string) (T : type)
| Alloc (id : string) (T : type) (Heap : bool)
| Convert (id : string) (T : type) (X : ssa_Value)
| FieldAddr (id : string) (T : type) (X : ssa_Value) (Field : nat)
| Instr (id : string) (T : type).

Definition builtin_Name (b : builtin) : string :=
  match b with
  | Bprint => "print" | Bprintln => "println"
  | Bpanic => "panic" | Brecover => "recover"
  end.

Definition key (v : ssa_Value) : string :=
  match v with
  | Const id _ _ | Param id _ | Alloc id _ _ | Convert id _ _
  | FieldAddr id _ _ _ | Instr id _ => id
  | FunctionRef name => name
  | BuiltinRef b => builtin_Name b
  end.

(** [v.Type()]. *)
Definition ssa_Type (v : ssa_Value) : type :=
  match v with
  | Const _ T _ | Param _ T | Alloc _ T _ | Convert _ T _
  | FieldAddr _ T _ _ | Instr _ T => T
  | FunctionRef _ => TFunc "func()"
  | BuiltinRef _ => TFunc "builtin"
  end.

(** The operators whose executors and kernels are embedded. *)
Inductive token := ADD | SUB | SHL | SHR | LSS.

(** The callee of a call: the embedding covers the calls whose callee is
    a function or a built-in named by the instruction. *)
Inductive callee := CalleeFunction (name : string) | CalleeBuiltin (b : builtin).

Definition callee_Value (c : callee) : ssa_Value :=
  match c with
  | CalleeFunction name => FunctionRef name
  | CalleeBuiltin b => BuiltinRef b
  end.

Record CallCommon := { Value : callee; Args : list ssa_Value }.

Inductive Instruction :=
| BinOp (id : string) (T : type) (Op : token) (X Y : ssa_Value)
| MakeSlice (id : string) (T : type) (Len Cap : ssa_Value)
| Slice (id : string) (T : type) (X : ssa_Value)
        (Low High Max : option ssa_Value)
| Call (id : string) (T : type) (C : CallCommon)
| Defer (C : CallCommon)
| RunDefers
| Panic (X : ssa_Value)
| Return (Results : list ssa_Value)
| Jump
| If (Cond : ssa_Value)
| Store (Addr Val : ssa_Value).

(** [instr.(ssa.Value)]. *)
Definition as_Value (instr : Instruction) : option ssa_Value :=
  match instr with
  | BinOp id T _ _ _ | MakeSlice id T _ _ | Slice id T _ _ _ _
  | Call id T _ => Some (Instr id T)
  | _ => None
  end.

Record BasicBlock :=
  { Instrs : list Instruction; Preds : list nat; Succs : list nat }.

Record ssa_Function :=
  { Name : string;
    Signature : string;
    Results : list type;
    Params : list ssa_Value;
    Locals : list ssa_Value;
    FreeVars : list ssa_Value;
    ssa_Blocks : list BasicBlock;
    ssa_Recover : option nat }.

(** ** Frames and the state of the interpreter *)

(** The mode flags.  Their numeric values are declared outside the files
    at hand; a mode is the set of flags it has. *)
Record Mode := { DisableRecover : bool }.

Record deferred :=
  { d_fn : value; d_args : list value; d_ssaArgs : list ssa_Value }.

(** A frame.  [caller] is a pointer to another frame, [pfn] the compiled
    function (by name), [block] and [prevBlock] blocks of [pfn] (by
    index), [env] a map that may be nil, [defers] the chain of deferred
    calls with the most recent at the head. *)
Record frame :=
  { caller : option nat;
    pfn : string;
    block : option nat;
    prevBlock : option nat;
    env : option (gmap string value);
    stack : list value;
    defers : list deferred;
    result : value;
    panicking : bool;
    panic : option panic_value }.

(** The mutable state: the frames that exist (a [*frame] is an index),
    [Interp.caller], the cells of the store and what was printed. *)
Record state :=
  { frames : list frame;
    i_caller : option nat;
    mem : store;
    output : list string }.

(** A computation of the engine ends in a result or a host panic, with
    the state it leaves, or does not end within the steps it was given. *)
Inductive outcome (A : Type) :=
| Done (r : res A) (s : state)
| Timeout.
Arguments Done {A} r s.
Arguments Timeout {A}.

Definition M (A : Type) : Type := state -> outcome A.

Global Instance M_ret : MRet M := fun A a s => Done (Ok a) s.
Global Instance M_bind : MBind M := fun A B f m s =>
  match m s with
  | Done (Ok a) s' => f a s'
  | Done (Throw p) s' => Done (Throw p) s'
  | Timeout => Timeout
  end.

Definition throw {A} (p : panic_value) : M A := fun s => Done (Throw p) s.
Definition lift {A} (r : res A) : M A := fun s => Done r s.
Definition timeout {A} : M A := fun _ => Timeout.
Definition get_state : M state := fun s => Done (Ok s) s.
Definition put_state (s : state) : M unit := fun _ => Done (Ok ()) s.

Definition nil_dereference : panic_value :=
  hostRuntimeError "invalid memory address or nil pointer dereference".

(** Reading and writing a frame through a pointer. *)
Definition the_frame (fid : nat) : M frame := fun s =>
  match frames s !! fid with
  | Some fr => Done (Ok fr) s
  | None => Done (Throw nil_dereference) s
  end.

Definition update_frame (fid : nat) (f : frame -> frame) : M unit := fun s =>
  match frames s !! fid with
  | Some fr =>
      Done (Ok ())
        {| frames := <[fid := f fr]> (frames s); i_caller := i_caller s;
           mem := mem s; output := output s |}
  | None => Done (Throw nil_dereference) s
  end.

Definition with_block (b p : option nat) (fr : frame) : frame :=
  {| caller := caller fr; pfn := pfn fr; block := b; prevBlock := p;
     env := env fr; stack := stack fr; defers := defers fr;
     result := result fr; panicking := panicking fr; panic := panic fr |}.
Definition with_env (e : option (gmap string value)) (fr : frame) : frame :=
  {| caller := caller fr; pfn := pfn fr; block := block fr;
     prevBlock := prevBlock fr; env := e; stack := stack fr;
     defers := defers fr; result := result fr; panicking := panicking fr;
     panic := panic fr |}.
Definition with_stack (st : list value) (fr : frame) : frame :=
  {| caller := caller fr; pfn := pfn fr; block := block fr;
     prevBlock := prevBlock fr; env := env fr; stack := st;
     defers := defers fr; result := result fr; panicking := panicking fr;
     panic := panic fr |}.
Definition with_defers (ds : list deferred) (fr : frame) : frame :=
  {| caller := caller fr; pfn := pfn fr; block := block fr;
     prevBlock := prevBlock fr; env := env fr; stack := stack fr;
     defers := ds; result := result fr; panicking := panicking fr;
     panic := panic fr |}.
Definition with_result (v : value) (fr : frame) : frame :=
  {| caller := caller fr; pfn := pfn fr; block := block fr;
     prevBlock := prevBlock fr; env := env fr; stack := stack fr;
     defers := defers fr; result := v; panicking := panicking fr;
     panic := panic fr |}.
Definition with_panic (b : bool) (p : option panic_value) (fr : frame)
  : frame :=
  {| caller := caller fr; pfn := pfn fr; block := block fr;
     prevBlock := prevBlock fr; env := env fr; stack := stack fr;
     defers := defers fr; result := result fr; panicking := b; panic := p |}.

(** [fr.reg(i)] and [fr.setReg(i, v)]: [fr.stack[i]], which the host
    bounds-checks. *)
Definition index_out_of_range (i : nat) (n : nat) : panic_value :=
  hostRuntimeError ("index out of range [" ++ pretty i ++ "] with length "
                      ++ pretty n).

Definition reg (fid i : nat) : M value :=
  fr ← the_frame fid;
  match stack fr !! i with
  | Some v => mret v
  | None => throw (index_out_of_range i (length (stack fr)))
  end.

Definition setReg (fid i : nat) (v : value) : M unit :=
  fr ← the_frame fid;
  if decide (i < length (stack fr))%nat
  then update_frame fid (with_stack (<[i := v]> (stack fr)))
  else throw (index_out_of_range i (length (stack fr))).

(** [fr.env[instr] = v]: a write to a nil map panics. *)
Definition setEnv (fid : nat) (id : string) (v : value) : M unit :=
  fr ← the_frame fid;
  match env fr with
  | Some e => update_frame fid (with_env (Some (<[id := v]> e)))
  | None => throw (hostRuntimeError "assignment to entry in nil map")
  end.

(** [fr.get(key)]: nil for a nil operand, the function or built-in
    itself, the value of a constant, and otherwise what [env] holds. *)
Definition get (fid : nat) (k : option ssa_Value) : M value :=
  match k with
  | None => mret VNil
  | Some (FunctionRef name) => mret (VFunction name)
  | Some (BuiltinRef b) => mret (VBuiltin b)
  | Some (Const _ _ v) => mret v
  | Some k =>
      fr ← the_frame fid;
      match env fr ≫= (.!! key k) with
      | Some r => mret r
      | None =>
          throw (hostString ("get: no value for " ++ key k))
      end
  end.

(** ** Reflection on cells *)

Definition Value_Bool (x : value) : res bool :=
  match payload x with
  | VBool b => Ok b
  | _ => Throw (hostValueError "reflect.Value.Bool" (Value_Kind x))
  end.

Definition Value_Int (x : value) : res Z :=
  match Value_Kind x with
  | KInteger (Int | Int8 | Int16 | Int32 | Int64) => Ok (int_of x)
  | _ => Throw (hostValueError "reflect.Value.Int" (Value_Kind x))
  end.

Definition Value_Uint (x : value) : res Z :=
  match Value_Kind x with
  | KInteger (Uint | Uint8 | Uint16 | Uint32 | Uint64 | Uintptr) =>
      Ok (int_of x)
  | _ => Throw (hostValueError "reflect.Value.Uint" (Value_Kind x))
  end.

Definition Value_Float (x : value) : res spec_float :=
  match Value_Kind x with
  | KFloat _ => Ok (float_of x)
  | _ => Throw (hostValueError "reflect.Value.Float" (Value_Kind x))
  end.

Definition Value_Complex (x : value) : res (spec_float * spec_float) :=
  match Value_Kind x with
  | KComplex _ => Ok (complex_of x)
  | _ => Throw (hostValueError "reflect.Value.Complex" (Value_Kind x))
  end.

(** [x.String()] does not panic: for a value that is not a string it
    gives ["<T Value>"]. *)
Definition Value_String (x : value) : string :=
  match Value_Kind x with
  | KString => string_of x
  | Invalid => "<invalid Value>"
  | _ => "<" ++ fmt_T x ++ " Value>"
  end.

(** [SetValue(v, x)]: the new content of the cell [v]. *)
Definition SetValue `{Host} (v x : value) : res value :=
  match Value_Kind v with
  | KBool => b ← Value_Bool x; mret (retype v (VBool b))
  | KInteger k =>
      if ik_signed k then n ← Value_Int x; mret (set_int v k n)
      else n ← Value_Uint x; mret (set_int v k n)
  | KFloat k => f ← Value_Float x; mret (retype v (VFloat k (fround k f)))
  | KComplex k =>
      c ← Value_Complex x;
      mret (retype v (VComplex k (fround (cpart k) c.1)
                                 (fround (cpart k) c.2)))
  | KString => mret (retype v (VString (Value_String x)))
  | Invalid => Throw (hostValueError "reflect.Value.Set" Invalid)
  | _ => mret x
  end.

(** The value of type [t] with the given payload. *)
Fixpoint of_type (t : type) (p : value) : value :=
  match t with
  | TNamed name u => VNamed name (of_type u p)
  | _ => p
  end.

(** [reflect.New]: a fresh cell. *)
Definition alloc (v : value) : M pointer := fun s =>
  Done (Ok (Pointer (length (mem s)) []))
    {| frames := frames s; i_caller := i_caller s;
       mem := (mem s ++ [v])%list; output := output s |}.

(** The panic of the host's [newarray] for an array whose size
    overflows or exceeds the limit of the allocator; it is a
    [runtime.Error]. *)
Definition allocation_refused : panic_value :=
  hostRuntimeError "runtime: allocation size out of range".

(** [reflect.MakeSlice(typ, len, cap)] of the host.  After its three
    checks it allocates the array with [unsafe_NewArray(elem, cap)];
    [allocates e n] says whether the host's allocator accepts an array of
    [n] elements of the type [e]. *)
Definition reflect_MakeSlice (allocates : type -> Z -> bool) (typ : type)
    (len cap : Z) : M value :=
  match Underlying typ with
  | TSlice e =>
      if len <? 0 then throw (hostString "reflect.MakeSlice: negative len")
      else if cap <? 0
      then throw (hostString "reflect.MakeSlice: negative cap")
      else if cap <? len then throw (hostString "reflect.MakeSlice: len > cap")
      else if allocates e cap then
        p ← alloc (VArray e (repeat (zero e) (Z.to_nat cap)));
        mret (of_type typ (VSlice e (Some p) 0 len cap))
      else throw allocation_refused
  | _ => throw (hostString "reflect.MakeSlice of non-slice type")
  end.

(** ** The engine *)

Inductive continuation := kNext | kReturn | kJump.

(** What an executor reaches of the interpreter and of the host:
    [Interp.call], [Interp.callFunction] (and [callFunctionEx], which
    differs by taking the compiled function that the table holds for the
    callee), the successors of a block of a compiled function, and the
    arrays that the host's allocator accepts (an array of [n] elements of
    a type, for [reflect.MakeSlice]). *)
Record engine :=
  { e_call : option nat -> value -> list value -> list ssa_Value -> M value;
    e_callFunction : option nat -> string -> list value -> list value
                     -> M value;
    e_Succs : string -> nat -> list nat;
    e_allocates : type -> Z -> bool }.

(** An executor: [func(fr *frame, k *int)]. *)
Definition executor : Type := engine -> nat -> M continuation.

Record FuncBlock :=
  { Index : nat;
    fb_Instrs : list executor;
    fb_Preds : list nat;
    fb_Succs : list nat }.

Record Function :=
  { Fn : ssa_Function;
    Blocks : list FuncBlock;
    MainBlock : option nat;
    Recover : option nat;
    valueIndex : gmap string nat;
    valueCount : nat;
    values : list value }.

(** The instruction compiler runs over the function being compiled and
    may panic. *)
Definition C (A : Type) : Type := Function -> res (A * Function).

Global Instance C_ret : MRet C := fun A a p => Ok (a, p).
Global Instance C_bind : MBind C := fun A B f m p =>
  match m p with
  | Ok (a, p') => f a p'
  | Throw e => Throw e
  end.

Definition getIndex (v : ssa_Value) : C nat := fun p =>
  match valueIndex p !! key v with
  | Some i => Ok (i, p)
  | None =>
      let i := valueCount p in
      Ok (i, {| Fn := Fn p; Blocks := Blocks p; MainBlock := MainBlock p;
                Recover := Recover p;
                valueIndex := <[key v := i]> (valueIndex p);
                valueCount := S i;
                values := (values p ++ [match v with
                                        | Const _ _ c => c
                                        | _ => VNil
                                        end])%list |})
  end.

Definition compile_panic {A} (e : panic_value) : C A := fun _ => Throw e.

Definition newline : string := String "010"%char "".

Definition with_output (b : string) (s : state) : state :=
  {| frames := frames s; i_caller := i_caller s; mem := mem s;
     output := (output s ++ [b])%list |}.

Definition with_mem (m : store) (s : state) : state :=
  {| frames := frames s; i_caller := i_caller s; mem := m;
     output := output s |}.

Definition with_i_caller (c : option nat) (s : state) : state :=
  {| frames := frames s; i_caller := c; mem := mem s; output := output s |}.

(** [&frame{...}]: a new frame, and the pointer to it. *)
Definition new_frame (fr : frame) : M nat := fun s =>
  Done (Ok (length (frames s)))
    {| frames := (frames s ++ [fr])%list; i_caller := i_caller s;
       mem := mem s; output := output s |}.

(** [%T] of what [recover()] of the host returned. *)
Definition panic_T (p : option panic_value) : string :=
  match p with
  | None => "<nil>"
  | Some (targetPanic _) => "gossa.targetPanic"
  | Some (runtimeError _) => "gossa.runtimeError"
  | Some (plainError _) => "gossa.plainError"
  | Some (exitPanic _) => "gossa.exitPanic"
  | Some (hostString _) => "string"
  | Some (hostRuntimeError _) => "runtime.errorString"
  | Some (hostValueError _ _) => "*reflect.ValueError"
  | Some (hostError T _) => T
  end.

Section Engine.
Context `{Host}.

(** The mode of the interpreter, and the two printing functions of the
    package, which are declared outside the files at hand. *)
Variable mode : Mode.
Variables toString toInterface : value -> string.

(** The functions of the program, by name ([mainpkg.Func]). *)
Variable prog : gmap string ssa_Function.

(** *** Built-ins *)

(** [print] writes the bytes to the standard output of the target
    program (and to [CapturedOutput]). *)
Definition print (b : string) : M unit := fun s =>
  Done (Ok ()) (with_output b s).

Fixpoint print_args (ln : bool) (i : nat) (args : list value)
    (ssaArgs : list ssa_Value) : string :=
  match args with
  | [] => ""
  | arg :: rest =>
      (if (0 <? i)%nat && ln then " " else "")
      ++ match ssaArgs !! i with
         | Some a =>
             if decide (type_Kind (ssa_Type a) = KInterface)
             then toInterface arg else toString arg
         | None => toString arg
         end
      ++ print_args ln (S i) rest ssaArgs
  end.

(** The type switch of [doRecover] on the panic value [p]: what
    recover() returns for it. *)
Definition recovered (p : option panic_value) : res value :=
  match p with
  | Some (targetPanic v) => Ok v
  | Some (runtimeError e) => Ok (VError ErrRuntime e)
  | Some (hostRuntimeError e) => Ok (VError ErrHostRuntime e)
  | Some (hostString e) => Ok (VString e)
  | Some (plainError e) => Ok (VError ErrPlain e)
  | Some (hostValueError m k) =>
      Ok (VError ErrValueError (ValueError_Error m k))
  | _ =>
      Throw (hostString
               ("unexpected panic type " ++ panic_T p
                  ++ " in target call to recover()"))
  end.

(** [doRecover] implements the recover() built-in.  [caller.i] is read
    before [caller] is compared with nil. *)
Definition doRecover (caller_ : option nat) : M value :=
  match caller_ with
  | None => throw nil_dereference
  | Some c =>
      fr ← the_frame c;
      if negb (DisableRecover mode) && negb (panicking fr) then
        match caller fr with
        | Some cc =>
            outer ← the_frame cc;
            if panicking outer then
              update_frame cc (with_panic false None);;
              lift (recovered (panic outer))
            else mret VNil
        | None => mret VNil
        end
      else mret VNil
  end.

Definition callBuiltin (caller_ : option nat) (fn : builtin)
    (args : list value) (ssaArgs : list ssa_Value) : M value :=
  match fn with
  | Bprint =>
      print (print_args false 0 args ssaArgs);; mret VNil
  | Bprintln =>
      print (print_args true 0 args ssaArgs ++ newline);; mret VNil
  | Bpanic =>
      match args with
      | a :: _ => throw (targetPanic a)
      | [] => throw (index_out_of_range 0 0)
      end
  | Brecover => doRecover caller_
  end.

(** *** Deferred calls *)

(** [runDefer] runs a deferred call d.  It always returns normally,
    but may set [fr.panic]. *)
Definition runDefer (E : engine) (fid : nat) (d : deferred) : M unit :=
  fun s =>
    match e_call E (Some fid) (d_fn d) (d_args d) (d_ssaArgs d) s with
    | Done (Ok _) s' => Done (Ok ()) s'
    | Done (Throw p) s' => update_frame fid (with_panic true (Some p)) s'
    | Timeout => Timeout
    end.

(** [for d := fr.defers; d != nil; d = d.tail { fr.runDefer(d) }] *)
Fixpoint run_chain (E : engine) (fid : nat) (d : list deferred) : M unit :=
  match d with
  | [] => mret ()
  | d :: tail => runDefer E fid d;; run_chain E fid tail
  end.

(** [runDefers] executes fr's deferred function calls in LIFO order. *)
Definition runDefers (E : engine) (fid : nat) : M unit :=
  fr ← the_frame fid;
  run_chain E fid (defers fr);;
  update_frame fid (with_defers []);;
  fr ← the_frame fid;
  if panicking fr then
    match panic fr with
    | Some p => throw p
    | None => mret ()
    end
  else mret ().

Definition prepareCall (fid : nat) (call : CallCommon)
  : M (value * list value) :=
  fn ← get fid (Some (callee_Value (Value call)));
  args ← mapM (fun arg =>
                 v ← get fid (Some arg);
                 mret (match v with
                       | VFunction f => VMakeFunc f []
                       | _ => v
                       end)) (Args call);
  mret (fn, args).

(** *** The instruction compiler *)

Definition next (m : M unit) : M continuation := m;; mret kNext.

(** [fr.env[key]] read directly: nil when absent. *)
Definition envRead (fid : nat) (v : ssa_Value) : M value :=
  fr ← the_frame fid;
  mret (default VNil (env fr ≫= (.!! key v))).

(** [fr.prevBlock, fr.block = fr.block, fr.block.Succs[succ]] *)
Definition transfer (E : engine) (fid succ : nat) : M unit :=
  fr ← the_frame fid;
  match block fr with
  | None => throw nil_dereference
  | Some b =>
      let succs := e_Succs E (pfn fr) b in
      match succs !! succ with
      | Some b' => update_frame fid (with_block (Some b') (Some b))
      | None => throw (index_out_of_range succ (length succs))
      end
  end.

(** The shift executors: when the count is an [*ssa.Convert] of a
    signed integer, the converted operand is checked first. *)
Definition shift_executor (op : value -> value -> res value)
    (id : string) (X Y : ssa_Value) : executor :=
  match Y with
  | Convert _ _ cX =>
      let xk := type_Kind (ssa_Type cX) in
      if (Kind_code (KInteger Int) <=? Kind_code xk)
         && (Kind_code xk <=? Kind_code (KInteger Int64))
      then
        fun E fr => next (
          v ← get fr (Some cX);
          n ← lift (Value_Int v);
          if n <? 0 then throw (runtimeError "negative shift amount")
          else
            x ← get fr (Some X); y ← get fr (Some Y);
            r ← lift (op x y);
            setEnv fr id r)
      else
        fun E fr => next (
          x ← get fr (Some X); y ← get fr (Some Y);
          r ← lift (op x y);
          setEnv fr id r)
  | _ =>
      fun E fr => next (
        x ← get fr (Some X); y ← get fr (Some Y);
        r ← lift (op x y);
        setEnv fr id r)
  end.

Definition BinOp_executor (id : string) (T : type) (Op : token)
    (X Y : ssa_Value) : C executor :=
  i ← getIndex (Instr id T);
  ix ← getIndex X;
  iy ← getIndex Y;
  match Op with
  | ADD =>
      mret (fun (E : engine) fr => next (
        x ← reg fr ix; a ← lift (assert_int Int x);
        y ← reg fr iy; b ← lift (assert_int Int y);
        setReg fr i (VInt Int (wrap Int (a + b)))))
  | SUB =>
      mret (fun (E : engine) fr => next (
        x ← reg fr ix; a ← lift (assert_int Int x);
        y ← reg fr iy; b ← lift (assert_int Int y);
        setReg fr i (VInt Int (wrap Int (a - b)))))
  | SHL => mret (shift_executor opSHL id X Y)
  | SHR => mret (shift_executor opSHR id X Y)
  | LSS =>
      mret (fun (E : engine) fr => next (
        x ← reg fr ix; a ← lift (assert_int Int x);
        y ← reg fr iy; b ← lift (assert_int Int y);
        setReg fr i (VBool (a <? b))))
  end.

Definition MakeSlice_executor (id : string) (T : type)
    (Len Cap : ssa_Value) : executor :=
  let typ := T in
  fun E fr => next (
    l ← get fr (Some Len);
    Len ← lift (asInt l);
    if (Len <? 0) || (maxMemLen <=? Len)
    then throw (runtimeError "makeslice: len out of range")
    else
      c ← get fr (Some Cap);
      Cap ← lift (asInt c);
      if (Cap <? 0) || (maxMemLen <=? Cap)
      then throw (runtimeError "makeslice: cap out of range")
      else
        v ← reflect_MakeSlice (e_allocates E) typ Len Cap;
        setEnv fr id v).

Definition Slice_executor (id : string) (X : ssa_Value)
    (Low High Max : option ssa_Value) : executor :=
  fun E fr => next (
    let makeslice := match X with Alloc _ _ _ => true | _ => false end in
    x ← get fr (Some X);
    lo ← get fr Low;
    hi ← get fr High;
    max ← get fr Max;
    s ← get_state;
    v ← lift (slice (mem s) makeslice x lo hi max);
    setEnv fr id v).

(** [*ssa.Store].  A store through the address of a field named "_"
    of a struct type gets no executor. *)
Definition Store_executor (Addr Val : ssa_Value) : C (option executor) :=
  skip ←
    match Addr with
    | FieldAddr _ _ aX Field =>
        match ssa_Type aX with
        | TPointer (TStruct fs) =>
            match fs !! Field with
            | Some f => mret (bool_decide (f.1 = "_"))
            | None =>
                compile_panic (index_out_of_range Field (length fs))
            end
        | TPointer _ => mret false
        | t =>
            compile_panic
              (hostRuntimeError
                 ("interface conversion: types.Type is " ++ type_String t
                    ++ ", not *types.Pointer"))
        end
    | _ => mret false
    end;
  if (skip : bool) then mret None
  else
    ia ← getIndex Addr;
    iv ← getIndex Val;
    mret (Some (fun (E : engine) fr => next (
      x ← reg fr ia;
      val ← reg fr iv;
      let val := match val with
                 | VFunction fn => VMakeFunc fn []
                 | _ => val
                 end in
      match type_of x with
      | None => throw (hostValueError "reflect.Value.Elem" Invalid)
      | Some _ =>
          match payload x with
          | VPtr _ p =>
              s ← get_state;
              let target := p ≫= load (mem s) in
              new ← lift (match target with
                          | Some cell =>
                              match val with
                              | VNil => SetValue cell
                                          (default VNil (zero <$> type_of cell))
                              | _ => SetValue cell val
                              end
                          | None =>
                              match val with
                              | VNil =>
                                  Throw (hostValueError "reflect.Value.Type"
                                           Invalid)
                              | _ =>
                                  Throw (hostValueError "reflect.Value.Set"
                                           Invalid)
                              end
                          end);
              match p ≫= fun p => store_at (mem s) p new with
              | Some m' => put_state (with_mem m' s)
              | None => throw (hostValueError "reflect.Value.Set" Invalid)
              end
          | _ => throw (hostValueError "reflect.Value.Elem" (Value_Kind x))
          end
      end))).

(** [makeCallInstr], for a callee that is a function of the program or
    a built-in.  No function is registered as external. *)
Definition makeCallInstr (id : string) (T : type) (call : CallCommon)
  : C (option executor) :=
  let nargs := length (Args call) in
  ii ← getIndex (Instr id T);
  iargs ← mapM getIndex (Args call);
  let targs :=
    map (fun arg => match arg with
                    | FunctionRef f => Some (VMakeFunc f [])
                    | Const _ _ v => Some v
                    | _ => None
                    end) (Args call) in
  let fetchMode := existsb (fun t => bool_decide (is_Some t)) targs in
  (* the arguments, the pre-bound ones from [targs] *)
  let fetched (read : nat * ssa_Value -> M value) : M (list value) :=
    mapM (fun a => match a.1 with
                   | Some v => mret v
                   | None => read a.2
                   end) (zip targs (zip iargs (Args call))) in
  let from_regs (fid : nat) : M (list value) := mapM (reg fid) iargs in
  match Value call with
  | CalleeFunction fn =>
      match ssa_Blocks <$> prog !! fn with
      | None | Some [] =>
          if bool_decide (fn = "init")
             && bool_decide (Signature <$> prog !! fn = Some "func()")
          then mret None
          else compile_panic
                 (hostError "*errors.errorString"
                    ("no code for function: " ++ fn))
      | Some _ =>
          if (nargs =? 0)%nat then
            mret (Some (fun (E : engine) fr => next (
              r ← e_callFunction E (Some fr) fn [] [];
              setEnv fr id r)))
          else if fetchMode then
            mret (Some (fun (E : engine) fr => next (
              args ← fetched (fun a => reg fr a.1);
              r ← e_callFunction E (Some fr) fn args [];
              setReg fr ii r)))
          else
            mret (Some (fun (E : engine) fr => next (
              args ← from_regs fr;
              r ← e_callFunction E (Some fr) fn args [];
              setReg fr ii r)))
      end
  | CalleeBuiltin fn =>
      if (nargs =? 0)%nat then
        mret (Some (fun (E : engine) fr => next (
          r ← callBuiltin (Some fr) fn [] [];
          setEnv fr id r)))
      else if fetchMode then
        mret (Some (fun (E : engine) fr => next (
          args ← fetched (fun a => envRead fr a.2);
          r ← callBuiltin (Some fr) fn args (Args call);
          setEnv fr id r)))
      else
        mret (Some (fun (E : engine) fr => next (
          args ← from_regs fr;
          callBuiltin (Some fr) fn args (Args call);;
          mret ())))
  end.

Definition makeInstr (instr : Instruction) : C (option executor) :=
  match as_Value instr with
  | Some v => getIndex v
  | None => mret 0%nat
  end;;
  match instr with
  | BinOp id T Op X Y => e ← BinOp_executor id T Op X Y; mret (Some e)
  | MakeSlice id T Len Cap => mret (Some (MakeSlice_executor id T Len Cap))
  | Slice id T X Low High Max =>
      mret (Some (Slice_executor id X Low High Max))
  | Call id T call => makeCallInstr id T call
  | Jump =>
      mret (Some (fun (E : engine) fr => transfer E fr 0;; mret kJump))
  | If Cond =>
      ic ← getIndex Cond;
      mret (Some (fun (E : engine) fr =>
        v ← reg fr ic;
        b ← lift (assert_bool v);
        transfer E fr (if (b : bool) then 0%nat else 1%nat);;
        mret kJump))
  | Return Results =>
      match Results with
      | [] =>
          mret (Some (fun (E : engine) fr =>
            fr' ← the_frame fr;
            update_frame fr (with_block None (prevBlock fr'));;
            mret kReturn))
      | [r] =>
          ir ← getIndex r;
          mret (Some (fun (E : engine) fr =>
            v ← reg fr ir;
            update_frame fr (with_result v);;
            fr' ← the_frame fr;
            update_frame fr (with_block None (prevBlock fr'));;
            mret kReturn))
      | _ =>
          mret (Some (fun (E : engine) fr =>
            res ← mapM (fun r => get fr (Some r)) Results;
            update_frame fr (with_result (VTuple res));;
            fr' ← the_frame fr;
            update_frame fr (with_block None (prevBlock fr'));;
            mret kReturn))
      end
  | RunDefers => mret (Some (fun (E : engine) fr => next (runDefers E fr)))
  | Panic X =>
      mret (Some (fun (E : engine) fr =>
        v ← get fr (Some X); throw (targetPanic v)))
  | Defer call =>
      mret (Some (fun (E : engine) fr => next (
        c ← prepareCall fr call;
        fr' ← the_frame fr;
        update_frame fr
          (with_defers ({| d_fn := c.1; d_args := c.2;
                           d_ssaArgs := Args call |} :: defers fr')))))
  | Store Addr Val => Store_executor Addr Val
  end.

(** *** The visitor: compiling a function *)

Definition empty_Function (fn : ssa_Function) : Function :=
  {| Fn := fn; Blocks := []; MainBlock := None; Recover := None;
     valueIndex := ∅; valueCount := 0; values := [] |}.

(** The executors of a block; an instruction without executor is
    skipped. *)
Fixpoint compile_instrs (l : list Instruction) : C (list executor) :=
  match l with
  | [] => mret []
  | instr :: rest =>
      ifn ← makeInstr instr;
      r ← compile_instrs rest;
      mret (match ifn with Some e => e :: r | None => r end)
  end.

Fixpoint compile_blocks (index : nat) (l : list BasicBlock)
  : C (list FuncBlock) :=
  match l with
  | [] => mret []
  | b :: rest =>
      es ← compile_instrs (Instrs b);
      r ← compile_blocks (S index) rest;
      mret ({| Index := index; fb_Instrs := es; fb_Preds := Preds b;
               fb_Succs := Succs b |} :: r)
  end.

(** [visit.function], for a function with a body. *)
Definition compile_function (fn : ssa_Function) : res Function :=
  r ← (mapM getIndex (Locals fn);;
       mapM getIndex (Params fn);;
       mapM getIndex (FreeVars fn);;
       compile_blocks 0 (ssa_Blocks fn)) (empty_Function fn);
  let '(blocks, p) := r in
  mret {| Fn := fn; Blocks := blocks;
          MainBlock := match blocks with [] => None | _ => Some 0%nat end;
          Recover := ssa_Recover fn;
          valueIndex := valueIndex p; valueCount := valueCount p;
          values := values p |}.

(** The table [Interp.funcs]: every function with a body, compiled. *)
Fixpoint compile_all (l : list ssa_Function) : res (gmap string Function) :=
  match l with
  | [] => mret ∅
  | fn :: rest =>
      t ← compile_all rest;
      match ssa_Blocks fn with
      | [] => mret t
      | _ => p ← compile_function fn; mret (<[Name fn := p]> t)
      end
  end.

(** *** Calls *)

Variable funcs : gmap string Function.

Definition Succs_of (fn : string) (b : nat) : list nat :=
  default [] (fb_Succs <$> (funcs !! fn ≫= fun p => Blocks p !! b)).

Definition deref (typ : type) : type :=
  match Underlying typ with
  | TPointer e => e
  | _ => typ
  end.

(** [reflect.New(typ).Interface()] *)
Definition reflect_New (typ : type) : M value :=
  p ← alloc (zero typ); mret (VPtr typ (Some p)).

Definition run_instrs (E : engine) (fid : nat)
  : list executor -> M continuation :=
  fix go (l : list executor) : M continuation :=
    match l with
    | [] => mret kNext
    | fn :: rest =>
        k ← fn E fid;
        match k with
        | kReturn => mret kReturn
        | kJump => mret kJump
        | kNext => go rest
        end
    end.

(** [runFrame] executes the blocks of a frame until a return.  A block
    that ends without a jump or a return is run again. *)
Fixpoint runFrame (E : engine) (n fid : nat) : M unit :=
  match n with
  | O => timeout
  | S n' =>
      fr ← the_frame fid;
      match block fr with
      | None => throw nil_dereference
      | Some b =>
          match funcs !! pfn fr ≫= fun p => Blocks p !! b with
          | None => throw nil_dereference
          | Some fb =>
              k ← run_instrs E fid (fb_Instrs fb);
              match k with
              | kReturn => mret ()
              | _ => runFrame E n' fid
              end
          end
      end
  end.

(** [for fr.block != nil { i.runFrame(fr) }] *)
Fixpoint run_to_return (E : engine) (n m fid : nat) : M unit :=
  match m with
  | O => timeout
  | S m' =>
      fr ← the_frame fid;
      match block fr with
      | None => mret ()
      | Some _ => runFrame E n fid;; run_to_return E n m' fid
      end
  end.

Definition arg_at (args : list value) (i : nat) : M value :=
  match args !! i with
  | Some a => mret a
  | None => throw (index_out_of_range i (length args))
  end.

(** The loops of [callSSA] and [callFunction] that place the locals,
    the parameters and the free variables. *)
Fixpoint place_locals (with_env : bool) (fid index : nat)
    (l : list ssa_Value) : M nat :=
  match l with
  | [] => mret index
  | loc :: rest =>
      let typ := deref (ssa_Type loc) in
      (if with_env then e ← reflect_New typ; setEnv fid (key loc) e
       else mret ());;
      c ← reflect_New typ;
      setReg fid index c;;
      place_locals with_env fid (S index) rest
  end.

Fixpoint place_args (with_env : bool) (fid index i : nat)
    (l : list ssa_Value) (args : list value) : M nat :=
  match l with
  | [] => mret index
  | p :: rest =>
      (if with_env then a ← arg_at args i; setEnv fid (key p) a
       else mret ());;
      a ← arg_at args i;
      setReg fid index a;;
      place_args with_env fid (S index) (S i) rest args
  end.

Definition initial_frame (caller_ : option nat) (fn : string)
    (p : Function) (e : option (gmap string value)) : frame :=
  {| caller := caller_; pfn := fn; block := MainBlock p;
     prevBlock := None; env := e; stack := values p; defers := [];
     result := VNil; panicking := false; panic := None |}.

(** [callSSA] interprets a call to function fn with arguments args and
    lexical environment env, returning its result.  The functions of
    the program are not external and have no receiver. *)
Definition callSSA (E : engine) (n : nat) (caller_ : option nat)
    (fn : string) (args env_ : list value) : M value :=
  match ssa_Blocks <$> prog !! fn with
  | None | Some [] =>
      if bool_decide (fn = "init")
         && bool_decide (Signature <$> prog !! fn = Some "func()")
      then mret (VBool true)
      else throw (hostString ("no code for function: " ++ fn))
  | Some _ =>
      match funcs !! fn, prog !! fn with
      | Some p, Some f =>
          fid ← new_frame (initial_frame caller_ fn p (Some ∅));
          index ← place_locals true fid 0 (Locals f);
          index ← place_args true fid index 0 (Params f) args;
          _ ← place_args true fid index 0 (FreeVars f) env_;
          run_to_return E n n fid;;
          update_frame fid (with_env None);;
          fr ← the_frame fid;
          update_frame fid (with_block None (prevBlock fr));;
          mret (result fr)
      | _, _ => throw nil_dereference
      end
  end.

(** [callFunction]: the frame has no [env]. *)
Definition callFunction (E : engine) (n : nat) (caller_ : option nat)
    (fn : string) (args env_ : list value) : M value :=
  match funcs !! fn, prog !! fn with
  | Some p, Some f =>
      fid ← new_frame (initial_frame caller_ fn p None);
      index ← place_locals false fid 0 (Locals f);
      index ← place_args false fid index 0 (Params f) args;
      _ ← place_args false fid index 0 (FreeVars f) env_;
      run_to_return E n n fid;;
      fr ← the_frame fid;
      update_frame fid (with_block None (prevBlock fr));;
      mret (result fr)
  | _, _ => throw nil_dereference
  end.

(** [callReflect] of a host function made by [makeFuncEx]: the host
    calls back [callFunction] with [Interp.caller] as the caller, and
    the result crosses the reflective boundary twice. *)
Definition callReflect (E : engine) (n : nat) (caller_ : option nat)
    (fn : string) (env_ args : list value) : M value :=
  s ← get_state;
  put_state (with_i_caller caller_ s);;
  r ← callFunction E n caller_ fn args env_;
  let outs := default [] (Results <$> prog !! fn) in
  let filled (vs : list value) : list value :=
    zip_with (fun v t => match v with VNil => zero t | _ => v end) vs outs in
  let results :=
    match r with
    | VTuple vs => filled vs
    | _ => match outs with
           | [_] => filled [r]
           | _ => []
           end
    end in
  mret (match results with
        | [] => VNil
        | [x] => x
        | _ => VTuple results
        end).

(** [call] interprets a call to a function (function, builtin or host
    function) fn with arguments args, returning its result. *)
Definition call (E : engine) (n : nat) (caller_ : option nat) (fn : value)
    (args : list value) (ssaArgs : list ssa_Value) : M value :=
  s ← get_state;
  caller_ ← match caller_ with
            | None => mret (i_caller s)
            | Some c => put_state (with_i_caller (Some c) s);; mret (Some c)
            end;
  match fn with
  | VFunction f => callSSA E n caller_ f args []
  | VBuiltin b => callBuiltin caller_ b args ssaArgs
  | VMakeFunc f env_ => callReflect E n caller_ f env_ args
  | _ =>
      throw (hostString ("cannot call " ++ fmt_T fn ++ " "
                           ++ Kind_String (Value_Kind fn)))
  end.

(** The interpreter that nests calls at most [n] deep and runs at most
    [n] blocks in a frame, on a host whose allocator accepts every
    array. *)
Fixpoint engine_at (n : nat) : engine :=
  match n with
  | O => {| e_call := fun _ _ _ _ => timeout;
            e_callFunction := fun _ _ _ _ => timeout;
            e_Succs := Succs_of;
            e_allocates := fun _ _ => true |}
  | S n' => {| e_call := call (engine_at n') n';
               e_callFunction := callFunction (engine_at n') n';
               e_Succs := Succs_of;
               e_allocates := fun _ _ => true |}
  end.

Definition Interp_call (n : nat) := call (engine_at n) n.

(** *** Run *)

Definition panic_v (p : panic_value) : string :=
  match p with
  | targetPanic v => toString v
  | exitPanic c => pretty c
  | hostString m => m
  | hostValueError m k => ValueError_Error m k
  | runtimeError e => "runtime error: " ++ e
  | plainError e | hostRuntimeError e | hostError _ e => e
  end.

(** [Run] runs the function [entry] of the main package and returns
    the exit code and the error. *)
Definition Run (n : nat) (entry : string) : M (Z * option panic_value) :=
  fun s =>
    match prog !! entry with
    | Some _ =>
        match Interp_call n None (VFunction entry) [] [] s with
        | Done (Ok _) s' => Done (Ok (0, None)) s'
        | Done (Throw p) s' =>
            if DisableRecover mode then Done (Throw p) s'
            else
              match p with
              | exitPanic c => Done (Ok (c, None)) s'
              | targetPanic _ => Done (Ok (2, Some p)) s'
              | runtimeError _ | hostRuntimeError _ =>
                  Done (Ok (2, Some p)) s'
              | hostString m => Done (Ok (2, Some (plainError m))) s'
              | plainError _ => Done (Ok (2, Some p)) s'
              | _ =>
                  Done (Ok (2, Some (hostError "*errors.errorString"
                                       ("unexpected type: "
                                          ++ panic_T (Some p) ++ ": "
                                          ++ panic_v p)))) s'
              end
        | Timeout => Timeout
        end
    | None =>
        Done (Ok (1, Some (hostError "*errors.errorString"
                             ("no function " ++ entry)))) s
    end.
End Engine.

Definition initial_state : state :=
  {| frames := []; i_caller := None; mem := []; output := [] |}.

(** ** Programs and states used below *)

(** [toString] on the values the examples print. *)
Definition example_toString (v : value) : string :=
  match v with
  | VString s => s
  | VInt _ n => pretty n
  | VBool true => "true"
  | VBool false => "false"
  | _ => "?"
  end.

Definition recovering : Mode := {| DisableRecover := false |}.
Definition crashing : Mode := {| DisableRecover := true |}.

Definition defer_print (s : string) : Instruction :=
  Defer {| Value := CalleeBuiltin Bprint;
           Args := [Const ("lit:" ++ s) TString (VString s)] |}.

Definition niladic (name : string) (body : list Instruction) : ssa_Function :=
  {| Name := name; Signature := "func()"; Results := []; Params := [];
     Locals := []; FreeVars := [];
     ssa_Blocks := [ {| Instrs := body; Preds := []; Succs := [] |} ];
     ssa_Recover := None |}.

(** [func main() { defer print("A"); defer print("B"); defer print("C");
    panic("boom") }] *)
Definition main_defer_panic : ssa_Function :=
  niladic "main"
    [defer_print "A"; defer_print "B"; defer_print "C";
     Panic (Const "lit:boom" TString (VString "boom"))].

(** The same deferred prints, and a normal return. *)
Definition main_defer_return : ssa_Function :=
  niladic "main"
    [defer_print "A"; defer_print "B"; defer_print "C"; RunDefers; Return []].

(** The program whose only function is [main]. *)
Definition program_of (main : ssa_Function) : gmap string ssa_Function :=
  {[ "main" := main ]}.

(** Compiling and running the one-function program [main]. *)
Definition run_main `{Host} (mode : Mode) (main : ssa_Function) (n : nat)
  : option (res (Z * option panic_value) * list string) :=
  match compile_all mode example_toString example_toString
          (program_of main) [main] with
  | Ok funcs =>
      match Run mode example_toString example_toString
              (program_of main) funcs n "main" initial_state with
      | Done r s => Some (r, output s)
      | Timeout => None
      end
  | Throw _ => None
  end.

(** [func f(x, y T) T { return x op y }] *)
Definition binary_function (Op : token) (T : type) : ssa_Function :=
  {| Name := "f"; Signature := "func(x, y T) T"; Results := [T];
     Params := [Param "x" T; Param "y" T]; Locals := []; FreeVars := [];
     ssa_Blocks :=
       [ {| Instrs := [BinOp "t0" T Op (Param "x" T) (Param "y" T);
                       Return [Instr "t0" T]];
            Preds := []; Succs := [] |} ];
     ssa_Recover := None |}.

(** Compiling the one-function program [fn] and calling it. *)
Definition call_function `{Host} (fn : ssa_Function) (args : list value)
    (n : nat) : option (res value) :=
  let prog : gmap string ssa_Function := {[ Name fn := fn ]} in
  match compile_all recovering example_toString example_toString prog [fn] with
  | Ok funcs =>
      match Interp_call recovering example_toString example_toString prog
              funcs n None (VFunction (Name fn)) args [] initial_state with
      | Done r _ => Some r
      | Timeout => None
      end
  | Throw _ => None
  end.

(** The compiled form of the one-function program [main]. *)
Definition compiled `{Host} (mode : Mode) (main : ssa_Function)
  : gmap string Function :=
  match compile_all mode example_toString example_toString
          (program_of main) [main] with
  | Ok funcs => funcs
  | Throw _ => ∅
  end.

(** A frame with the given [env] and registers, and the state that holds
    it alone. *)
Definition a_frame (e : option (gmap string value)) (st : list value) : frame :=
  {| caller := None; pfn := "f"; block := Some 0%nat; prevBlock := None;
     env := e; stack := st; defers := []; result := VNil;
     panicking := false; panic := None |}.

Definition a_state (fr : frame) : state :=
  {| frames := [fr]; i_caller := None; mem := []; output := [] |}.

(** An engine for the executors that call nothing. *)
Definition no_engine : engine :=
  {| e_call := fun _ _ _ _ => timeout;
     e_callFunction := fun _ _ _ _ => timeout;
     e_Succs := fun _ _ => [];
     e_allocates := fun _ _ => true |}.

Definition int_const (id : string) (n : Z) : ssa_Value :=
  Const id (TInteger Int) (VInt Int n).

Definition int_param (id : string) : ssa_Value := Param id (TInteger Int).

(** A frame in which [x] is 1 and [y] is -1. *)
Definition shift_state : state :=
  a_state (a_frame (Some {[ "x" := VInt Int 1; "y" := VInt Int (-1) ]}) []).

(** The executor of an instruction compiled on its own, and its run in
    frame 0 of a state. *)
Definition executor_of `{Host} (instr : Instruction) : option executor :=
  match makeInstr recovering example_toString example_toString ∅ instr
          (empty_Function (niladic "f" [])) with
  | Ok (e, _) => e
  | Throw _ => None
  end.

Definition has_executor `{Host} (instr : Instruction) : bool :=
  match executor_of instr with Some _ => true | None => false end.

Definition execute `{Host} (instr : Instruction) (s : state)
  : option (outcome continuation) :=
  e ← executor_of instr; Some (e no_engine 0%nat s).

(** [struct { _ int; x int }] *)
Definition blank_struct : type :=
  TStruct [("_", TInteger Int); ("x", TInteger Int)].

(** [*t1 = 7] where [t1 = &t0._] and [t0] is a local of type [S].  The
    instruction that computes [t1] is a [FieldAddr], which
    leaves its result in [env] and not in a register. *)
Definition store_blank (S : type) : Instruction :=
  Store (FieldAddr "t1" (TPointer (TInteger Int))
           (Alloc "t0" (TPointer S) false) 0)
        (int_const "seven" 7).

Definition main_store_blank (S : type) : ssa_Function :=
  {| Name := "main"; Signature := "func()"; Results := []; Params := [];
     Locals := [Alloc "t0" (TPointer S) false]; FreeVars := [];
     ssa_Blocks := [ {| Instrs := [store_blank S; Return []];
                        Preds := []; Succs := [] |} ];
     ssa_Recover := None |}.

(** The kinds of panic value that [recover()] passes to the target
    program: a target panic, a [runtime.Error], a string, a
    [plainError], a [runtimeError], a [*reflect.ValueError]. *)
Definition passes_through (p : option panic_value) : bool :=
  match p with
  | Some (targetPanic _) | Some (runtimeError _) | Some (hostRuntimeError _)
  | Some (hostString _) | Some (plainError _) | Some (hostValueError _ _) =>
      true
  | _ => false
  end.

(** An outer frame that is panicking with the value [p], and the frame of
    a deferred function that it called. *)
Definition panicking_state (p : panic_value) : state :=
  {| frames := [ with_panic true (Some p) (a_frame None []);
                 {| caller := Some 0%nat; pfn := "g"; block := Some 0%nat;
                    prevBlock := None; env := None; stack := [];
                    defers := []; result := VNil; panicking := false;
                    panic := None |} ];
     i_caller := Some 1%nat; mem := []; output := [] |}.

(** An array of five ints in cell 0, and a slice of its first three. *)
Definition five_ints : value :=
  VArray (TInteger Int) (repeat (VInt Int 0) 5).

Definition a_slice : value :=
  VSlice (TInteger Int) (Some (Pointer 0 [])) 0 3 5.

(** *** The messages of the three-index bounds checks *)





(** *** A program that defers any number of prints *)

Definition put_frame (fid : nat) (fr : frame) (s : state) : state :=
  {| frames := <[fid := fr]> (frames s); i_caller := i_caller s;
     mem := mem s; output := output s |}.

(** The deferred call that [defer_print x] records. *)
Definition print_call (x : string) : deferred :=
  {| d_fn := VBuiltin Bprint; d_args := [VString x];
     d_ssaArgs := [Const ("lit:" ++ x) TString (VString x)] |}.

(** The executors that [makeInstr] gives for [defer_print x], for
    [RunDefers] and for [Return []]. *)
Definition Defer_print_executor (x : string) : executor :=
  fun E fr => next (
    c ← prepareCall fr
          {| Value := CalleeBuiltin Bprint;
             Args := [Const ("lit:" ++ x) TString (VString x)] |};
    fr' ← the_frame fr;
    update_frame fr
      (with_defers ({| d_fn := c.1; d_args := c.2;
                       d_ssaArgs := [Const ("lit:" ++ x) TString (VString x)] |}
                      :: defers fr'))).

Definition RunDefers_executor : executor :=
  fun E fr => next (runDefers E fr).

Definition Return_executor : executor :=
  fun E fr =>
    fr' ← the_frame fr;
    update_frame fr (with_block None (prevBlock fr'));;
    mret kReturn.

(** [func main() { defer print(x1); ...; defer print(xn) }] *)
Definition defer_main (l : list string) : ssa_Function :=
  niladic "main" (map defer_print l ++ [RunDefers; Return []])%list.

Definition defer_main_compiled (l : list string) : Function :=
  {| Fn := defer_main l;
     Blocks := [ {| Index := 0;
                    fb_Instrs := (map Defer_print_executor l
                                    ++ [RunDefers_executor; Return_executor])%list;
                    fb_Preds := []; fb_Succs := [] |} ];
     MainBlock := Some 0%nat; Recover := None;
     valueIndex := ∅; valueCount := 0; values := [] |}.

(** The state after the deferred calls printed [xs] on behalf of the
    frame [fid]. *)
Definition after_prints (fid : nat) (xs : list string) (s : state) : state :=
  match xs with
  | [] => s
  | _ => {| frames := frames s; i_caller := Some fid; mem := mem s;
            output := (output s ++ xs)%list |}
  end.

Definition main_frame (l : list string) : frame :=
  initial_frame None "main" (defer_main_compiled l) (Some ∅).

Definition entered (l : list string) : state :=
  {| frames := [main_frame l]; i_caller := None; mem := []; output := [] |}.

Definition returned (l : list string) : state :=
  put_frame 0 (with_block None None (main_frame l))
    (after_prints 0 (rev l) (entered l)).

(** ** The other operators of the kernel *)

Definition fmul (k : fkind) := SFmul (fprec k) (femax k).
Definition fquo (k : fkind) := SFdiv (fprec k) (femax k).

(** Integer division of the host: the quotient is truncated toward
    zero, the remainder has the sign of the dividend, and a zero divisor
    is a run-time panic. *)
Definition divide_error : panic_value :=
  hostRuntimeError "runtime error: integer divide by zero".

Definition int_quo (a b : Z) : res Z :=
  if b =? 0 then Throw divide_error else Ok (Z.quot a b).
Definition int_rem (a b : Z) : res Z :=
  if b =? 0 then Throw divide_error else Ok (Z.rem a b).

Section Arithmetic.
Context `{Host}.

(** The product and the quotient of two complex numbers of the host,
    by kind. *)
Variables cmul cquo :
  ckind -> spec_float * spec_float -> spec_float * spec_float
  -> spec_float * spec_float.

Definition opMUL (x y : value) : res value :=
  match x with
  | VInt k a => b ← assert_int k y; mret (VInt k (wrap k (a * b)))
  | VFloat k a => b ← assert_float k y; mret (VFloat k (fmul k a b))
  | VComplex k ar ai =>
      c ← assert_complex k y;
      let r := cmul k (ar, ai) c in mret (VComplex k r.1 r.2)
  | _ =>
      let kind := Value_Kind x in
      if decide (kind = Value_Kind y) then
        _ ← Value_Type x;
        match kind with
        | KInteger k => mret (set_int x k (int_of x * int_of y))
        | KFloat k =>
            mret (retype x (VFloat k
                    (fround k (fmul Float64 (float_of x) (float_of y)))))
        | KComplex k =>
            let r := cmul Complex128 (complex_of x) (complex_of y) in
            mret (retype x (VComplex k (fround (cpart k) r.1)
                                       (fround (cpart k) r.2)))
        | _ => invalid_binary_op "*" x y
        end
      else invalid_binary_op "*" x y
  end.

Definition opQuo (x y : value) : res value :=
  match x with
  | VInt k a => b ← assert_int k y; c ← int_quo a b; mret (VInt k (wrap k c))
  | VFloat k a => b ← assert_float k y; mret (VFloat k (fquo k a b))
  | VComplex k ar ai =>
      c ← assert_complex k y;
      let r := cquo k (ar, ai) c in mret (VComplex k r.1 r.2)
  | _ =>
      let kind := Value_Kind x in
      if decide (kind = Value_Kind y) then
        _ ← Value_Type x;
        match kind with
        | KInteger k => c ← int_quo (int_of x) (int_of y); mret (set_int x k c)
        | KFloat k =>
            mret (retype x (VFloat k
                    (fround k (fquo Float64 (float_of x) (float_of y)))))
        | KComplex k =>
            let r := cquo Complex128 (complex_of x) (complex_of y) in
            mret (retype x (VComplex k (fround (cpart k) r.1)
                                       (fround (cpart k) r.2)))
        | _ => invalid_binary_op "/" x y
        end
      else invalid_binary_op "/" x y
  end.
End Arithmetic.

(** The operators that are defined on the integers alone ([%], [&],
    [|], [^], [&^]) have one shape: the eleven predeclared integer types
    in the type switch, and the reflective kind in the default case. *)
Definition integer_op `{Host} (sym : string) (f : Z -> Z -> res Z)
    (x y : value) : res value :=
  match x with
  | VInt k a => b ← assert_int k y; c ← f a b; mret (VInt k (wrap k c))
  | _ =>
      let kind := Value_Kind x in
      if decide (kind = Value_Kind y) then
        _ ← Value_Type x;
        match kind with
        | KInteger k => c ← f (int_of x) (int_of y); mret (set_int x k c)
        | _ => invalid_binary_op sym x y
        end
      else invalid_binary_op sym x y
  end.

Definition opREM `{Host} : value -> value -> res value :=
  integer_op "%" int_rem.
Definition opAND `{Host} : value -> value -> res value :=
  integer_op "&&" (fun a b => Ok (Z.land a b)).
Definition opOR `{Host} : value -> value -> res value :=
  integer_op "|" (fun a b => Ok (Z.lor a b)).
Definition opXOR `{Host} : value -> value -> res value :=
  integer_op "^" (fun a b => Ok (Z.lxor a b)).
Definition opANDNOT `{Host} : value -> value -> res value :=
  integer_op "&^" (fun a b => Ok (Z.ldiff a b)).

(** The comparisons [<=], [>] and [>=] have the shape of [opLSS]:
    integers, floats and strings, by type switch and then by kind. *)
Definition ordered_op `{Host} (sym : string) (zc : Z -> Z -> bool)
    (fc : spec_float -> spec_float -> bool) (sc : string -> string -> bool)
    (x y : value) : res value :=
  match x with
  | VInt k a => b ← assert_int k y; mret (VBool (zc a b))
  | VFloat k a => b ← assert_float k y; mret (VBool (fc a b))
  | VString a => b ← assert_string y; mret (VBool (sc a b))
  | _ =>
      let kind := Value_Kind x in
      if decide (kind = Value_Kind y) then
        match kind with
        | KInteger _ => mret (VBool (zc (int_of x) (int_of y)))
        | KFloat _ => mret (VBool (fc (float_of x) (float_of y)))
        | KString => mret (VBool (sc (string_of x) (string_of y)))
        | _ => invalid_binary_op sym x y
        end
      else invalid_binary_op sym x y
  end.

Definition string_leb (a b : string) : bool :=
  match String.compare a b with Gt => false | _ => true end.

Definition opLEQ `{Host} : value -> value -> res value :=
  ordered_op "<=" Z.leb SFleb string_leb.
Definition opGTR `{Host} : value -> value -> res value :=
  ordered_op ">" Z.gtb (fun a b => SFltb b a) (fun a b => string_ltb b a).
Definition opGEQ `{Host} : value -> value -> res value :=
  ordered_op ">=" Z.geb (fun a b => SFleb b a) (fun a b => string_leb b a).

(** ** unop *)

(** The unary operators: negation, pointer indirection, logical
    negation and bitwise complement.  (The receive operator needs
    channels, which the embedding does not have.) *)
Inductive unary_token := NEG | DEREF | NOT | COMPLEMENT.

Definition unary_token_String (op : unary_token) : string :=
  match op with
  | NEG => "-" | DEREF => "*" | NOT => "!" | COMPLEMENT => "^"
  end.

Definition invalid_unary_op {A} (op : unary_token) (x : value) : res A :=
  Throw (hostString
           ("invalid unary op " ++ unary_token_String op ++ " " ++ fmt_T x)).

Definition unop `{Host} (mem : store) (op : unary_token) (x : value)
  : res value :=
  match op with
  | NEG =>
      match x with
      | VInt k a => mret (VInt k (wrap k (- a)))
      | VFloat k a => mret (VFloat k (SFopp a))
      | VComplex k ar ai => mret (VComplex k (SFopp ar) (SFopp ai))
      | _ =>
          rt ← Value_Type x;
          match Value_Kind x with
          | KInteger k => mret (set_int x k (- int_of x))
          | KFloat k =>
              mret (retype x (VFloat k (fround k (SFopp (float_of x)))))
          | KComplex k =>
              let '(ar, ai) := complex_of x in
              mret (retype x (VComplex k (fround (cpart k) (SFopp ar))
                                         (fround (cpart k) (SFopp ai))))
          | _ => mret (zero rt)
          end
      end
  | DEREF =>
      match type_of x with
      | None => Throw (hostValueError "reflect.Value.Elem" Invalid)
      | Some _ =>
          match payload x with
          | VPtr _ p =>
              match p ≫= load mem with
              | Some c => mret c
              | None =>
                  Throw (runtimeError
                           "invalid memory address or nil pointer dereference")
              end
          | _ => Throw (hostValueError "reflect.Value.Elem" (Value_Kind x))
          end
      end
  | NOT =>
      match x with
      | VBool b => mret (VBool (negb b))
      | _ =>
          match Value_Kind x with
          | KBool =>
              b ← Value_Bool x;
              if (b : bool) then mret x else mret (retype x (VBool true))
          | _ => invalid_unary_op NOT x
          end
      end
  | COMPLEMENT =>
      match x with
      | VInt k a => mret (VInt k (wrap k (Z.lnot a)))
      | _ =>
          rt ← Value_Type x;
          match Value_Kind x with
          | KInteger k => mret (set_int x k (Z.lnot (int_of (zero rt))))
          | _ => invalid_unary_op COMPLEMENT x
          end
      end
  end.

(** ** widen *)

(** [widen] widens a basic typed value x to the widest type of its
    category, one of: bool, int64, uint64, float64, complex128, string.
    The first arm of the source also returns an [unsafe.Pointer] as it
    is; unsafe pointers are not among the values of [value], so that
    case has no counterpart here, and what is proved of [widen] is
    proved for operands that are no unsafe pointers. *)
Definition widen `{Host} (x : value) : res value :=
  match x with
  | VBool _ | VString _ => Ok x
  | VInt (Int64 | Uint64) _ => Ok x
  | VFloat Float64 _ => Ok x
  | VComplex Complex128 _ _ => Ok x
  | VInt (Int | Int8 | Int16 | Int32) y => Ok (VInt Int64 (wrap Int64 y))
  | VInt (Uint | Uint8 | Uint16 | Uint32 | Uintptr) y =>
      Ok (VInt Uint64 (wrap Uint64 y))
  | VFloat Float32 y => Ok (VFloat Float64 (fround Float64 y))
  | VComplex Complex64 re im =>
      Ok (VComplex Complex128 (fround Float64 re) (fround Float64 im))
  | _ => Throw (hostString ("cannot widen " ++ fmt_T x))
  end.

(** The operands on which the four comparisons are compared below: two
    integers of one predeclared type, or two strings. *)
Inductive ordered_pair : value -> value -> Prop :=
| ordered_ints (k : ikind) (a b : Z) : ordered_pair (VInt k a) (VInt k b)
| ordered_strings (a b : string) : ordered_pair (VString a) (VString b).


(** *** The index table of a compiled function *)

(** The table is well formed when [values] has one slot for every index
    handed out, every index in [valueIndex] is below [valueCount], and no
    two operands have the same index. *)
Definition well_indexed (p : Function) : Prop :=
  length (values p) = valueCount p
  /\ (forall k i, valueIndex p !! k = Some i -> (i < valueCount p)%nat)
  /\ (forall k k' i,
        valueIndex p !! k = Some i -> valueIndex p !! k' = Some i -> k = k').

(** [p'] has the indices of [p], and possibly more. *)
Definition extends (p p' : Function) : Prop :=
  (forall k i, valueIndex p !! k = Some i -> valueIndex p' !! k = Some i)
  /\ (valueCount p <= valueCount p')%nat.

(** A step of the compiler keeps the table well formed and only adds to
    it. *)
Definition keeps_indices {A} (m : C A) : Prop :=
  forall p a p', m p = Ok (a, p') ->
    well_indexed p -> well_indexed p' /\ extends p p'.

(** *** Deferred calls that print or panic *)

(** A deferred call of the built-in print with one string, or of the
    built-in panic with one value. *)
Inductive deferred_action := Prints (x : string) | Panics (v : value).

Definition action_call (a : deferred_action) : deferred :=
  match a with
  | Prints x => print_call x
  | Panics v => {| d_fn := VBuiltin Bpanic; d_args := [v]; d_ssaArgs := [] |}
  end.

(** The strings that a chain prints, in the order of the chain, and the
    value of its last call of panic. *)
Fixpoint printed (acts : list deferred_action) : list string :=
  match acts with
  | [] => []
  | Prints x :: rest => x :: printed rest
  | Panics _ :: rest => printed rest
  end.

Fixpoint last_panic (acts : list deferred_action) : option value :=
  match acts with
  | [] => None
  | Prints _ :: rest => last_panic rest
  | Panics v :: rest =>
      match last_panic rest with
      | Some w => Some w
      | None => Some v
      end
  end.

(** The frame after the chain has run. *)
Definition after_chain (acts : list deferred_action) (fr : frame) : frame :=
  match last_panic acts with
  | Some v => with_panic true (Some (targetPanic v)) fr
  | None => fr
  end.

(** *** A function that returns one of its parameters *)

(** [func f(x1, ..., xn T) T { return x }] *)
Definition projection (T : type) (names : list string) (x : string)
  : ssa_Function :=
  {| Name := "f"; Signature := "func(...T) T"; Results := [T];
     Params := (fun y => Param y T) <$> names; Locals := []; FreeVars := [];
     ssa_Blocks := [ {| Instrs := [Return [Param x T]];
                        Preds := []; Succs := [] |} ];
     ssa_Recover := None |}.

(** The executor that [makeInstr] gives for the return of the operand
    with the index [ir]. *)
Definition Return_reg_executor (ir : nat) : executor :=
  fun E fr =>
    v ← reg fr ir;
    update_frame fr (with_result v);;
    fr' ← the_frame fr;
    update_frame fr (with_block None (prevBlock fr'));;
    mret kReturn.

(** *** The text of print and println *)

(** What print and println write for the argument [arg] at the position
    [i]: [toInterface] when the static type of the operand is an
    interface, [toString] otherwise. *)
Definition rendered (toString toInterface : value -> string)
    (ssaArgs : list ssa_Value) (i : nat) (arg : value) : string :=
  match ssaArgs !! i with
  | Some a =>
      if decide (type_Kind (ssa_Type a) = KInterface)
      then toInterface arg else toString arg
  | None => toString arg
  end.

(** *** Frames that differ in [env] and registers alone *)

Definition same_control (fr fr' : frame) : Prop :=
  caller fr' = caller fr /\ pfn fr' = pfn fr /\ block fr' = block fr
  /\ prevBlock fr' = prevBlock fr /\ defers fr' = defers fr
  /\ result fr' = result fr /\ panicking fr' = panicking fr
  /\ panic fr' = panic fr /\ length (stack fr') = length (stack fr)
  /\ (is_Some (env fr) -> is_Some (env fr')).

(** * Properties *)

Ltac ltb_cases :=
  repeat match goal with
         | |- context [?a <? ?b] => destruct (Z.ltb_spec a b); try lia
         | |- context [?a <=? ?b] => destruct (Z.leb_spec a b); try lia
         end.

(** ** Strings and numerals *)

Lemma append_cons (c : ascii) (s t : string) :
  String c s ++ t = String c (s ++ t).
Proof. reflexivity. Qed.

Lemma append_nil_l (t : string) : "" ++ t = t.
Proof. reflexivity. Qed.

Lemma append_nil_r (s : string) : s ++ "" = s.
Proof.
  induction s as [|c s IH]; [reflexivity|].
  rewrite append_cons. now rewrite IH.
Qed.

Lemma substring_0 (n : nat) (s : string) : String.substring n 0 s = "".
Proof. revert n; induction s as [|c s IH]; intros [|n]; simpl; auto. Qed.











(** ** The monads *)

Lemma M_bind_ok {A B} (m : M A) (f : A -> M B) s a s' :
  m s = Done (Ok a) s' -> (m ≫= f) s = f a s'.
Proof. unfold mbind, M_bind. now intros ->. Qed.

Lemma C_bind_ok {A B} (m : C A) (f : A -> C B) p a p' :
  m p = Ok (a, p') -> (m ≫= f) p = f a p'.
Proof. unfold mbind, C_bind. now intros ->. Qed.

Lemma getIndex_ok (v : ssa_Value) (p : Function) :
  exists i p', getIndex v p = Ok (i, p').
Proof. unfold getIndex. destruct (valueIndex p !! key v); eauto. Qed.

Lemma the_frame_ok (fid : nat) (fr : frame) (s : state) :
  frames s !! fid = Some fr -> the_frame fid s = Done (Ok fr) s.
Proof. unfold the_frame. now intros ->. Qed.

Lemma update_frame_ok (fid : nat) (f : frame -> frame) (fr : frame) (s : state) :
  frames s !! fid = Some fr ->
  update_frame fid f s = Done (Ok ()) (put_frame fid (f fr) s).
Proof. unfold update_frame. now intros ->. Qed.

Lemma lookup_put_frame (fid : nat) (fr fr0 : frame) (s : state) :
  frames s !! fid = Some fr0 -> frames (put_frame fid fr s) !! fid = Some fr.
Proof.
  intros Hfr. unfold put_frame. cbn [frames].
  apply list_lookup_insert_eq. eapply lookup_lt_Some; eassumption.
Qed.

Lemma put_frame_put_frame (fid : nat) (a b : frame) (s : state) :
  put_frame fid a (put_frame fid b s) = put_frame fid a s.
Proof. unfold put_frame. cbn [frames]. now rewrite list_insert_insert_eq. Qed.

(** ** The host *)

Lemma maxMemLen_value `{Host} :
  maxMemLen = match host_arch with Arch32 => 2 ^ 31 - 1 | Arch64 => 2 ^ 59 end.
Proof. unfold maxMemLen, intSize, uint_bits. destruct host_arch; reflexivity. Qed.

Lemma asInt_nil_neq `{Host} (v : value) (n : Z) : asInt v = Ok n -> v <> VNil.
Proof. intros E ->. discriminate E. Qed.

(** ** Binary operators *)

(** C1.  The executors of [+] (and likewise [-] and [<]) assert that both
    operands are plain ints and have no other path: the function
    [func f(x, y T) T { return x + y }] called on two strings, or on two
    int64s, ends in the host panic of the failed assertion [.(int)],
    where the generic kernel [opADD] gives "ab" and 3; on two plain ints
    the executor and the kernel agree. *)
Theorem ADD_executor_asserts_int :
  @call_function Arch64 (binary_function ADD TString)
     [VString "a"; VString "b"] 2
  = Some (Throw (hostRuntimeError
                   "interface conversion: interface {} is string, not int"))
  /\ @opADD Arch64 (VString "a") (VString "b") = Ok (VString "ab")
  /\ @call_function Arch64 (binary_function ADD (TInteger Int64))
       [VInt Int64 1; VInt Int64 2] 2
     = Some (Throw (hostRuntimeError
                      "interface conversion: interface {} is int64, not int"))
  /\ @opADD Arch64 (VInt Int64 1) (VInt Int64 2) = Ok (VInt Int64 3)
  /\ @call_function Arch64 (binary_function ADD (TInteger Int))
       [VInt Int 1; VInt Int 2] 2
     = Some (Ok (VInt Int 3))
  /\ @opADD Arch64 (VInt Int 1) (VInt Int 2) = Ok (VInt Int 3).
Proof.
  split; [vm_compute; reflexivity|].
  split; [vm_compute; reflexivity|].
  split; [vm_compute; reflexivity|].
  split; [vm_compute; reflexivity|].
  split; vm_compute; reflexivity.
Qed.

(** The same holds of [-] and [<]. *)
Lemma SUB_LSS_executors_assert_int :
  @call_function Arch64 (binary_function SUB (TInteger Uint8))
     [VInt Uint8 3; VInt Uint8 1] 2
  = Some (Throw (hostRuntimeError
                   "interface conversion: interface {} is uint8, not int"))
  /\ @opSUB Arch64 (VInt Uint8 3) (VInt Uint8 1) = Ok (VInt Uint8 2)
  /\ @call_function Arch64 (binary_function LSS TString)
       [VString "a"; VString "b"] 2
     = Some (Throw (hostRuntimeError
                      "interface conversion: interface {} is string, not int"))
  /\ @opLSS Arch64 (VString "a") (VString "b") = Ok (VBool true).
Proof.
  split; [vm_compute; reflexivity|].
  split; [vm_compute; reflexivity|].
  split; vm_compute; reflexivity.
Qed.

(** ** recover() *)

(** The claim of C2 fails when the panic value is not of a kind that
    [doRecover] hands over: with the calling frame not panicking, its
    caller panicking with [exitPanic(3)] and [DisableRecover] clear,
    recover() does not return. *)
Lemma doRecover_exitPanic_not_returned :
  (exists fr outer,
     frames (panicking_state (exitPanic 3)) !! 1%nat = Some fr
     /\ panicking fr = false /\ caller fr = Some 0%nat
     /\ frames (panicking_state (exitPanic 3)) !! 0%nat = Some outer
     /\ panicking outer = true /\ panic outer = Some (exitPanic 3))
  /\ DisableRecover recovering = false
  /\ ~ (exists v s',
          doRecover recovering (Some 1%nat) (panicking_state (exitPanic 3))
          = Done (Ok v) s').
Proof.
  split; [do 2 eexists; repeat split|].
  split; [reflexivity|].
  intros (v & s' & E). vm_compute in E. discriminate E.
Qed.

(** C2, amended.  For a call of recover() from an existing frame [c]
    whose caller pointer is valid: when [DisableRecover] is clear, [c] is
    not panicking and its caller exists and is panicking, the caller's
    [panicking] goes from true to false and its [panic] becomes nil, no
    other frame changes, and recover() returns the panic payload: the
    value that a target panic wraps, and the panic value itself when it
    is a [runtime.Error] of the host, a string, a [plainError], a
    [runtimeError] or a [*reflect.ValueError]; for any other panic value
    (an [exitPanic], a nil panic value, another error value) it raises
    the host panic "unexpected panic type T in target call to
    recover()" after the state has been cleared; in every other
    situation recover() returns nil and changes nothing. *)
Theorem doRecover_spec (mode : Mode) (s : state) (c : nat) (fr : frame) :
  frames s !! c = Some fr ->
  (forall cc, caller fr = Some cc -> is_Some (frames s !! cc)) ->
  (forall cc outer,
     DisableRecover mode = false -> panicking fr = false ->
     caller fr = Some cc -> frames s !! cc = Some outer ->
     panicking outer = true ->
     let s' := {| frames := <[cc := with_panic false None outer]> (frames s);
                  i_caller := i_caller s; mem := mem s;
                  output := output s |} in
     let returns v := doRecover mode (Some c) s = Done (Ok v) s' in
     let raises T :=
       doRecover mode (Some c) s
       = Done (Throw (hostString ("unexpected panic type " ++ T
                                    ++ " in target call to recover()"))) s' in
     doRecover mode (Some c) s = Done (recovered (panic outer)) s'
     /\ (panicking <$> frames s' !! cc) = Some false
     /\ (panic <$> frames s' !! cc) = Some None
     /\ (forall i, i <> cc -> frames s' !! i = frames s !! i)
     /\ (passes_through (panic outer) = true ->
         exists v, recovered (panic outer) = Ok v)
     /\ (passes_through (panic outer) = false ->
         exists msg, recovered (panic outer) = Throw (hostString msg))
     /\ (forall v, panic outer = Some (targetPanic v) -> returns v)
     /\ (forall e, panic outer = Some (hostRuntimeError e) ->
         returns (VError ErrHostRuntime e))
     /\ (forall m, panic outer = Some (hostString m) -> returns (VString m))
     /\ (forall e, panic outer = Some (plainError e) ->
         returns (VError ErrPlain e))
     /\ (forall e, panic outer = Some (runtimeError e) ->
         returns (VError ErrRuntime e))
     /\ (forall m k, panic outer = Some (hostValueError m k) ->
         returns (VError ErrValueError (ValueError_Error m k)))
     /\ (forall code, panic outer = Some (exitPanic code) ->
         raises "gossa.exitPanic")
     /\ (panic outer = None -> raises "<nil>")
     /\ (forall T e, panic outer = Some (hostError T e) -> raises T))
  /\ (~ (DisableRecover mode = false /\ panicking fr = false
         /\ exists cc outer, caller fr = Some cc
                             /\ frames s !! cc = Some outer
                             /\ panicking outer = true) ->
      doRecover mode (Some c) s = Done (Ok VNil) s).
Proof.
  intros Hfr Hwf. split.
  - intros cc outer Hm Hp Hc Ho Hpo s' returns raises.
    assert (Hlt : (cc < length (frames s))%nat)
      by (eapply lookup_lt_Some; eassumption).
    assert (Hrun : doRecover mode (Some c) s
                   = Done (recovered (panic outer)) s').
    { cbv [doRecover mbind M_bind the_frame update_frame lift].
      rewrite Hfr, Hm, Hp, Hc. cbn [negb andb]. rewrite Ho, Hpo, Ho.
      reflexivity. }
    split; [exact Hrun|].
    split; [subst s'; cbn [frames]; now rewrite list_lookup_insert_eq|].
    split; [subst s'; cbn [frames]; now rewrite list_lookup_insert_eq|].
    split.
    { intros i Hi. subst s'. cbn [frames].
      now rewrite list_lookup_insert_ne by congruence. }
    split; [destruct (panic outer) as [[]|]; try discriminate; eauto|].
    split; [destruct (panic outer) as [[]|]; try discriminate; eauto|].
    subst returns raises. cbv beta. rewrite Hrun.
    repeat split; intros; match goal with H : panic outer = _ |- _ =>
      rewrite H end; reflexivity.
  - intros Hno.
    cbv [doRecover mbind M_bind the_frame update_frame lift mret M_ret].
    rewrite Hfr.
    destruct (DisableRecover mode) eqn:Hm; [reflexivity|].
    destruct (panicking fr) eqn:Hp; [reflexivity|]. cbn [negb andb].
    destruct (caller fr) as [cc|] eqn:Hc; [|reflexivity].
    destruct (Hwf cc eq_refl) as [outer Ho]. rewrite Ho.
    destruct (panicking outer) eqn:Hpo; [|reflexivity].
    exfalso. apply Hno. eauto 10.
Qed.

(** C2 at a frame whose caller is panicking with the target panic
    "boom": recover() returns "boom". *)
Lemma doRecover_spec_witness :
  exists s',
    doRecover recovering (Some 1%nat)
      (panicking_state (targetPanic (VString "boom")))
    = Done (Ok (VString "boom")) s'.
Proof.
  eexists.
  refine (proj1 (proj1 (doRecover_spec recovering
                   (panicking_state (targetPanic (VString "boom"))) 1%nat
                   {| caller := Some 0%nat; pfn := "g"; block := Some 0%nat;
                      prevBlock := None; env := None; stack := [];
                      defers := []; result := VNil; panicking := false;
                      panic := None |} eq_refl _)
                 0%nat
                 (with_panic true (Some (targetPanic (VString "boom")))
                    (a_frame None []))
                 eq_refl eq_refl eq_refl eq_refl eq_refl)).
  intros cc E. injection E as <-. eexists. reflexivity.
Defined.

(** ** Run *)

(** The claim of C3 fails in the mode [DisableRecover]: the program that
    ends in the target panic "boom" makes [Run] panic with it, and [Run]
    returns no exit code. *)
Lemma Run_DisableRecover_does_not_return :
  @run_main Arch64 crashing main_defer_panic 2
  = Some (Throw (targetPanic (VString "boom")), [])
  /\ ~ (exists err out, @run_main Arch64 crashing main_defer_panic 2
                        = Some (Ok (2, err), out)).
Proof.
  split; [vm_compute; reflexivity|].
  intros (err & out & E). vm_compute in E. discriminate E.
Qed.

(** C3, amended.  [Run(entry)] returns exit code 1 and an error when the
    main package has no function [entry]; exit code 0 and no error when
    the call of [entry] returns; and, when [DisableRecover] is clear,
    exit code 2 and the panic as the error when the call ends in a
    target panic, and the code [c] and no error when it ends in
    [exitPanic(c)].  When [DisableRecover] is set, a panic of the call
    leaves [Run] as a panic. *)
Theorem Run_exit_codes (mode : Mode)
    (toString toInterface : value -> string)
    (prog : gmap string ssa_Function) (funcs : gmap string Function)
    (n : nat) (entry : string) (s : state) :
  let run := Run mode toString toInterface prog funcs n entry s in
  let exec := Interp_call mode toString toInterface prog funcs n None
                (VFunction entry) [] [] s in
  (prog !! entry = None -> exists err, run = Done (Ok (1, Some err)) s)
  /\ (forall v s', is_Some (prog !! entry) -> exec = Done (Ok v) s' ->
        run = Done (Ok (0, None)) s')
  /\ (forall v s', is_Some (prog !! entry) -> DisableRecover mode = false ->
        exec = Done (Throw (targetPanic v)) s' ->
        run = Done (Ok (2, Some (targetPanic v))) s')
  /\ (forall code s', is_Some (prog !! entry) -> DisableRecover mode = false ->
        exec = Done (Throw (exitPanic code)) s' ->
        run = Done (Ok (code, None)) s')
  /\ (forall p s', is_Some (prog !! entry) -> DisableRecover mode = true ->
        exec = Done (Throw p) s' -> run = Done (Throw p) s').
Proof.
  intros run exec. subst run exec. unfold Run.
  split; [intros ->; eauto|].
  split; [|split; [|split]].
  - intros v s' [f ->] ->. reflexivity.
  - intros v s' [f ->] -> ->. reflexivity.
  - intros code s' [f ->] -> ->. reflexivity.
  - intros p s' [f ->] -> ->. reflexivity.
Qed.

(** C3 at the program that panics with "boom" (exit code 2), and at a
    name that the program does not have (exit code 1). *)
Lemma Run_exit_codes_witness :
  (exists s',
     Run recovering example_toString example_toString
       (program_of main_defer_panic)
       (@compiled Arch64 recovering main_defer_panic) 2 "main" initial_state
     = Done (Ok (2, Some (targetPanic (VString "boom")))) s')
  /\ (exists err,
        Run recovering example_toString example_toString
          (program_of main_defer_panic)
          (@compiled Arch64 recovering main_defer_panic) 2 "start"
          initial_state
        = Done (Ok (1, Some err)) initial_state).
Proof.
  split.
  - eexists.
    refine (proj1 (proj2 (proj2
              (Run_exit_codes recovering example_toString
                 example_toString (program_of main_defer_panic)
                 (@compiled Arch64 recovering main_defer_panic) 2 "main"
                 initial_state))) (VString "boom") _ _ eq_refl _).
    + eexists. vm_compute. reflexivity.
    + vm_compute. reflexivity.
  - refine (proj1 (Run_exit_codes recovering example_toString
                     example_toString (program_of main_defer_panic)
                     (@compiled Arch64 recovering main_defer_panic) 2 "start"
                     initial_state) _).
    vm_compute. reflexivity.
Defined.

(** ** Deferred calls *)

(** C4.  The program that defers the prints of A, B and C and then
    panics prints nothing: the panic leaves [runFrame] without the
    deferred calls being run, and [Run] returns exit code 2 with the
    target panic.  The same three deferred prints followed by a normal
    return are run by [RunDefers] as C, B, A. *)
Theorem deferred_calls_skipped_on_panic :
  @run_main Arch64 recovering main_defer_panic 2
  = Some (Ok (2, Some (targetPanic (VString "boom"))), [])
  /\ @run_main Arch64 recovering main_defer_return 2
     = Some (Ok (0, None), ["C"; "B"; "A"]).
Proof. split; vm_compute; reflexivity. Qed.

(** *** LIFO order, for any number of deferred prints *)

Section LIFO.
Context `{Host}.

Lemma makeInstr_defer_print (x : string) (prog : gmap string ssa_Function)
    (p : Function) :
  makeInstr recovering example_toString example_toString prog
    (defer_print x) p
  = Ok (Some (Defer_print_executor x), p).
Proof. reflexivity. Qed.

Lemma compile_defer_prints (l : list string) (rest : list Instruction)
    (prog : gmap string ssa_Function) (p : Function) :
  compile_instrs recovering example_toString example_toString prog
    (map defer_print l ++ rest)%list p
  = match compile_instrs recovering example_toString example_toString prog
            rest p with
    | Ok (es, p') => Ok ((map Defer_print_executor l ++ es)%list, p')
    | Throw e => Throw e
    end.
Proof.
  induction l as [|x l IH]; simpl.
  - destruct (compile_instrs _ _ _ _ rest p) as [[es p']|]; reflexivity.
  - unfold mbind, C_bind. rewrite makeInstr_defer_print, IH.
    destruct (compile_instrs _ _ _ _ rest p) as [[es p']|]; reflexivity.
Qed.

Lemma compile_defer_main (l : list string)
    (prog : gmap string ssa_Function) :
  compile_function recovering example_toString example_toString prog
    (defer_main l)
  = Ok (defer_main_compiled l).
Proof.
  unfold compile_function, defer_main, niladic.
  cbn [Locals Params FreeVars ssa_Blocks ssa_Recover mapM].
  cbv [mbind C_bind mret C_ret res_bind res_ret compile_blocks Instrs Preds
       Succs].
  rewrite compile_defer_prints. reflexivity.
Qed.
End LIFO.

(** Each [Defer] puts its call at the head of the chain. *)
Lemma run_defer_prints (E : engine) (fid : nat) (l : list string)
    (rest : list executor) (s : state) (fr : frame) :
  frames s !! fid = Some fr ->
  run_instrs E fid (map Defer_print_executor l ++ rest)%list s
  = run_instrs E fid rest
      (put_frame fid
         (with_defers (rev (map print_call l) ++ defers fr)%list fr) s).
Proof.
  revert s fr. induction l as [|x l IH]; intros s fr Hfr.
  - simpl. unfold put_frame. destruct fr, s; simpl in *.
    now rewrite list_insert_id.
  - simpl map. simpl app.
    change (run_instrs E fid (Defer_print_executor x :: ?r) s)
      with ((k ← Defer_print_executor x E fid;
             match k with
             | kReturn => mret kReturn
             | kJump => mret kJump
             | kNext => run_instrs E fid r
             end) s).
    assert (Hx : Defer_print_executor x E fid s
                 = Done (Ok kNext)
                     (put_frame fid
                        (with_defers (print_call x :: defers fr) fr) s)).
    { cbv [Defer_print_executor next prepareCall mbind M_bind get mret M_ret
           mapM callee_Value Value Args the_frame update_frame fst snd].
      rewrite Hfr. cbv beta iota. rewrite Hfr. reflexivity. }
    rewrite (M_bind_ok _ _ _ _ _ Hx).
    rewrite (IH _ (with_defers (print_call x :: defers fr) fr)).
    + f_equal. unfold put_frame. cbn [frames i_caller mem output].
      rewrite list_insert_insert_eq. cbn [with_defers defers].
      rewrite <- app_assoc. reflexivity.
    + eapply lookup_put_frame; eassumption.
Qed.

Lemma frames_after_prints (fid : nat) (xs : list string) (s : state) :
  frames (after_prints fid xs s) = frames s.
Proof. now destruct xs. Qed.

Lemma output_after_prints (fid : nat) (xs : list string) (s : state) :
  output (after_prints fid xs s) = (output s ++ xs)%list.
Proof. destruct xs; simpl; [now rewrite app_nil_r | reflexivity]. Qed.

Lemma after_prints_app (fid : nat) (xs ys : list string) (s : state) :
  after_prints fid ys (after_prints fid xs s)
  = after_prints fid (xs ++ ys)%list s.
Proof.
  destruct xs as [|x xs]; [reflexivity|].
  destruct ys as [|y ys]; simpl.
  - now rewrite app_nil_r.
  - now rewrite <- app_assoc.
Qed.

Lemma after_prints_put_frame (fid i : nat) (xs : list string) (fr : frame)
    (s : state) :
  after_prints fid xs (put_frame i fr s) = put_frame i fr (after_prints fid xs s).
Proof. now destruct xs. Qed.

Section Prints.
Variable prog : gmap string ssa_Function.
Variable funcs : gmap string Function.

Lemma call_print (E : engine) (n fid : nat) (x : string) (s : state) :
  call recovering example_toString example_toString prog funcs E n
    (Some fid) (VBuiltin Bprint) [VString x]
    [Const ("lit:" ++ x) TString (VString x)] s
  = Done (Ok VNil) (after_prints fid [x] s).
Proof.
  cbv [call mbind M_bind get_state put_state mret M_ret callBuiltin print
       print_args with_i_caller with_output after_prints].
  simpl. rewrite append_nil_r. reflexivity.
Qed.

(** The chain is run from its head. *)
Lemma run_chain_prints (E E' : engine) (n fid : nat) (xs : list string)
    (s : state) :
  e_call E
  = call recovering example_toString example_toString prog funcs E' n ->
  run_chain E fid (map print_call xs) s
  = Done (Ok ()) (after_prints fid xs s).
Proof.
  intros HE. revert s. induction xs as [|x xs IH]; intros s; [reflexivity|].
  simpl map.
  change (run_chain E fid (print_call x :: ?r))
    with (runDefer E fid (print_call x) ;; run_chain E fid r).
  assert (Hx : runDefer E fid (print_call x) s
               = Done (Ok ()) (after_prints fid [x] s)).
  { unfold runDefer. rewrite HE. cbn [d_fn d_args d_ssaArgs print_call].
    now rewrite call_print. }
  rewrite (M_bind_ok _ _ _ _ _ Hx), IH, after_prints_app. reflexivity.
Qed.

Lemma run_defer_main_frame (l : list string) (n : nat) :
  funcs !! "main" = Some (defer_main_compiled l) ->
  run_to_return funcs
    (engine_at recovering example_toString example_toString prog funcs
       (S (S n)))
    (S (S n)) (S (S n)) 0 (entered l)
  = Done (Ok ()) (returned l).
Proof.
  intros Hfuncs.
  set (E := engine_at recovering example_toString example_toString prog
              funcs (S (S n))).
  assert (HE : e_call E
               = call recovering example_toString example_toString prog
                   funcs
                   (engine_at recovering example_toString example_toString
                      prog funcs (S n)) (S n)) by reflexivity.
  assert (Hfr : the_frame 0 (entered l)
                = Done (Ok (main_frame l)) (entered l)) by reflexivity.
  assert (Hrun : runFrame funcs E (S (S n)) 0 (entered l)
                 = Done (Ok ()) (returned l)).
  { cbn [runFrame]. rewrite (M_bind_ok _ _ _ _ _ Hfr).
    cbn [block pfn main_frame initial_frame MainBlock defer_main_compiled].
    rewrite Hfuncs.
    cbn [mbind option_bind].
    change (Blocks (defer_main_compiled l) !! 0%nat)
      with (Some {| Index := 0;
                    fb_Instrs :=
                      (map Defer_print_executor l
                         ++ [RunDefers_executor; Return_executor])%list;
                    fb_Preds := []; fb_Succs := [] |}).
    cbn [fb_Instrs].
    unfold mbind at 1. unfold M_bind at 1.
    rewrite (run_defer_prints E 0 l _ (entered l) (main_frame l))
      by reflexivity.
    rewrite app_nil_r, <- map_rev.
    set (fr2 := with_defers (map print_call (rev l)) (main_frame l)).
    set (s2 := put_frame 0 fr2 (entered l)).
    set (s3 := after_prints 0 (rev l) s2).
    assert (H2 : frames s2 !! 0%nat = Some fr2) by reflexivity.
    assert (H3 : frames s3 !! 0%nat = Some fr2)
      by (unfold s3; now rewrite frames_after_prints).
    assert (Hchain : run_chain E 0 (defers fr2) s2 = Done (Ok ()) s3)
      by (apply (run_chain_prints _ _ _ _ _ _ HE)).
    assert (Hrd : RunDefers_executor E 0%nat s2
                  = Done (Ok kNext) (put_frame 0%nat (main_frame l) s3)).
    { cbv [RunDefers_executor next runDefers mbind M_bind].
      rewrite (the_frame_ok _ _ _ H2). cbv beta iota.
      rewrite Hchain. cbv beta iota.
      rewrite (update_frame_ok _ _ _ _ H3). cbv beta iota.
      change (with_defers [] fr2) with (main_frame l).
      rewrite (the_frame_ok _ _ _ (lookup_put_frame _ _ _ _ H3)).
      reflexivity. }
    cbn [run_instrs]. rewrite (M_bind_ok _ _ _ _ _ Hrd).
    set (s4 := put_frame 0%nat (main_frame l) s3).
    assert (H4 : frames s4 !! 0%nat = Some (main_frame l))
      by (eapply lookup_put_frame; eassumption).
    assert (Hret : Return_executor E 0%nat s4
                   = Done (Ok kReturn)
                       (put_frame 0%nat
                          (with_block None None (main_frame l)) s4)).
    { cbv [Return_executor mbind M_bind].
      rewrite (the_frame_ok _ _ _ H4). cbv beta iota.
      rewrite (update_frame_ok _ _ _ _ H4). reflexivity. }
    rewrite (M_bind_ok _ _ _ _ _ Hret). cbv beta iota.
    unfold mret, M_ret. f_equal.
    unfold s4, s3, s2, returned.
    now rewrite after_prints_put_frame, !put_frame_put_frame. }
  cbn [run_to_return].
  rewrite (M_bind_ok _ _ _ _ _ Hfr).
  cbn [block main_frame initial_frame MainBlock defer_main_compiled].
  rewrite (M_bind_ok _ _ _ _ _ Hrun).
  assert (Hb : frames (returned l) !! 0%nat
               = Some (with_block None None (main_frame l))).
  { unfold returned. eapply lookup_put_frame.
    rewrite frames_after_prints. reflexivity. }
  rewrite (M_bind_ok _ _ _ _ _ (the_frame_ok _ _ _ Hb)).
  reflexivity.
Qed.
End Prints.

Lemma run_defer_main (l : list string) (n : nat) :
  exists s',
    Interp_call recovering example_toString example_toString
      (program_of (defer_main l)) (<["main" := defer_main_compiled l]> ∅)
      (S (S n)) None (VFunction "main") [] [] initial_state
    = Done (Ok VNil) s'
    /\ output s' = rev l.
Proof.
  set (prog := program_of (defer_main l)).
  set (funcs := <["main" := defer_main_compiled l]> (∅ : gmap string Function)).
  assert (Hprog : prog !! "main" = Some (defer_main l))
    by apply lookup_singleton_eq.
  assert (Hfuncs : funcs !! "main" = Some (defer_main_compiled l))
    by apply lookup_insert_eq.
  unfold Interp_call.
  cbv [call mbind M_bind get_state mret M_ret initial_state i_caller].
  unfold callSSA. rewrite Hprog, Hfuncs.
  cbn [fmap option_fmap option_map defer_main niladic ssa_Blocks Locals Params
       FreeVars place_locals place_args].
  cbv [mbind M_bind new_frame mret M_ret frames length].
  fold (main_frame l).
  match goal with
  | |- context [run_to_return _ _ _ _ _ ?s] => change s with (entered l)
  end.
  rewrite (run_defer_main_frame prog funcs l n Hfuncs).
  assert (Hb : frames (returned l) !! 0%nat
               = Some (with_block None None (main_frame l))).
  { unfold returned. eapply lookup_put_frame.
    rewrite frames_after_prints. reflexivity. }
  rewrite (update_frame_ok _ _ _ _ Hb).
  rewrite (the_frame_ok _ _ _ (lookup_put_frame _ _ _ _ Hb)).
  rewrite (update_frame_ok _ _ _ _ (lookup_put_frame _ _ _ _ Hb)).
  eexists. split; [reflexivity|].
  unfold put_frame, returned. cbn [output put_frame].
  rewrite output_after_prints. reflexivity.
Qed.

(** X1.  The deferred calls of a frame are run by [RunDefers] in LIFO
    order: the program that defers the prints of [l] in this order and
    returns prints [l] reversed, with exit code 0, as soon as two nested
    calls are allowed. *)
Theorem deferred_prints_run_LIFO `{Host} (l : list string) (n : nat) :
  (2 <= n)%nat ->
  run_main recovering (defer_main l) n = Some (Ok (0, None), rev l).
Proof.
  intros Hn. destruct n as [|[|n]]; try lia.
  unfold run_main.
  change (compile_all recovering example_toString example_toString
            (program_of (defer_main l)) [defer_main l])
    with (p ← compile_function recovering example_toString example_toString
                (program_of (defer_main l)) (defer_main l);
          Ok (<[ "main" := p ]> (∅ : gmap string Function))).
  rewrite compile_defer_main. cbn [mbind res_bind].
  unfold Run.
  replace (program_of (defer_main l) !! "main") with (Some (defer_main l))
    by (symmetry; apply lookup_singleton_eq).
  destruct (run_defer_main l n) as (s' & -> & Hout).
  now rewrite Hout.
Qed.

(** ** Slices *)

(** C5.  Two-index slicing of a string [s] (an operand that is no
    [*ssa.Alloc]) with the indices [l] and [h] returns the substring from
    [l] to [h] exactly when [0 <= l <= h <= len(s)] and raises a
    [runtimeError] otherwise; "hello"[0:3] is "hel", and "hello"[10:11]
    raises the [runtimeError] whose text is
    "slice bounds out of range [:11] with length 5". *)
Theorem slice_string_two_index `{Host} (mem : store) (s : string)
    (lo hi : value) (l h : Z) :
  asInt lo = Ok l -> asInt hi = Ok h ->
  let len := Z.of_nat (String.length s) in
  (0 <= l <= h /\ h <= len ->
     slice mem false (VString s) lo hi VNil
     = Ok (VString (String.substring (Z.to_nat l) (Z.to_nat (h - l)) s)))
  /\ (~ (0 <= l <= h /\ h <= len) ->
     exists msg, slice mem false (VString s) lo hi VNil
                 = Throw (runtimeError msg))
  /\ slice mem false (VString "hello") (VInt Int 0) (VInt Int 3) VNil
     = Ok (VString "hel")
  /\ slice mem false (VString "hello") (VInt Int 10) (VInt Int 11) VNil
     = Throw (runtimeError "slice bounds out of range [:11] with length 5").
Proof.
  intros Hlo Hhi len.
  assert (Hl : lo <> VNil) by eauto using asInt_nil_neq.
  assert (Hh : hi <> VNil) by eauto using asInt_nil_neq.
  assert (Hs : forall r, slice mem false (VString s) lo hi VNil = r <->
     (_ ← slice_bounds false false KString l h len len;
      if l =? h then Value_Slice (VString s) 0 0
      else Value_Slice (VString s) l h) = r).
  { intros r. unfold slice. simpl.
    destruct lo; try congruence; destruct hi; try congruence;
      rewrite Hlo, Hhi; simpl; reflexivity. }
  split; [|split; [|split; reflexivity]].
  - intros [[H0 H1] H2]. apply Hs. unfold slice_bounds.
    destruct (Z.eqb_spec l h) as [->|Hne]; unfold Value_Slice; simpl;
      fold len; ltb_cases; simpl.
    + rewrite !Z.sub_diag. change (Z.to_nat 0) with 0%nat.
      now rewrite !substring_0.
    + reflexivity.
  - intros Hbad. unfold slice_bounds in Hs.
    destruct (Z.ltb_spec h 0).
    { eexists. apply Hs. reflexivity. }
    destruct (Z.ltb_spec len h).
    { eexists. apply Hs. simpl. reflexivity. }
    destruct (Z.ltb_spec l 0).
    { eexists. apply Hs. reflexivity. }
    destruct (Z.ltb_spec h l).
    { eexists. apply Hs. reflexivity. }
    lia.
Qed.

(** C5 at "hello"[1:4]. *)
Lemma slice_string_two_index_witness :
  @asInt Arch64 (VInt Int 1) = Ok 1 /\ @asInt Arch64 (VInt Int 4) = Ok 4
  /\ (0 <= 1 <= 4 /\ 4 <= 5)
  /\ @slice Arch64 [] false (VString "hello") (VInt Int 1) (VInt Int 4) VNil
     = Ok (VString "ell").
Proof.
  split; [reflexivity|]. split; [reflexivity|].
  assert (Hb : 0 <= 1 <= 4 /\ 4 <= 5) by lia.
  split; [exact Hb|].
  exact (proj1 (@slice_string_two_index Arch64 [] "hello"
                  (VInt Int 1) (VInt Int 4) 1 4 eq_refl eq_refl) Hb).
Defined.

(** [slice] on a slice, and on a pointer to an array. *)
Lemma slice_on_slice `{Host} (mem : store) (e : type) (base : option pointer)
    (off len cap : Z) (lo hi max : value) :
  slice mem false (VSlice e base off len cap) lo hi max
  = (l ← match lo with VNil => mret 0 | _ => asInt lo end;
     h ← match hi with VNil => mret len | _ => asInt hi end;
     m ← match max with VNil => mret cap | _ => asInt max end;
     _ ← slice_bounds false (match max with VNil => false | _ => true end)
           KSlice l h m cap;
     Value_Slice3 (VSlice e base off len cap) None l h m).
Proof. reflexivity. Qed.

Lemma slice_on_array_pointer `{Host} (mem : store) (ms : bool) (t e : type)
    (p : pointer) (elems : list value) (lo hi max : value) :
  load mem p = Some (VArray e elems) ->
  let n := Z.of_nat (length elems) in
  slice mem ms (VPtr t (Some p)) lo hi max
  = (l ← match lo with VNil => mret 0 | _ => asInt lo end;
     h ← match hi with VNil => mret n | _ => asInt hi end;
     m ← match max with VNil => mret n | _ => asInt max end;
     _ ← slice_bounds ms (match max with VNil => false | _ => true end)
           KArray l h m n;
     Value_Slice3 (VArray e elems) (Some p) l h m).
Proof.
  intros Hp n. unfold slice.
  change (Value_Kind (VPtr t (Some p))) with KPtr.
  destruct (decide (KPtr = KPtr)); [|congruence].
  unfold Elem. cbn [payload]. rewrite Hp. reflexivity.
Qed.




(** ** Shifts *)

(** The claim of C7 fails when the count is not an [*ssa.Convert]: the
    shift [x << y] of two int parameters with [y = -1] ends in the host
    panic of [asUint64], a string and no [runtimeError]. *)
Lemma shift_count_not_converted :
  @execute Arch64
    (BinOp "t0" (TInteger Int) SHL (int_param "x") (int_param "y")) shift_state
  = Some (Done (Throw (hostString "cannot convert int to uint64")) shift_state)
  /\ hostString "cannot convert int to uint64"
     <> runtimeError "negative shift amount".
Proof. split; [vm_compute; reflexivity | discriminate]. Qed.

(** C7, amended.  For a shift instruction ([<<] or [>>]) whose count is
    an [*ssa.Convert] of an operand of a signed integer kind ([int] to
    [int64]), every execution in which that operand is negative fails
    with [runtimeError("negative shift amount")].  The kernel takes the
    count through [asUint64], which gives the count of a predeclared
    unsigned integer type as a uint64 and ends in a host panic for a
    count of a signed type. *)
Theorem shift_negative_count `{Host} (Op : token) (id : string) (T : type)
    (X : ssa_Value) (cid : string) (cT : type) (cX : ssa_Value)
    (E : engine) (fid : nat) (s : state) (v : value) (n : Z) (pfn : Function) :
  Op = SHL \/ Op = SHR ->
  Kind_code (KInteger Int) <= Kind_code (type_Kind (ssa_Type cX))
    <= Kind_code (KInteger Int64) ->
  get fid (Some cX) s = Done (Ok v) s -> Value_Int v = Ok n -> n < 0 ->
  (exists e pfn',
     BinOp_executor id T Op X (Convert cid cT cX) pfn = Ok (e, pfn')
     /\ e E fid s = Done (Throw (runtimeError "negative shift amount")) s)
  /\ (forall k m, ik_signed k = false -> 0 <= m < 2 ^ ik_bits k ->
        asUint64 (VInt k m) = Ok m /\ 0 <= m < 2 ^ 64)
  /\ (forall k m, ik_signed k = true ->
        asUint64 (VInt k m)
        = Throw (hostString ("cannot convert " ++ ikind_name k ++ " to uint64"))).
Proof.
  intros HOp [Hlo Hhi] Hget Hint Hneg. split; [|split].
  - unfold BinOp_executor.
    destruct (getIndex_ok (Instr id T) pfn) as (i & p1 & E1).
    destruct (getIndex_ok X p1) as (ix & p2 & E2).
    destruct (getIndex_ok (Convert cid cT cX) p2) as (iy & p3 & E3).
    rewrite (C_bind_ok _ _ _ _ _ E1), (C_bind_ok _ _ _ _ _ E2),
      (C_bind_ok _ _ _ _ _ E3).
    assert (Hk : (Kind_code (KInteger Int)
                    <=? Kind_code (type_Kind (ssa_Type cX)))
                 && (Kind_code (type_Kind (ssa_Type cX))
                       <=? Kind_code (KInteger Int64))
                 = true).
    { apply andb_true_iff; split; apply Z.leb_le; assumption. }
    destruct HOp as [-> | ->]; eexists _, _; (split; [reflexivity|]);
      unfold shift_executor; rewrite Hk;
      cbv [next mbind M_bind lift throw]; rewrite Hget, Hint;
      destruct (Z.ltb_spec n 0); try lia; reflexivity.
  - intros k m Hk Hm.
    assert (Hb : 2 ^ ik_bits k <= 2 ^ 64).
    { apply Z.pow_le_mono_r; [lia|].
      destruct k; unfold ik_bits, intSize, uint_bits;
        destruct host_arch; vm_compute; discriminate. }
    assert (Hw : wrap Uint64 m = m).
    { unfold wrap, wrap_unsigned. simpl. apply Z.mod_small. lia. }
    split; [|lia].
    destruct k; try discriminate Hk; unfold asUint64; rewrite ?Hw; reflexivity.
  - intros k m Hk. destruct k; try discriminate Hk; reflexivity.
Qed.

(** C7 at [x << uint64(y)] with [y = -1]. *)
Lemma shift_negative_count_witness :
  exists e pfn',
    @BinOp_executor Arch64 "t0" (TInteger Int) SHL (int_param "x")
      (Convert "t1" (TInteger Uint64) (int_param "y"))
      (empty_Function (niladic "f" []))
    = Ok (e, pfn')
    /\ e no_engine 0%nat shift_state
       = Done (Throw (runtimeError "negative shift amount")) shift_state.
Proof.
  refine (proj1 (@shift_negative_count Arch64 SHL "t0" (TInteger Int)
                   (int_param "x") "t1" (TInteger Uint64) (int_param "y")
                   no_engine 0%nat shift_state (VInt Int (-1)) (-1)
                   (empty_Function (niladic "f" []))
                   (or_introl eq_refl) _ _ eq_refl _)).
  - vm_compute. split; discriminate.
  - vm_compute. reflexivity.
  - lia.
Defined.

(** ** Type assertions *)

(** C8.  A type assertion on a nil interface value: the form without
    comma-ok panics with a [plainError], which is no [runtime.Error],
    whose message is "interface conversion: interface is nil, not T";
    the comma-ok form returns the zero value of [T] and false. *)
Theorem typeAssert_nil
    (AssignableTo : type -> type -> bool) (Convert : value -> type -> value)
    (findType : type -> option type)
    (MissingMethod : type -> type -> option string) (Parent : type -> nat)
    (X_Type T : type) :
  let err := plainError ("interface conversion: interface is nil, not "
                           ++ type_String T) in
  typeAssert AssignableTo Convert findType MissingMethod Parent X_Type T
    false VNil
  = Throw err
  /\ is_runtime_Error err = false
  /\ typeAssert AssignableTo Convert findType MissingMethod Parent X_Type T
       true VNil
     = Ok (VTuple [zero T; VBool false]).
Proof. intros err. split; [reflexivity|]. split; reflexivity. Qed.

(** The failures of an assertion on a value that is not nil are
    [runtimeError]s. *)
Lemma conversion_error_is_runtime_Error
    (findType : type -> option type)
    (MissingMethod : type -> type -> option string) (Parent : type -> nat)
    (X_Type T rt : type) :
  is_runtime_Error (conversion_error findType MissingMethod Parent X_Type T rt)
  = true.
Proof.
  unfold conversion_error.
  repeat (case_match; try reflexivity).
Qed.

(** ** MakeSlice *)

(** The two tests of the executor are [>= maxMemLen]: on a 64-bit host
    a request with [len = 0] and [cap = maxMemLen] is refused. *)
Lemma MakeSlice_cap_maxMemLen_rejected :
  let s := a_state (a_frame (Some ∅) []) in
  0 <= 0 <= @maxMemLen Arch64 /\ @maxMemLen Arch64 <= @maxMemLen Arch64 /\
  @MakeSlice_executor Arch64 "t0" (TSlice (TInteger Int))
     (int_const "len" 0) (int_const "cap" (@maxMemLen Arch64)) no_engine 0%nat s
  = Done (Throw (runtimeError "makeslice: cap out of range")) s.
Proof. vm_compute. intuition congruence. Qed.

(** C9.  [maxMemLen] is 2^31-1 on a 32-bit host and 2^59 otherwise.
    With [len] and [cap] the length and the capacity of a MakeSlice as
    [asInt] converts them to int: a length that is negative or at least
    [maxMemLen] raises the [runtimeError] "makeslice: len out of range";
    otherwise a capacity that is negative or at least [maxMemLen] raises
    "makeslice: cap out of range".  The executor does not compare the
    length with the capacity: a length above the capacity reaches the
    host's [reflect.MakeSlice] and ends in its panic
    "reflect.MakeSlice: len > cap", a string and no [runtime.Error],
    whereas the checks of [slice] for an [*ssa.Alloc] raise the
    [runtimeError] "makeslice: cap out of range" for a length above the
    capacity.  A request with [0 <= len <= cap < maxMemLen] for a slice
    type succeeds when the host's allocator accepts an array of [cap]
    elements (the result is a slice of that length and capacity over a
    fresh array), and ends in the allocator's run-time panic when it
    does not. *)
Theorem MakeSlice_checks `{Host} (id : string) (T : type)
    (Len Cap : ssa_Value) (E : engine) (fid : nat) (s : state)
    (lv cv : value) (len cap : Z) :
  get fid (Some Len) s = Done (Ok lv) s -> asInt lv = Ok len ->
  get fid (Some Cap) s = Done (Ok cv) s -> asInt cv = Ok cap ->
  maxMemLen = match host_arch with Arch32 => 2 ^ 31 - 1 | Arch64 => 2 ^ 59 end
  /\ (len < 0 \/ maxMemLen <= len ->
      MakeSlice_executor id T Len Cap E fid s
      = Done (Throw (runtimeError "makeslice: len out of range")) s)
  /\ (0 <= len < maxMemLen -> cap < 0 \/ maxMemLen <= cap ->
      MakeSlice_executor id T Len Cap E fid s
      = Done (Throw (runtimeError "makeslice: cap out of range")) s)
  /\ (0 <= cap < len -> len < maxMemLen ->
      forall e, Underlying T = TSlice e ->
        MakeSlice_executor id T Len Cap E fid s
        = Done (Throw (hostString "reflect.MakeSlice: len > cap")) s
        /\ is_runtime_Error (hostString "reflect.MakeSlice: len > cap")
           = false
        /\ forall slice3 kind l Cap',
             slice_bounds true slice3 kind l len cap Cap'
             = Throw (runtimeError "makeslice: cap out of range"))
  /\ (0 <= len <= cap -> cap < maxMemLen ->
      forall e fr vars,
        Underlying T = TSlice e ->
        frames s !! fid = Some fr -> env fr = Some vars ->
        e_allocates E e cap = true ->
        let p := Pointer (length (mem s)) [] in
        let made := of_type T (VSlice e (Some p) 0 len cap) in
        MakeSlice_executor id T Len Cap E fid s
        = Done (Ok kNext)
            {| frames := <[fid := with_env (Some (<[id := made]> vars)) fr]>
                           (frames s);
               i_caller := i_caller s;
               mem := (mem s ++ [VArray e (repeat (zero e) (Z.to_nat cap))])%list;
               output := output s |})
  /\ (0 <= len <= cap -> cap < maxMemLen ->
      forall e, Underlying T = TSlice e -> e_allocates E e cap = false ->
        MakeSlice_executor id T Len Cap E fid s
        = Done (Throw allocation_refused) s
        /\ is_runtime_Error allocation_refused = true).
Proof.
  intros Hl Hlen Hc Hcap. split; [apply maxMemLen_value|].
  cbv [MakeSlice_executor next mbind M_bind lift throw].
  rewrite Hl, Hlen.
  split; [|split; [|split; [|split]]].
  - intros Hbad. ltb_cases; reflexivity.
  - intros Hgood Hbad.
    ltb_cases; cbn [orb]; rewrite Hc, Hcap; ltb_cases; reflexivity.
  - intros Hlc Hlt e HT.
    split; [|split; [reflexivity|]].
    + ltb_cases; cbn [orb]. rewrite Hc, Hcap. ltb_cases; cbn [orb].
      unfold reflect_MakeSlice. rewrite HT. ltb_cases. reflexivity.
    + intros slice3 kind l Cap'. unfold slice_bounds. ltb_cases; reflexivity.
  - intros Hgood Hlt e fr vars HT Hfr Henv Hal.
    ltb_cases; cbn [orb]. rewrite Hc, Hcap. ltb_cases; cbn [orb].
    unfold reflect_MakeSlice. rewrite HT.
    ltb_cases. rewrite Hal.
    cbv [mbind M_bind alloc setEnv the_frame update_frame mret M_ret].
    simpl. rewrite Hfr. simpl. rewrite Henv. simpl. rewrite Hfr. reflexivity.
  - intros Hgood Hlt e HT Hal. split; [|reflexivity].
    ltb_cases; cbn [orb]. rewrite Hc, Hcap. ltb_cases; cbn [orb].
    unfold reflect_MakeSlice. rewrite HT.
    ltb_cases. rewrite Hal. reflexivity.
Qed.

(** C9 at a MakeSlice of [[]int] whose operands hold the length 3 and
    the capacity 2, on a 64-bit host: the request ends in the host panic
    of [reflect.MakeSlice]. *)
Lemma MakeSlice_checks_witness :
  let s := a_state (a_frame (Some ∅) []) in
  @MakeSlice_executor Arch64 "t0" (TSlice (TInteger Int))
    (int_const "len" 3) (int_const "cap" 2) no_engine 0%nat s
  = Done (Throw (hostString "reflect.MakeSlice: len > cap")) s.
Proof.
  intros s.
  refine (proj1 (proj1 (proj2 (proj2 (proj2
            (@MakeSlice_checks Arch64 "t0" (TSlice (TInteger Int))
               (int_const "len" 3) (int_const "cap" 2) no_engine 0%nat
               s (VInt Int 3) (VInt Int 2) 3 2
               eq_refl eq_refl eq_refl eq_refl)))) _ _
            (TInteger Int) eq_refl)).
  - lia.
  - vm_compute. reflexivity.
Defined.

(** ** Stores to blank fields *)

(** C10.  The store [*t1 = 7] through the address [t1 = &t0._] of the
    blank field gets no executor when the type of [t0] is a pointer to
    the struct type [struct { _ int; x int }] itself, and running the
    function then changes nothing and ends normally; when the struct
    type is the defined type [main.T] with that underlying type, the
    store gets an executor, and running it ends in a host panic. *)
Theorem Store_blank_field_of_named_struct :
  @has_executor Arch64 (store_blank blank_struct) = false
  /\ @has_executor Arch64 (store_blank (TNamed "main.T" blank_struct)) = true
  /\ @run_main Arch64 recovering (main_store_blank blank_struct) 2
     = Some (Ok (0, None), [])
  /\ @run_main Arch64 recovering
       (main_store_blank (TNamed "main.T" blank_struct)) 2
     = Some (Ok (2, Some (hostError "*errors.errorString"
               ("unexpected type: *reflect.ValueError: "
                  ++ "reflect: call of reflect.Value.Elem on zero Value"))),
             []).
Proof.
  split; [vm_compute; reflexivity|]. split; [vm_compute; reflexivity|].
  split; vm_compute; reflexivity.
Qed.

(** A store through the address of a field named "_" of a struct type
    that is no defined type is compiled to no executor, and the function
    being compiled is left as it was. *)
Lemma Store_blank_field_no_executor `{Host} (id : string) (T : type)
    (aX : ssa_Value) (Field : nat) (fs : list (string * type)) (ft : type) (Val : ssa_Value)
    (pfn : Function) :
  ssa_Type aX = TPointer (TStruct fs) -> fs !! Field = Some ("_", ft) ->
  Store_executor (FieldAddr id T aX Field) Val pfn = Ok (None, pfn).
Proof.
  intros HT Hf. unfold Store_executor. rewrite HT, Hf. reflexivity.
Qed.

(** * Further properties *)

(** ** The deferred calls of a frame *)

(** X1 at the deferred prints of A and B, with two nested calls. *)
Lemma deferred_prints_run_LIFO_witness :
  @run_main Arch64 recovering (defer_main ["A"; "B"]) 2
  = Some (Ok (0, None), rev ["A"; "B"]).
Proof. apply (@deferred_prints_run_LIFO Arch64 ["A"; "B"] 2). lia. Defined.

(** ** Type assertions on values that are not nil *)

Lemma typeAssert_typed
    (AssignableTo : type -> type -> bool) (Convert : value -> type -> value)
    (findType : type -> option type)
    (MissingMethod : type -> type -> option string) (Parent : type -> nat)
    (X_Type T : type) (CommaOk : bool) (iv : value) (rt : type) :
  type_of iv = Some rt ->
  typeAssert AssignableTo Convert findType MissingMethod Parent X_Type T
    CommaOk iv
  = if type_eqb T rt
    then Ok (if CommaOk then VTuple [iv; VBool true] else iv)
    else if AssignableTo rt T
    then Ok (if CommaOk then VTuple [Convert iv T; VBool true]
             else Convert iv T)
    else if CommaOk then Ok (VTuple [zero T; VBool false])
    else Throw (conversion_error findType MissingMethod Parent X_Type T rt).
Proof.
  intros Hrt. unfold typeAssert, Value_Type.
  destruct iv; try discriminate Hrt; rewrite Hrt;
    cbn [mbind res_bind mret res_ret];
    destruct (type_eqb T rt), (AssignableTo rt T), CommaOk; reflexivity.
Qed.

(** X2.  For a value [iv] that is not nil, of dynamic type [rt]: the
    comma-ok form of a type assertion returns [(v, true)] exactly when the
    plain form returns [v]; when the plain form panics, the comma-ok form
    returns the zero value of the asserted type and false, the panic is a
    [runtimeError] and [rt] is not assignable to the asserted type; an
    assertion to the dynamic type itself returns [iv] unchanged, and one
    to another type to which [rt] is assignable returns the converted
    value. *)
Theorem typeAssert_comma_ok
    (AssignableTo : type -> type -> bool) (Convert : value -> type -> value)
    (findType : type -> option type)
    (MissingMethod : type -> type -> option string) (Parent : type -> nat)
    (X_Type T : type) (iv : value) (rt : type) :
  type_of iv = Some rt ->
  let assertion :=
    typeAssert AssignableTo Convert findType MissingMethod Parent X_Type T in
  (forall v, assertion false iv = Ok v
             <-> assertion true iv = Ok (VTuple [v; VBool true]))
  /\ (forall e, assertion false iv = Throw e ->
        assertion true iv = Ok (VTuple [zero T; VBool false])
        /\ is_runtime_Error e = true /\ AssignableTo rt T = false)
  /\ (type_eqb T rt = true -> assertion false iv = Ok iv)
  /\ (type_eqb T rt = false -> AssignableTo rt T = true ->
      assertion false iv = Ok (Convert iv T)).
Proof.
  intros Hrt assertion. subst assertion. cbv beta.
  rewrite !(typeAssert_typed _ _ _ _ _ _ _ _ _ _ Hrt).
  destruct (type_eqb T rt), (AssignableTo rt T);
    (split; [intros v; split; congruence|]);
    (split; [intros e He; try discriminate He;
             injection He as <-; repeat split;
             apply conversion_error_is_runtime_Error|]);
    split; congruence.
Qed.

(** X2 at the assertion [x.(string)] on an int, with a host to which no
    type is assignable to another. *)
Lemma typeAssert_comma_ok_witness :
  typeAssert (fun _ _ => false) (fun v _ => v) (fun _ => None)
    (fun _ _ => None) (fun _ => 0%nat) (TInterface []) TString true
    (VInt Int 7)
  = Ok (VTuple [VString ""; VBool false]).
Proof.
  refine (proj1 (proj1 (proj2 (typeAssert_comma_ok
            (fun _ _ => false) (fun v _ => v) (fun _ => None)
            (fun _ _ => None) (fun _ => 0%nat) (TInterface []) TString
            (VInt Int 7) (TInteger Int) eq_refl)) _ eq_refl)).
Defined.

(** ** Slices of slices and of arrays *)

Lemma slice_two_index `{Host} (mem : store) (e : type) (base : option pointer)
    (off len cap : Z) (lo hi : value) (l h : Z) :
  asInt lo = Ok l -> asInt hi = Ok h -> 0 <= l <= h -> h <= cap ->
  slice mem false (VSlice e base off len cap) lo hi VNil
  = Ok (VSlice e base (off + l) (h - l) (cap - l)).
Proof.
  intros Hlo Hhi Hl Hh.
  assert (Hl' : lo <> VNil) by eauto using asInt_nil_neq.
  assert (Hh' : hi <> VNil) by eauto using asInt_nil_neq.
  rewrite slice_on_slice.
  replace (match lo with VNil => mret 0 | _ => asInt lo end) with (Ok (A:=Z) l)
    by (destruct lo; congruence).
  replace (match hi with VNil => mret len | _ => asInt hi end) with (Ok (A:=Z) h)
    by (destruct hi; congruence).
  cbn [mbind res_bind mret res_ret]. unfold slice_bounds, Value_Slice3.
  cbn [payload]. cbn iota.
  ltb_cases. cbn. ltb_cases. reflexivity.
Qed.

(** X3.  A two-index slice expression on a slice is bounded by the
    capacity of the slice and not by its length: with
    [0 <= lo <= hi <= cap] the result shares the array, starts [lo]
    elements later, and has the length [hi - lo] and the capacity
    [cap - lo]; an omitted [lo] is 0 and an omitted [hi] is the length;
    an [hi] above the capacity raises the [runtimeError] that names the
    capacity. *)
Theorem reslice `{Host} (mem : store) (e : type) (base : option pointer)
    (off len cap : Z) (lo hi : value) (l h : Z) :
  asInt lo = Ok l -> asInt hi = Ok h ->
  let x := VSlice e base off len cap in
  (0 <= l <= h -> h <= cap ->
     slice mem false x lo hi VNil
     = Ok (VSlice e base (off + l) (h - l) (cap - l)))
  /\ (0 <= l <= len -> len <= cap ->
     slice mem false x lo VNil VNil
     = Ok (VSlice e base (off + l) (len - l) (cap - l)))
  /\ (0 <= h <= cap ->
     slice mem false x VNil hi VNil = Ok (VSlice e base off h cap))
  /\ (0 <= cap -> cap < h ->
     slice mem false x lo hi VNil
     = Throw (out_of_range
                ("[:" ++ pretty h ++ "] with capacity " ++ pretty cap))).
Proof.
  intros Hlo Hhi x. subst x.
  split; [intros; now apply slice_two_index|].
  assert (Hl : lo <> VNil) by eauto using asInt_nil_neq.
  assert (Hh : hi <> VNil) by eauto using asInt_nil_neq.
  rewrite !slice_on_slice.
  replace (match lo with VNil => mret 0 | _ => asInt lo end) with (Ok (A:=Z) l)
    by (destruct lo; congruence).
  replace (match hi with VNil => mret len | _ => asInt hi end) with (Ok (A:=Z) h)
    by (destruct hi; congruence).
  cbn [mbind res_bind mret res_ret]. unfold slice_bounds, Value_Slice3.
  cbn [payload]. cbn iota.
  split; [|split].
  - intros. ltb_cases. cbn. ltb_cases. reflexivity.
  - intros. ltb_cases. cbn. ltb_cases.
    rewrite Z.add_0_r, !Z.sub_0_r. reflexivity.
  - intros. ltb_cases; reflexivity.
Qed.

(** X3 at [a_slice[1:5]]: the slice of length 3 and capacity 5 is
    extended to its capacity. *)
Lemma reslice_witness :
  @slice Arch64 [five_ints] false a_slice (VInt Int 1) (VInt Int 5) VNil
  = Ok (VSlice (TInteger Int) (Some (Pointer 0 [])) (0 + 1) (5 - 1) (5 - 1)).
Proof.
  refine (proj1 (@reslice Arch64 [five_ints] (TInteger Int)
                   (Some (Pointer 0 [])) 0 3 5 (VInt Int 1) (VInt Int 5) 1 5
                   eq_refl eq_refl) _ _); lia.
Defined.

(** X4.  Slicing composes: the slice [x[a:b][c:d]] is the slice
    [x[a+c:a+d]], whenever [0 <= a <= b <= cap(x)] and
    [0 <= c <= d <= cap(x) - a]. *)
Theorem slice_slice `{Host} (mem : store) (e : type) (base : option pointer)
    (off len cap a b c d : Z) :
  0 <= a <= b -> b <= cap -> 0 <= c <= d -> d <= cap - a ->
  exists y,
    slice mem false (VSlice e base off len cap) (VInt Int a) (VInt Int b) VNil
    = Ok y
    /\ slice mem false y (VInt Int c) (VInt Int d) VNil
       = slice mem false (VSlice e base off len cap)
           (VInt Int (a + c)) (VInt Int (a + d)) VNil
    /\ slice mem false y (VInt Int c) (VInt Int d) VNil
       = Ok (VSlice e base (off + a + c) (d - c) (cap - a - c)).
Proof.
  intros Ha Hb Hc Hd.
  pose proof (slice_two_index mem e base off len cap
                (VInt Int a) (VInt Int b) a b eq_refl eq_refl) as H1.
  pose proof (slice_two_index mem e base (off + a) (b - a) (cap - a)
                (VInt Int c) (VInt Int d) c d eq_refl eq_refl) as H2.
  pose proof (slice_two_index mem e base off len cap
                (VInt Int (a + c)) (VInt Int (a + d)) (a + c) (a + d)
                eq_refl eq_refl) as H3.
  eexists. split; [apply H1; lia|].
  rewrite H2, H3 by lia. split; do 2 f_equal; lia.
Qed.

(** X4 at [a_slice[1:3][1:4]]. *)
Lemma slice_slice_witness :
  exists y,
    @slice Arch64 [five_ints] false a_slice (VInt Int 1) (VInt Int 3) VNil
    = Ok y
    /\ @slice Arch64 [five_ints] false y (VInt Int 1) (VInt Int 4) VNil
       = @slice Arch64 [five_ints] false a_slice
           (VInt Int (1 + 1)) (VInt Int (1 + 4)) VNil
    /\ @slice Arch64 [five_ints] false y (VInt Int 1) (VInt Int 4) VNil
       = Ok (VSlice (TInteger Int) (Some (Pointer 0 []))
               (0 + 1 + 1) (4 - 1) (5 - 1 - 1)).
Proof.
  apply (@slice_slice Arch64 [five_ints] (TInteger Int) (Some (Pointer 0 []))
           0 3 5 1 3 1 4); lia.
Defined.

(** X5.  Slicing a pointer to an array of [n] elements gives a slice
    over that array: [x[lo:hi]] with [0 <= lo <= hi <= n] starts at the
    element [lo] and has the length [hi - lo] and the capacity [n - lo].
    When the sliced operand is an [*ssa.Alloc] (the form that [make]
    with constant sizes compiles to), [x[:hi]] with [0 <= hi <= n] is the
    slice of length [hi] and capacity [n], a negative [hi] raises
    "makeslice: len out of range" and an [hi] above [n] raises
    "makeslice: cap out of range".  Slicing a nil pointer without bounds
    ends in the host panic "slice: unexpected X type", a string. *)
Theorem slice_array_pointer `{Host} (mem : store) (t e : type) (p : pointer)
    (elems : list value) (lo hi : value) (l h : Z) :
  load mem p = Some (VArray e elems) ->
  asInt lo = Ok l -> asInt hi = Ok h ->
  let n := Z.of_nat (length elems) in
  let x := VPtr t (Some p) in
  (0 <= l <= h -> h <= n ->
     slice mem false x lo hi VNil = Ok (VSlice e (Some p) l (h - l) (n - l)))
  /\ (0 <= h <= n ->
     slice mem true x VNil hi VNil = Ok (VSlice e (Some p) 0 h n))
  /\ (h < 0 ->
     slice mem true x VNil hi VNil
     = Throw (runtimeError "makeslice: len out of range"))
  /\ (n < h ->
     slice mem true x VNil hi VNil
     = Throw (runtimeError "makeslice: cap out of range"))
  /\ (forall ms,
       slice mem ms (VPtr t None) VNil VNil VNil
       = Throw (hostString ("slice: unexpected X type: *" ++ type_String t))).
Proof.
  intros Hp Hlo Hhi n x. subst x.
  assert (Hl : lo <> VNil) by eauto using asInt_nil_neq.
  assert (Hh : hi <> VNil) by eauto using asInt_nil_neq.
  rewrite !(slice_on_array_pointer _ _ _ _ _ _ _ _ _ Hp). fold n.
  replace (match lo with VNil => mret 0 | _ => asInt lo end) with (Ok (A:=Z) l)
    by (destruct lo; congruence).
  replace (match hi with VNil => mret n | _ => asInt hi end) with (Ok (A:=Z) h)
    by (destruct hi; congruence).
  cbn [mbind res_bind mret res_ret]. unfold slice_bounds, Value_Slice3.
  cbn [payload]. cbn iota. fold n.
  split; [|split; [|split; [|split]]].
  - intros. ltb_cases. cbn. ltb_cases. reflexivity.
  - intros. ltb_cases. cbn. ltb_cases. rewrite !Z.sub_0_r. reflexivity.
  - intros. ltb_cases; reflexivity.
  - intros. ltb_cases; reflexivity.
  - intros []; reflexivity.
Qed.

(** X5 at [(&five_ints)[1:4]]. *)
Lemma slice_array_pointer_witness :
  @slice Arch64 [five_ints] false
    (VPtr (TArray 5 (TInteger Int)) (Some (Pointer 0 [])))
    (VInt Int 1) (VInt Int 4) VNil
  = Ok (VSlice (TInteger Int) (Some (Pointer 0 [])) 1 (4 - 1)
          (Z.of_nat (length (repeat (VInt Int 0) 5)) - 1)).
Proof.
  refine (proj1 (@slice_array_pointer Arch64 [five_ints]
                   (TArray 5 (TInteger Int)) (TInteger Int) (Pointer 0 [])
                   (repeat (VInt Int 0) 5) (VInt Int 1) (VInt Int 4) 1 4
                   eq_refl eq_refl eq_refl) _ _).
  - lia.
  - vm_compute. discriminate.
Defined.

(** ** Wrap-around arithmetic *)

Lemma ik_bits_cases `{Host} (k : ikind) :
  ik_bits k = 8 \/ ik_bits k = 16 \/ ik_bits k = 32 \/ ik_bits k = 64.
Proof.
  destruct k; unfold ik_bits, intSize, uint_bits; destruct host_arch;
    vm_compute; tauto.
Qed.

Lemma ik_bits_pos `{Host} (k : ikind) : 0 < ik_bits k <= 64.
Proof. destruct (ik_bits_cases k) as [->|[->|[->| ->]]]; lia. Qed.

Lemma wrap_signed_mod (w n : Z) :
  0 < w -> wrap_signed w n mod 2 ^ w = n mod 2 ^ w.
Proof.
  intros Hw. unfold wrap_signed.
  rewrite Zminus_mod_idemp_l. f_equal. lia.
Qed.

Lemma wrap_mod `{Host} (k : ikind) (n : Z) :
  wrap k n mod 2 ^ ik_bits k = n mod 2 ^ ik_bits k.
Proof.
  pose proof (ik_bits_pos k). unfold wrap. destruct (ik_signed k).
  - apply wrap_signed_mod. lia.
  - unfold wrap_unsigned. apply Z.mod_mod. apply Z.pow_nonzero; lia.
Qed.

Lemma wrap_congr `{Host} (k : ikind) (a b : Z) :
  a mod 2 ^ ik_bits k = b mod 2 ^ ik_bits k -> wrap k a = wrap k b.
Proof.
  intros E. unfold wrap, wrap_signed, wrap_unsigned.
  destruct (ik_signed k); [|exact E].
  f_equal. rewrite (Z.add_mod a), (Z.add_mod b), E; try reflexivity;
    apply Z.pow_nonzero; pose proof (ik_bits_pos k); lia.
Qed.

Lemma wrap_wrap `{Host} (k : ikind) (n : Z) : wrap k (wrap k n) = wrap k n.
Proof. apply wrap_congr, wrap_mod. Qed.

Lemma wrap_range `{Host} (k : ikind) (n : Z) :
  if ik_signed k
  then - 2 ^ (ik_bits k - 1) <= wrap k n < 2 ^ (ik_bits k - 1)
  else 0 <= wrap k n < 2 ^ ik_bits k.
Proof.
  pose proof (ik_bits_pos k) as Hw. unfold wrap, wrap_signed, wrap_unsigned.
  assert (Hp : 0 < 2 ^ ik_bits k) by (apply Z.pow_pos_nonneg; lia).
  assert (Hh : 2 ^ ik_bits k = 2 * 2 ^ (ik_bits k - 1)).
  { rewrite <- Z.pow_succ_r by lia. f_equal. lia. }
  destruct (ik_signed k).
  - pose proof (Z.mod_pos_bound (n + 2 ^ (ik_bits k - 1)) _ Hp). lia.
  - apply Z.mod_pos_bound, Hp.
Qed.

Lemma wrap_small `{Host} (k : ikind) (n : Z) :
  (if ik_signed k
   then - 2 ^ (ik_bits k - 1) <= n < 2 ^ (ik_bits k - 1)
   else 0 <= n < 2 ^ ik_bits k) ->
  wrap k n = n.
Proof.
  pose proof (ik_bits_pos k) as Hw. unfold wrap, wrap_signed, wrap_unsigned.
  assert (Hh : 2 ^ ik_bits k = 2 * 2 ^ (ik_bits k - 1)).
  { rewrite <- Z.pow_succ_r by lia. f_equal. lia. }
  destruct (ik_signed k); intros Hn.
  - rewrite Z.mod_small by lia. lia.
  - apply Z.mod_small, Hn.
Qed.

Lemma wrap_add_l `{Host} (k : ikind) (a b : Z) :
  wrap k (wrap k a + b) = wrap k (a + b).
Proof.
  apply wrap_congr. pose proof (ik_bits_pos k).
  rewrite Z.add_mod, wrap_mod, <- Z.add_mod; try reflexivity;
    apply Z.pow_nonzero; lia.
Qed.

Lemma wrap_sub_l `{Host} (k : ikind) (a b : Z) :
  wrap k (wrap k a - b) = wrap k (a - b).
Proof.
  apply wrap_congr. rewrite <- Zminus_mod_idemp_l, wrap_mod.
  now rewrite Zminus_mod_idemp_l.
Qed.

Lemma wide_bits `{Host} (k : ikind) : ik_bits (wide k) = 64.
Proof. unfold wide. destruct (ik_signed k); reflexivity. Qed.

Lemma wrap_wide `{Host} (k : ikind) (n : Z) : wrap k (wrap (wide k) n) = wrap k n.
Proof.
  apply wrap_congr. pose proof (ik_bits_pos k) as Hw.
  assert (Hd : (2 ^ ik_bits k | 2 ^ 64)).
  { exists (2 ^ (64 - ik_bits k)). rewrite <- Z.pow_add_r by lia. f_equal. lia. }
  rewrite <- (Z.mod_mod_divide (wrap (wide k) n) _ _ Hd).
  rewrite <- (Z.mod_mod_divide n _ _ Hd). f_equal.
  pose proof (wrap_mod (wide k) n) as E. now rewrite wide_bits in E.
Qed.

Lemma assert_int_same (k : ikind) (b : Z) : assert_int k (VInt k b) = Ok b.
Proof. unfold assert_int. now rewrite decide_True. Qed.

Lemma wrap_valid_range `{Host} (k : ikind) (a : Z) :
  wrap k a = a ->
  if ik_signed k
  then - 2 ^ (ik_bits k - 1) <= a < 2 ^ (ik_bits k - 1)
  else 0 <= a < 2 ^ ik_bits k.
Proof. intros E. pose proof (wrap_range k a) as Hr. now rewrite E in Hr. Qed.

Lemma wrap_0 `{Host} (k : ikind) : wrap k 0 = 0.
Proof.
  apply wrap_small. pose proof (ik_bits_pos k).
  assert (0 < 2 ^ (ik_bits k - 1)) by (apply Z.pow_pos_nonneg; lia).
  assert (0 < 2 ^ ik_bits k) by (apply Z.pow_pos_nonneg; lia).
  destruct (ik_signed k); lia.
Qed.

(** X6.  On two integers of one predeclared type, [+] wraps around, is
    commutative, gives a value of the type, and is undone by [-]:
    [(a + b) - b] is [a], overflow included. *)
Theorem opADD_opSUB_inverse `{Host} (k : ikind) (a b : Z) :
  wrap k a = a ->
  exists c,
    opADD (VInt k a) (VInt k b) = Ok (VInt k c)
    /\ opADD (VInt k b) (VInt k a) = Ok (VInt k c)
    /\ wrap k c = c
    /\ opSUB (VInt k c) (VInt k b) = Ok (VInt k a).
Proof.
  intros Ha. exists (wrap k (a + b)). unfold opADD, opSUB.
  rewrite !assert_int_same. cbn [mbind res_bind mret res_ret].
  split; [reflexivity|]. split; [now rewrite Z.add_comm|].
  split; [apply wrap_wrap|].
  rewrite wrap_sub_l. do 2 f_equal. rewrite <- Ha at 2. f_equal. lia.
Qed.

(** X6 at [int8(127) + int8(1)], which wraps to -128, and back. *)
Lemma opADD_opSUB_inverse_witness :
  exists c,
    @opADD Arch64 (VInt Int8 127) (VInt Int8 1) = Ok (VInt Int8 c)
    /\ @opADD Arch64 (VInt Int8 1) (VInt Int8 127) = Ok (VInt Int8 c)
    /\ @wrap Arch64 Int8 c = c
    /\ @opSUB Arch64 (VInt Int8 c) (VInt Int8 1) = Ok (VInt Int8 127).
Proof. apply (@opADD_opSUB_inverse Arch64 Int8 127 1). reflexivity. Defined.

(** X7.  When the left operand of [+] or [-] is of a defined integer
    type, the right operand may be any value of the same kind: the
    result is computed with the same wrap-around and has the dynamic
    type of the left operand.  When the left operand is of the
    predeclared type and the right operand of a defined one, the
    operation ends in the host panic of a failed type assertion. *)
Theorem opADD_defined_type `{Host} (name : string) (k : ikind) (a : Z) (y : value) :
  Value_Kind y = KInteger k ->
  opADD (VNamed name (VInt k a)) y
  = Ok (VNamed name (VInt k (wrap k (a + int_of y))))
  /\ opSUB (VNamed name (VInt k a)) y
     = Ok (VNamed name (VInt k (wrap k (a - int_of y))))
  /\ (forall b, y = VInt k b ->
        opADD y (VNamed name (VInt k a))
        = Throw (assertion_failure (VNamed name (VInt k a)) (ikind_name k))).
Proof.
  intros Hy. unfold opADD, opSUB.
  change (Value_Kind (VNamed name (VInt k a))) with (KInteger k).
  rewrite Hy, !decide_True by reflexivity.
  cbn [Value_Type type_of mbind res_bind mret res_ret].
  unfold set_int. cbn [retype int_of payload].
  fold (wide k). rewrite !wrap_wide.
  split; [reflexivity|]. split; [reflexivity|].
  intros b ->. reflexivity.
Qed.

(** X7 at [main.Celsius(100) + int8(100)]. *)
Lemma opADD_defined_type_witness :
  @opADD Arch64 (VNamed "main.Celsius" (VInt Int8 100)) (VInt Int8 100)
  = Ok (VNamed "main.Celsius"
          (VInt Int8 (@wrap Arch64 Int8 (100 + int_of (VInt Int8 100))))).
Proof.
  apply (@opADD_defined_type Arch64 "main.Celsius" Int8 100 (VInt Int8 100)).
  reflexivity.
Defined.

Lemma asUint64_unsigned `{Host} (k : ikind) (y : Z) :
  ik_signed k = false -> 0 <= y < 2 ^ ik_bits k -> asUint64 (VInt k y) = Ok y.
Proof.
  intros Hk Hy. pose proof (ik_bits_pos k) as Hw.
  assert (Hb : 2 ^ ik_bits k <= 2 ^ 64) by (apply Z.pow_le_mono_r; lia).
  assert (Hm : wrap Uint64 y = y).
  { apply (wrap_small Uint64). cbn. lia. }
  destruct k; try discriminate Hk; unfold asUint64; rewrite ?Hm; reflexivity.
Qed.

(** X8.  With a count [y] of a predeclared unsigned type, [x << y] is
    [x * 2^y] wrapped to the type of [x], for every count (also one that
    is not below the width of [x]); and [x >> y] is the floor of
    [x / 2^y], a value of the type of [x]. *)
Theorem shifts_are_powers_of_two `{Host} (k ck : ikind) (a y : Z) :
  ik_signed ck = false -> 0 <= y < 2 ^ ik_bits ck ->
  opSHL (VInt k a) (VInt ck y) = Ok (VInt k (wrap k (a * 2 ^ y)))
  /\ (wrap k a = a ->
      opSHR (VInt k a) (VInt ck y) = Ok (VInt k (a / 2 ^ y))
      /\ wrap k (a / 2 ^ y) = a / 2 ^ y).
Proof.
  intros Hck Hy. pose proof (ik_bits_pos k) as Hw.
  unfold opSHL, opSHR. rewrite (asUint64_unsigned _ _ Hck Hy).
  cbn [mbind res_bind mret res_ret]. unfold shl, shr.
  assert (Hp : 0 < 2 ^ ik_bits k) by (apply Z.pow_pos_nonneg; lia).
  assert (Hy2 : 0 < 2 ^ y) by (apply Z.pow_pos_nonneg; lia).
  split.
  - destruct (Z.leb_spec (ik_bits k) y) as [Hge|Hlt].
    + do 2 f_equal. symmetry.
      rewrite <- (wrap_small k 0) at 1.
      * apply wrap_congr. rewrite Z.mod_0_l by lia.
        replace y with (ik_bits k + (y - ik_bits k)) by lia.
        rewrite Z.pow_add_r by lia.
        rewrite Z.mul_assoc, (Z.mul_comm a), <- Z.mul_assoc.
        rewrite Z.mul_comm. apply Z.mod_mul. lia.
      * assert (0 < 2 ^ (ik_bits k - 1)) by (apply Z.pow_pos_nonneg; lia).
        destruct (ik_signed k); lia.
    + now rewrite Z.shiftl_mul_pow2 by lia.
  - intros Ha. pose proof (wrap_range k a) as Hr. rewrite Ha in Hr.
    assert (Hh : 2 ^ ik_bits k = 2 * 2 ^ (ik_bits k - 1)).
    { rewrite <- Z.pow_succ_r by lia. f_equal. lia. }
    assert (Hq : a / 2 ^ y = if ik_bits k <=? y
                             then (if a <? 0 then -1 else 0)
                             else Z.shiftr a y).
    { destruct (Z.leb_spec (ik_bits k) y) as [Hge|Hlt];
        [|now rewrite Z.shiftr_div_pow2 by lia].
      assert (Hle : 2 ^ ik_bits k <= 2 ^ y) by (apply Z.pow_le_mono_r; lia).
      destruct (Z.ltb_spec a 0).
      - assert (Hb : - 2 ^ y <= a < 0) by (destruct (ik_signed k); lia).
        symmetry. apply Z.div_unique with (r := a + 2 ^ y); lia.
      - apply Z.div_small. destruct (ik_signed k); lia. }
    rewrite <- Hq. split; [reflexivity|].
    apply wrap_small.
    assert (Hd : (0 <= a -> 0 <= a / 2 ^ y <= a)
                 /\ (a < 0 -> a <= a / 2 ^ y < 0)).
    { split; intros Hs; split.
      - apply Z.div_pos; lia.
      - apply Z.div_le_upper_bound; nia.
      - apply Z.div_le_lower_bound; nia.
      - apply Z.div_lt_upper_bound; lia. }
    destruct (ik_signed k); lia.
Qed.

(** X8 at [int8(-3) << uint(70)] and [int8(-3) >> uint(70)]. *)
Lemma shifts_are_powers_of_two_witness :
  @opSHL Arch64 (VInt Int8 (-3)) (VInt Uint 70)
  = Ok (VInt Int8 (@wrap Arch64 Int8 (-3 * 2 ^ 70)))
  /\ @opSHR Arch64 (VInt Int8 (-3)) (VInt Uint 70)
     = Ok (VInt Int8 (-3 / 2 ^ 70)).
Proof.
  destruct (@shifts_are_powers_of_two Arch64 Int8 Uint (-3) 70 eq_refl)
    as [Hl Hr].
  - vm_compute. split; [discriminate | reflexivity].
  - split; [exact Hl|]. apply Hr. reflexivity.
Defined.

(** X9.  A count or an index of a defined integer type: [asInt]
    converts it (through its kind), [asUint64] refuses it, whatever its
    kind and value, so that a shift by a count of a defined unsigned
    type ends in the host panic "cannot convert T to uint64". *)
Theorem defined_type_conversions `{Host} (name : string) (k : ikind) (n : Z)
    (x : value) :
  let y := VNamed name (VInt k n) in
  let refused := hostString ("cannot convert " ++ name ++ " to uint64") in
  asInt y = Ok (wrap Int n)
  /\ asUint64 y = Throw refused
  /\ opSHL x y = Throw refused
  /\ opSHR x y = Throw refused.
Proof.
  intros y refused. subst y refused.
  assert (Hu : asUint64 (VNamed name (VInt k n))
               = Throw (hostString ("cannot convert " ++ name ++ " to uint64"))).
  { destruct k; reflexivity. }
  unfold opSHL, opSHR. rewrite Hu.
  split; [destruct k; reflexivity|]. repeat split.
Qed.

(** ** Division and remainder *)

Section Division.
Context `{Host}.
Variables cmul cquo :
  ckind -> spec_float * spec_float -> spec_float * spec_float
  -> spec_float * spec_float.

(** X10.  Integer division and remainder by zero end in the host's
    run-time panic "integer divide by zero", a [runtime.Error], for every
    integer kind, whether the operands are of a predeclared type or of a
    defined one; no result is produced. *)
Theorem integer_division_by_zero (k : ikind) (a : Z) (name : string)
    (y : value) :
  opQuo cquo (VInt k a) (VInt k 0) = Throw divide_error
  /\ opREM (VInt k a) (VInt k 0) = Throw divide_error
  /\ is_runtime_Error divide_error = true
  /\ (Value_Kind y = KInteger k -> int_of y = 0 ->
      opQuo cquo (VNamed name (VInt k a)) y = Throw divide_error
      /\ opREM (VNamed name (VInt k a)) y = Throw divide_error).
Proof.
  unfold opQuo, opREM, integer_op. rewrite !assert_int_same.
  split; [reflexivity|]. split; [reflexivity|]. split; [reflexivity|].
  intros Hy H0.
  change (Value_Kind (VNamed name (VInt k a))) with (KInteger k).
  rewrite Hy, !decide_True by reflexivity.
  cbn [Value_Type type_of mbind res_bind]. rewrite H0. split; reflexivity.
Qed.

(** X11.  For two integers [a] and [b <> 0] of one predeclared type,
    [a / b] and [a % b] are the quotient truncated toward zero and its
    remainder: [(a / b) * b + a % b] is [a] (computed with [opMUL] and
    [opADD]), the remainder is smaller than the divisor in absolute
    value and has the sign of the dividend, and the quotient is the
    mathematical one except for the most negative value divided by -1,
    which gives the most negative value again. *)
Theorem quotient_remainder (k : ikind) (a b : Z) :
  wrap k a = a -> wrap k b = b -> b <> 0 ->
  exists q r p,
    opQuo cquo (VInt k a) (VInt k b) = Ok (VInt k q)
    /\ opREM (VInt k a) (VInt k b) = Ok (VInt k r)
    /\ opMUL cmul (VInt k q) (VInt k b) = Ok (VInt k p)
    /\ opADD (VInt k p) (VInt k r) = Ok (VInt k a)
    /\ Z.abs r < Z.abs b /\ 0 <= r * a
    /\ (q = Z.quot a b \/ (a = - 2 ^ (ik_bits k - 1) /\ b = -1 /\ q = a)).
Proof.
  intros Ha Hb Hb0. pose proof (ik_bits_pos k) as Hw.
  exists (wrap k (Z.quot a b)), (Z.rem a b), (wrap k (wrap k (Z.quot a b) * b)).
  unfold opQuo, opREM, integer_op, opMUL, opADD, int_quo, int_rem.
  rewrite !assert_int_same. cbn [mbind res_bind mret res_ret].
  destruct (Z.eqb_spec b 0) as [|_]; [contradiction|].
  cbn [mbind res_bind mret res_ret].
  pose proof (Z.rem_bound_abs a b Hb0) as Hrb.
  pose proof (Z.rem_sign_mul a b Hb0) as Hrs.
  pose proof (Z.quot_rem a b Hb0) as Hqr.
  pose proof (wrap_valid_range k a Ha) as Hra.
  pose proof (wrap_valid_range k b Hb) as Hrb'.
  assert (Hrem : wrap k (Z.rem a b) = Z.rem a b).
  { apply wrap_small.
    assert (Z.abs (Z.rem a b) <= Z.abs a).
    { destruct (Z.eq_dec a 0) as [->|Hn]; [rewrite Z.rem_0_l by lia; lia|].
      pose proof (Z.rem_abs a b Hb0).
      destruct (Z.lt_ge_cases (Z.abs a) (Z.abs b)).
      - rewrite <- H0. rewrite Z.rem_small; lia.
      - lia. }
    assert (0 <= Z.rem a b * a) by lia.
    destruct (ik_signed k); nia. }
  split; [reflexivity|]. split; [now rewrite Hrem|].
  split; [reflexivity|].
  split.
  { rewrite wrap_add_l. do 2 f_equal.
    transitivity (wrap k a); [|exact Ha].
    apply wrap_congr.
    assert (Hnz : 2 ^ ik_bits k <> 0) by (apply Z.pow_nonzero; lia).
    rewrite Z.add_mod, (Z.mul_mod (wrap k _)), wrap_mod, <- Z.mul_mod,
      <- Z.add_mod by assumption.
    f_equal. lia. }
  split; [lia|]. split; [lia|].
  destruct (Z.eq_dec (wrap k (Z.quot a b)) (Z.quot a b)) as [E|E]; [now left|].
  right.
  assert (Hq : Z.abs (Z.quot a b) <= Z.abs a).
  { pose proof (Z.quot_abs a b Hb0) as Hqa.
    rewrite <- Hqa.
    apply Z.quot_le_upper_bound; nia. }
  assert (Hbad : ~ (if ik_signed k
                   then - 2 ^ (ik_bits k - 1) <= Z.quot a b < 2 ^ (ik_bits k - 1)
                   else 0 <= Z.quot a b < 2 ^ ik_bits k)).
  { intros Hin. apply E, wrap_small, Hin. }
  assert (Hp : 0 < 2 ^ (ik_bits k - 1)) by (apply Z.pow_pos_nonneg; lia).
  destruct (ik_signed k) eqn:Hs.
  - assert (Hqv : Z.quot a b = 2 ^ (ik_bits k - 1)) by lia.
    assert (Haa : a = - 2 ^ (ik_bits k - 1)) by lia.
    assert (Hbb : b = -1) by nia.
    repeat split; try assumption.
    rewrite Hqv. unfold wrap, wrap_signed. rewrite Hs.
    replace (2 ^ (ik_bits k - 1) + 2 ^ (ik_bits k - 1)) with (2 ^ ik_bits k).
    + rewrite Z.mod_same by lia. lia.
    + replace (ik_bits k) with (Z.succ (ik_bits k - 1)) at 1 by lia.
      rewrite Z.pow_succ_r by lia. lia.
  - exfalso. apply Hbad.
    assert (0 <= Z.quot a b) by (apply Z.quot_pos; lia). lia.
Qed.
End Division.

(** X10 at the defined type [main.I] over uint8. *)
Lemma integer_division_by_zero_witness :
  @opQuo Arch64 (fun _ a _ => a) (VNamed "main.I" (VInt Uint8 7))
    (VNamed "main.I" (VInt Uint8 0))
  = Throw divide_error
  /\ @opREM Arch64 (VNamed "main.I" (VInt Uint8 7))
       (VNamed "main.I" (VInt Uint8 0))
     = Throw divide_error.
Proof.
  apply (proj2 (proj2 (proj2
           (@integer_division_by_zero Arch64 (fun _ a _ => a) Uint8 7
              "main.I" (VNamed "main.I" (VInt Uint8 0)))))); reflexivity.
Defined.

(** X11 at [int8(-7) / int8(2)] and [int8(-7) % int8(2)]. *)
Lemma quotient_remainder_witness :
  exists q r p,
    @opQuo Arch64 (fun _ a _ => a) (VInt Int8 (-7)) (VInt Int8 2)
    = Ok (VInt Int8 q)
    /\ @opREM Arch64 (VInt Int8 (-7)) (VInt Int8 2) = Ok (VInt Int8 r)
    /\ @opMUL Arch64 (fun _ a _ => a) (VInt Int8 q) (VInt Int8 2)
       = Ok (VInt Int8 p)
    /\ @opADD Arch64 (VInt Int8 p) (VInt Int8 r) = Ok (VInt Int8 (-7))
    /\ Z.abs r < Z.abs 2 /\ 0 <= r * -7
    /\ (q = Z.quot (-7) 2
        \/ (-7 = - 2 ^ (@ik_bits Arch64 Int8 - 1) /\ 2 = -1 /\ q = -7)).
Proof.
  apply (@quotient_remainder Arch64 (fun _ a _ => a) (fun _ a _ => a)
           Int8 (-7) 2); [reflexivity | reflexivity | lia].
Defined.

(** ** Bitwise operators *)

Lemma wrap_land_r `{Host} (k : ikind) (a b : Z) :
  wrap k (Z.land a (wrap k b)) = wrap k (Z.land a b).
Proof.
  apply wrap_congr. pose proof (ik_bits_pos k) as Hw.
  rewrite <- !Z.land_ones by lia. rewrite <- !Z.land_assoc.
  rewrite !Z.land_ones by lia. now rewrite wrap_mod.
Qed.

Lemma integer_op_int `{Host} (sym : string) (f : Z -> Z -> Z) (k : ikind)
    (a b : Z) :
  integer_op sym (fun a b => Ok (f a b)) (VInt k a) (VInt k b)
  = Ok (VInt k (wrap k (f a b))).
Proof. unfold integer_op. now rewrite assert_int_same. Qed.

Lemma wrap_lor `{Host} (k : ikind) (a b : Z) :
  wrap k (Z.lor (wrap k a) (wrap k b)) = wrap k (Z.lor a b).
Proof.
  apply wrap_congr. pose proof (ik_bits_pos k) as Hw.
  rewrite <- !Z.land_ones by lia. rewrite !Z.land_lor_distr_l.
  rewrite !Z.land_ones by lia. now rewrite !wrap_mod.
Qed.

Lemma wrap_lnot `{Host} (k : ikind) (a : Z) :
  wrap k (Z.lnot (wrap k a)) = wrap k (Z.lnot a).
Proof.
  unfold Z.lnot. rewrite <- !Z.sub_1_r.
  apply wrap_congr. pose proof (ik_bits_pos k) as Hw.
  rewrite <- (Zminus_mod_idemp_l (- wrap k a)), <- (Zminus_mod_idemp_l (- a)).
  f_equal. f_equal.
  rewrite <- (Z.sub_0_l (wrap k a)), <- (Z.sub_0_l a).
  rewrite <- (Zminus_mod_idemp_r 0 (wrap k a)), wrap_mod.
  now rewrite Zminus_mod_idemp_r.
Qed.

(** X12.  On integers of one predeclared type: [a &^ b] is
    [a & ^b]; [^(a & b)] is [^a | ^b]; [a ^ a] is 0; and the complement
    of the complement of a value of the type is the value. *)
Theorem bitwise_identities `{Host} (mem : store) (k : ikind) (a b : Z) :
  opANDNOT (VInt k a) (VInt k b)
  = (nb ← unop mem COMPLEMENT (VInt k b); opAND (VInt k a) nb)
  /\ (n ← opAND (VInt k a) (VInt k b); unop mem COMPLEMENT n)
     = (na ← unop mem COMPLEMENT (VInt k a);
        nb ← unop mem COMPLEMENT (VInt k b); opOR na nb)
  /\ opXOR (VInt k a) (VInt k a) = Ok (VInt k 0)
  /\ (wrap k a = a ->
      (na ← unop mem COMPLEMENT (VInt k a); unop mem COMPLEMENT na)
      = Ok (VInt k a)).
Proof.
  unfold opANDNOT, opAND, opOR, opXOR, unop.
  cbn [mbind res_bind mret res_ret]. rewrite !integer_op_int.
  cbn [mbind res_bind mret res_ret].
  split; [|split; [|split]].
  - now rewrite wrap_land_r, Z.ldiff_land.
  - now rewrite wrap_lnot, wrap_lor, Z.lnot_land.
  - now rewrite Z.lxor_nilpotent, wrap_0.
  - intros Ha. now rewrite wrap_lnot, Z.lnot_involutive, Ha.
Qed.

(** X12 at [uint8(200)]. *)
Lemma bitwise_identities_witness :
  (na ← @unop Arch64 [] COMPLEMENT (VInt Uint8 200);
   @unop Arch64 [] COMPLEMENT na)
  = Ok (VInt Uint8 200).
Proof.
  apply (proj2 (proj2 (proj2
           (@bitwise_identities Arch64 [] Uint8 200 0)))).
  reflexivity.
Defined.

(** X13.  The complement of a value of a defined integer type does not
    depend on the value: it is the value of that type with all bits set
    (the source complements the fresh zero value and not the operand),
    so two different values have the same complement.  The complement of
    a value of a predeclared type is the bitwise complement. *)
Theorem complement_defined_type `{Host} (mem : store) (name : string)
    (k : ikind) (a b : Z) :
  unop mem COMPLEMENT (VNamed name (VInt k a))
  = Ok (VNamed name (VInt k (wrap k (-1))))
  /\ unop mem COMPLEMENT (VNamed name (VInt k a))
     = unop mem COMPLEMENT (VNamed name (VInt k b))
  /\ unop mem COMPLEMENT (VInt k a) = Ok (VInt k (wrap k (Z.lnot a))).
Proof.
  unfold unop.
  change (Value_Kind (VNamed name (VInt k a))) with (KInteger k).
  change (Value_Kind (VNamed name (VInt k b))) with (KInteger k).
  cbn [Value_Type type_of mbind res_bind mret res_ret zero int_of payload].
  unfold set_int. cbn [retype]. fold (wide k). rewrite !wrap_wide.
  repeat split.
Qed.

(** ** Unary operators *)

(** X14.  Logical negation of a [bool] is [negb], and an involution.
    On a value of a defined boolean type the result is always true (of
    that type): the source returns the operand itself when it is
    true. *)
Theorem logical_negation `{Host} (mem : store) (name : string) (b : bool) :
  unop mem NOT (VBool b) = Ok (VBool (negb b))
  /\ (nb ← unop mem NOT (VBool b); unop mem NOT nb) = Ok (VBool b)
  /\ unop mem NOT (VNamed name (VBool b)) = Ok (VNamed name (VBool true)).
Proof.
  split; [reflexivity|]. split; [destruct b; reflexivity|].
  destruct b; reflexivity.
Qed.

(** X15.  The negation of an integer [a] of a predeclared type is a
    value [n] of the type whose negation is [a] again, with [a + n = 0]
    and [0 - a = n]; [n] is [-a] except for the most negative value of a
    signed type, which is its own negation, and for the unsigned
    types. *)
Theorem negation `{Host} (mem : store) (k : ikind) (a : Z) :
  wrap k a = a ->
  exists n,
    unop mem NEG (VInt k a) = Ok (VInt k n)
    /\ wrap k n = n
    /\ unop mem NEG (VInt k n) = Ok (VInt k a)
    /\ opADD (VInt k a) (VInt k n) = Ok (VInt k 0)
    /\ opSUB (VInt k 0) (VInt k a) = Ok (VInt k n)
    /\ (n = - a \/ (a = - 2 ^ (ik_bits k - 1) /\ n = a) \/ ik_signed k = false).
Proof.
  intros Ha. exists (wrap k (- a)). pose proof (ik_bits_pos k) as Hw.
  unfold unop, opADD, opSUB. rewrite !assert_int_same.
  cbn [mbind res_bind mret res_ret].
  assert (Hnz : 2 ^ ik_bits k <> 0) by (apply Z.pow_nonzero; lia).
  split; [reflexivity|]. split; [apply wrap_wrap|].
  split.
  { do 2 f_equal. transitivity (wrap k a); [|exact Ha].
    apply wrap_congr.
    rewrite <- (Z.sub_0_l (wrap k _)), <- Zminus_mod_idemp_r, wrap_mod,
      Zminus_mod_idemp_r. f_equal. lia. }
  split.
  { do 2 f_equal. transitivity (wrap k 0); [|apply wrap_0]. apply wrap_congr.
    rewrite Z.add_mod, wrap_mod, <- Z.add_mod by assumption. f_equal. lia. }
  split; [reflexivity|].
  pose proof (wrap_valid_range k a Ha) as Hr.
  destruct (ik_signed k) eqn:Hs; [|now right; right].
  destruct (Z.eq_dec a (- 2 ^ (ik_bits k - 1))) as [E|E].
  - right; left. split; [exact E|].
    unfold wrap, wrap_signed. rewrite Hs, E, Z.opp_involutive.
    replace (2 ^ (ik_bits k - 1) + 2 ^ (ik_bits k - 1)) with (2 ^ ik_bits k).
    + rewrite Z.mod_same by lia. lia.
    + replace (ik_bits k) with (Z.succ (ik_bits k - 1)) at 1 by lia.
      rewrite Z.pow_succ_r by lia. lia.
  - left. apply wrap_small. rewrite Hs. lia.
Qed.

(** X15 at [-int8(-128)]. *)
Lemma negation_witness :
  exists n,
    @unop Arch64 [] NEG (VInt Int8 (-128)) = Ok (VInt Int8 n)
    /\ @wrap Arch64 Int8 n = n
    /\ @unop Arch64 [] NEG (VInt Int8 n) = Ok (VInt Int8 (-128))
    /\ @opADD Arch64 (VInt Int8 (-128)) (VInt Int8 n) = Ok (VInt Int8 0)
    /\ @opSUB Arch64 (VInt Int8 0) (VInt Int8 (-128)) = Ok (VInt Int8 n)
    /\ (n = - -128
        \/ (-128 = - 2 ^ (@ik_bits Arch64 Int8 - 1) /\ n = -128)
        \/ ik_signed Int8 = false).
Proof. apply (@negation Arch64 [] Int8 (-128)). reflexivity. Defined.

(** ** Comparisons *)

Lemma opLSS_ordered_op `{Host} (x y : value) :
  opLSS x y = ordered_op "<" Z.ltb SFltb string_ltb x y.
Proof. reflexivity. Qed.

Lemma string_leb_ltb (a b : string) : string_leb a b = negb (string_ltb b a).
Proof.
  unfold string_leb, string_ltb. rewrite (String.compare_antisym b a).
  destruct (String.compare a b); reflexivity.
Qed.

(** X16.  On two integers of one predeclared type, or two strings, the
    four comparisons agree: [x > y] is [y < x], [x <= y] is the negation
    of [x > y], [x >= y] is the negation of [x < y], at most one of
    [x < y] and [x > y] holds, and neither holds exactly when the
    operands are equal. *)
Theorem comparisons_agree `{Host} (x y : value) :
  ordered_pair x y ->
  exists lt gt : bool,
    opLSS x y = Ok (VBool lt) /\ opGTR x y = Ok (VBool gt)
    /\ opGTR y x = Ok (VBool lt) /\ opLSS y x = Ok (VBool gt)
    /\ opLEQ x y = Ok (VBool (negb gt)) /\ opGEQ x y = Ok (VBool (negb lt))
    /\ (lt && gt = false)
    /\ (lt || gt = false <-> x = y).
Proof.
  intros [k a b|a b]; unfold opLSS, opGTR, opLEQ, opGEQ, ordered_op;
    rewrite ?assert_int_same; cbn [assert_string mbind res_bind mret res_ret].
  - exists (a <? b), (b <? a).
    rewrite Z.gtb_ltb, Z.geb_leb, !Z.leb_antisym, (Z.gtb_ltb b a).
    repeat split; try reflexivity.
    + destruct (Z.ltb_spec a b), (Z.ltb_spec b a); try reflexivity; lia.
    + destruct (Z.ltb_spec a b), (Z.ltb_spec b a); try discriminate.
      intros _. f_equal. lia.
    + intros [= ->]. now rewrite Z.ltb_irrefl.
  - exists (string_ltb a b), (string_ltb b a).
    rewrite !string_leb_ltb.
    repeat split; try reflexivity.
    + unfold string_ltb. rewrite (String.compare_antisym b a).
      destruct (String.compare a b); reflexivity.
    + unfold string_ltb. rewrite (String.compare_antisym b a).
      destruct (String.compare a b) eqn:E; try discriminate.
      intros _. f_equal. now apply String.compare_eq_iff.
    + intros [= ->]. unfold string_ltb.
      assert (E : String.compare b b = Eq).
      { pose proof (String.compare_antisym b b) as E.
        destruct (String.compare b b); try reflexivity; discriminate E. }
      now rewrite E.
Qed.

(** X16 at "go" and "gossa". *)
Lemma comparisons_agree_witness :
  exists lt gt : bool,
    @opLSS Arch64 (VString "go") (VString "gossa") = Ok (VBool lt)
    /\ @opGTR Arch64 (VString "go") (VString "gossa") = Ok (VBool gt)
    /\ @opGTR Arch64 (VString "gossa") (VString "go") = Ok (VBool lt)
    /\ @opLSS Arch64 (VString "gossa") (VString "go") = Ok (VBool gt)
    /\ @opLEQ Arch64 (VString "go") (VString "gossa") = Ok (VBool (negb gt))
    /\ @opGEQ Arch64 (VString "go") (VString "gossa") = Ok (VBool (negb lt))
    /\ (lt && gt = false)
    /\ (lt || gt = false <-> VString "go" = VString "gossa").
Proof.
  apply (@comparisons_agree Arch64 (VString "go") (VString "gossa")).
  constructor.
Defined.

(** X17.  A NaN is unordered: each of [<], [<=], [>] and [>=] between a
    NaN and any float is false, so that for floats [x <= y] is not the
    negation of [x > y]. *)
Theorem comparisons_of_NaN `{Host} (k : fkind) (a : spec_float) :
  opLSS (VFloat k S754_nan) (VFloat k a) = Ok (VBool false)
  /\ opLEQ (VFloat k S754_nan) (VFloat k a) = Ok (VBool false)
  /\ opGTR (VFloat k S754_nan) (VFloat k a) = Ok (VBool false)
  /\ opGEQ (VFloat k S754_nan) (VFloat k a) = Ok (VBool false)
  /\ opGEQ (VFloat k a) (VFloat k S754_nan) = Ok (VBool false)
  /\ opLEQ (VFloat k a) (VFloat k S754_nan) = Ok (VBool false).
Proof.
  unfold opLSS, opGTR, opLEQ, opGEQ, ordered_op, assert_float.
  rewrite !decide_True by reflexivity. cbn [mbind res_bind mret res_ret].
  unfold SFltb, SFleb. cbn [SFcompare].
  destruct a as [| | |[] ? ?]; repeat split.
Qed.

(** ** widen *)

(** X18.  When [widen] returns on an operand that is no
    [unsafe.Pointer] (which the source returns as it is), the result is
    a value of one of the six widest predeclared types (bool, int64,
    uint64, float64, complex128, string), widening it again changes
    nothing, and an integer keeps its value: a value [n] of the integer
    type [k] becomes the same [n] of type int64 when [k] is signed, and
    of type uint64 otherwise. *)
Theorem widen_spec `{Host} (x y : value) :
  Value_Kind x <> KUnsafePointer ->
  widen x = Ok y ->
  widen y = Ok y
  /\ In (Value_Kind y)
       [KBool; KInteger Int64; KInteger Uint64; KFloat Float64;
        KComplex Complex128; KString]
  /\ y = payload y
  /\ (forall k n, x = VInt k n -> wrap k n = n ->
        y = VInt (wide k) n /\ wrap (wide k) n = n).
Proof.
  intros _ Hw.
  assert (Hint : forall k n, wrap k n = n -> wrap (wide k) n = n).
  { intros k n Hn. pose proof (wrap_valid_range k n Hn) as Hr.
    pose proof (ik_bits_pos k) as Hb.
    assert (Hle : 2 ^ (ik_bits k - 1) <= 2 ^ 63)
      by (apply Z.pow_le_mono_r; lia).
    assert (Hle' : 2 ^ ik_bits k <= 2 ^ 64) by (apply Z.pow_le_mono_r; lia).
    apply wrap_small. rewrite wide_bits. unfold wide.
    destruct (ik_signed k); cbn [ik_signed]; lia. }
  unfold widen in Hw.
  destruct x as [|b|k n|k f|k re im|s| | | | | | | | | |]; try discriminate Hw.
  - injection Hw as <-. cbn. intuition discriminate.
  - destruct k; injection Hw as <-;
      (split; [reflexivity|]); (split; [cbn; tauto|]); (split; [reflexivity|]);
      intros k' n' [= <- <-] Hn; pose proof (Hint _ _ Hn) as Hn';
      unfold wide in *; cbn [ik_signed] in *; rewrite ?Hn'; split; congruence.
  - destruct k; injection Hw as <-; cbn; intuition discriminate.
  - destruct k; injection Hw as <-; cbn; intuition discriminate.
  - injection Hw as <-. cbn. intuition discriminate.
Qed.

(** X18 at [int8(-3)]. *)
Lemma widen_spec_witness :
  @widen Arch64 (VInt Int64 (-3)) = Ok (VInt Int64 (-3))
  /\ VInt Int64 (-3) = VInt (wide Int8) (-3).
Proof.
  assert (Hk : Value_Kind (VInt Int8 (-3)) <> KUnsafePointer)
    by discriminate.
  destruct (@widen_spec Arch64 (VInt Int8 (-3)) (VInt Int64 (-3)) Hk eq_refl)
    as (Hagain & _ & _ & Hint).
  split; [exact Hagain|].
  exact (proj1 (Hint Int8 (-3) eq_refl eq_refl)).
Defined.

(** ** The index table of a compiled function *)

Lemma extends_refl (p : Function) : extends p p.
Proof. split; [tauto | lia]. Qed.

Lemma extends_trans (p q r : Function) : extends p q -> extends q r -> extends p r.
Proof. intros [H1 H2] [H3 H4]. split; [eauto | lia]. Qed.

Lemma keeps_ret {A} (a : A) : keeps_indices (mret a : C A).
Proof. intros p a' p' [= <- <-] Hp. split; [assumption | apply extends_refl]. Qed.

Lemma keeps_bind {A B} (m : C A) (f : A -> C B) :
  keeps_indices m -> (forall a, keeps_indices (f a)) -> keeps_indices (m ≫= f).
Proof.
  intros Hm Hf p b p' E Hp. unfold mbind, C_bind in E.
  destruct (m p) as [[a q]|] eqn:Em; [|discriminate E].
  destruct (Hm _ _ _ Em Hp) as [Hq Hpq].
  destruct (Hf a _ _ _ E Hq) as [Hp' Hqp'].
  split; [assumption | eapply extends_trans; eassumption].
Qed.

Lemma keeps_panic {A} (e : panic_value) : keeps_indices (compile_panic e : C A).
Proof. intros p a p' E. discriminate E. Qed.

(** getIndex *)
Lemma getIndex_facts (v : ssa_Value) (p : Function) :
  well_indexed p ->
  exists i p',
    getIndex v p = Ok (i, p')
    /\ well_indexed p' /\ extends p p'
    /\ valueIndex p' !! key v = Some i
    /\ getIndex v p' = Ok (i, p')
    /\ (valueIndex p !! key v = None ->
        i = valueCount p /\ valueCount p' = S (valueCount p)
        /\ values p' !! i
           = Some (match v with Const _ _ c => c | _ => VNil end))
    /\ (is_Some (valueIndex p !! key v) -> p' = p).
Proof.
  intros (Hlen & Hlt & Hinj). unfold getIndex.
  destruct (valueIndex p !! key v) as [i|] eqn:E.
  - exists i, p. rewrite E.
    split; [reflexivity|]. split; [now repeat split|].
    split; [apply extends_refl|]. split; [reflexivity|].
    split; [reflexivity|]. split; [intros [=] | reflexivity].
  - eexists _, _. split; [reflexivity|]. cbn [valueIndex valueCount values].
    split; [|split; [|split; [|split; [|split]]]].
    + split; [|split]; cbn [valueIndex valueCount values].
      * rewrite length_app, Hlen. cbn. lia.
      * intros k i. rewrite lookup_insert. case_decide.
        -- intros [= <-]. lia.
        -- intros Hk. specialize (Hlt _ _ Hk). lia.
      * intros k k' i. rewrite !lookup_insert.
        repeat case_decide; subst; try congruence.
        -- intros [= <-] Hk. specialize (Hlt _ _ Hk). lia.
        -- intros Hk [= <-]. specialize (Hlt _ _ Hk). lia.
        -- apply Hinj.
    + split; cbn [valueIndex valueCount]; [|lia].
      intros k i Hk. rewrite lookup_insert_ne; [assumption|congruence].
    + apply lookup_insert_eq.
    + now rewrite lookup_insert_eq.
    + intros _. repeat split.
      rewrite <- Hlen. rewrite lookup_app_r by lia.
      now rewrite Nat.sub_diag.
    + intros [? [=]].
Qed.

Lemma keeps_getIndex (v : ssa_Value) : keeps_indices (getIndex v).
Proof.
  intros p i p' E Hp.
  destruct (getIndex_facts v p Hp) as (i' & q & E' & Hq & Hext & _).
  rewrite E in E'. injection E' as -> ->. now split.
Qed.

Lemma keeps_mapM {A B} (f : A -> C B) (l : list A) :
  (forall a, keeps_indices (f a)) -> keeps_indices (mapM f l).
Proof.
  intros Hf. induction l as [|a l IH]; [apply keeps_ret|].
  cbn [mapM]. apply keeps_bind; [apply Hf|]. intros b.
  apply keeps_bind; [apply IH|]. intros k. apply keeps_ret.
Qed.

Ltac keeps :=
  repeat first
    [ apply keeps_ret
    | apply keeps_panic
    | apply keeps_getIndex
    | apply keeps_mapM; intros ?
    | apply keeps_bind; [|intros ?]
    | match goal with
      | |- keeps_indices (match ?x with _ => _ end) => destruct x
      | |- keeps_indices (if ?b then _ else _) => destruct b
      | |- keeps_indices (let _ := _ in _) => cbv zeta
      end ].

(** X19.  Asking for the index of an operand [v] and then of an operand
    [w], in a table that is well formed, leaves a table that is well
    formed, in which both operands keep the index they were given; the
    two indices are equal exactly when the operands have the same key,
    both are slots of [values], and at most two indices were added. *)
Theorem getIndex_twice (v w : ssa_Value) (p : Function) :
  well_indexed p ->
  exists i j p' p'',
    getIndex v p = Ok (i, p') /\ getIndex w p' = Ok (j, p'')
    /\ well_indexed p''
    /\ getIndex v p'' = Ok (i, p'') /\ getIndex w p'' = Ok (j, p'')
    /\ (i = j <-> key v = key w)
    /\ (i < length (values p''))%nat /\ (j < length (values p''))%nat
    /\ (valueCount p <= valueCount p'' <= valueCount p + 2)%nat.
Proof.
  intros Hp.
  destruct (getIndex_facts v p Hp)
    as (i & p' & E1 & Hp' & X1 & L1 & _ & N1 & O1).
  destruct (getIndex_facts w p' Hp')
    as (j & p'' & E2 & Hp'' & X2 & L2 & S2 & N2 & O2).
  exists i, j, p', p''. split; [exact E1|]. split; [exact E2|].
  split; [exact Hp''|].
  assert (Lv : valueIndex p'' !! key v = Some i) by now apply X2.
  split; [unfold getIndex; now rewrite Lv|]. split; [exact S2|].
  destruct Hp'' as (Hlen & Hlt & Hinj).
  split; [|split; [|split]].
  - split.
    + intros ->. eapply Hinj; eassumption.
    + intros Hk. rewrite Hk in Lv. congruence.
  - rewrite Hlen. eapply Hlt; eassumption.
  - rewrite Hlen. eapply Hlt; eassumption.
  - destruct X1 as [_ C1], X2 as [_ C2]. split; [lia|].
    assert (valueCount p' <= S (valueCount p))%nat.
    { destruct (valueIndex p !! key v) eqn:Ev.
      - rewrite O1 by eauto. lia.
      - destruct (N1 eq_refl) as (_ & -> & _). lia. }
    assert (valueCount p'' <= S (valueCount p'))%nat.
    { destruct (valueIndex p' !! key w) eqn:Ew.
      - rewrite O2 by eauto. lia.
      - destruct (N2 eq_refl) as (_ & -> & _). lia. }
    lia.
Qed.

Lemma well_indexed_empty (fn : ssa_Function) : well_indexed (empty_Function fn).
Proof.
  split; [reflexivity|].
  split; cbn; intros *; rewrite lookup_empty; discriminate.
Qed.

(** X19 at two parameters of a function that is not compiled yet. *)
Lemma getIndex_twice_witness :
  exists i j p' p'',
    getIndex (int_param "x") (empty_Function (niladic "f" [])) = Ok (i, p')
    /\ getIndex (int_param "y") p' = Ok (j, p'')
    /\ well_indexed p''
    /\ getIndex (int_param "x") p'' = Ok (i, p'')
    /\ getIndex (int_param "y") p'' = Ok (j, p'')
    /\ (i = j <-> key (int_param "x") = key (int_param "y"))
    /\ (i < length (values p''))%nat /\ (j < length (values p''))%nat
    /\ (valueCount (empty_Function (niladic "f" [])) <= valueCount p''
        <= valueCount (empty_Function (niladic "f" [])) + 2)%nat.
Proof.
  apply (getIndex_twice (int_param "x") (int_param "y")
           (empty_Function (niladic "f" []))).
  apply well_indexed_empty.
Defined.

Lemma mapM_getIndex_ok (l : list ssa_Value) (p : Function) :
  exists r p', mapM getIndex l p = Ok (r, p').
Proof.
  revert p. induction l as [|v l IH]; intros p; [now eexists _, _|].
  cbn [mapM]. destruct (getIndex_ok v p) as (i & q & E).
  rewrite (C_bind_ok _ _ _ _ _ E).
  destruct (IH q) as (r & q' & E'). rewrite (C_bind_ok _ _ _ _ _ E').
  now eexists _, _.
Qed.

Lemma mapM_getIndex_fresh (l : list ssa_Value) (p : Function)
    (r : list nat) (p' : Function) :
  mapM getIndex l p = Ok (r, p') ->
  NoDup (key <$> l) ->
  (forall v, v ∈ l -> valueIndex p !! key v = None) ->
  well_indexed p ->
  valueCount p' = (valueCount p + length l)%nat
  /\ (forall j v, l !! j = Some v ->
        valueIndex p' !! key v = Some (valueCount p + j)%nat)
  /\ (forall k, k ∉ key <$> l -> valueIndex p' !! k = valueIndex p !! k).
Proof.
  revert p r p'. induction l as [|v l IH]; intros p r p' E Hnd Hfresh Hp.
  - injection E as <- <-. cbn. repeat split; [lia | intros ? ? [=]].
  - cbn [mapM] in E. unfold mbind at 1, C_bind at 1 in E.
    destruct (getIndex_facts v p Hp)
      as (i & q & Ei & Hq & Hext & Hi & _ & Hnew & _).
    rewrite Ei in E.
    destruct (Hnew (Hfresh v (list_elem_of_here _ _))) as (-> & Hcount & _).
    unfold mbind at 1, C_bind at 1 in E.
    destruct (mapM getIndex l q) as [[r' q']|] eqn:El; [|discriminate E].
    injection E as <- <-.
    rewrite fmap_cons in Hnd. apply NoDup_cons in Hnd as [Hv Hnd].
    assert (Hq_other : forall k, k <> key v ->
              valueIndex q !! k = valueIndex p !! k).
    { intros k Hk. unfold getIndex in Ei.
      rewrite (Hfresh v (list_elem_of_here _ _)) in Ei.
      injection Ei as <-. cbn [valueIndex]. now rewrite lookup_insert_ne. }
    destruct (IH q r' q' El Hnd) as (Hc & Hj & Hk); [|assumption|].
    { intros w Hw. rewrite Hq_other;
        [apply Hfresh; now apply list_elem_of_further|].
      intros Hkw. apply Hv. rewrite <- Hkw. now apply list_elem_of_fmap_2. }
    cbn [length]. split; [lia|]. split.
    + intros [|j] w Hw; cbn in Hw.
      * injection Hw as <-. rewrite Hk by assumption.
        rewrite Hi. f_equal. lia.
      * rewrite (Hj _ _ Hw). f_equal. lia.
    + intros k Hk'. rewrite fmap_cons in Hk'.
      apply not_elem_of_cons in Hk' as [Hne Hk'].
      rewrite Hk by assumption. now apply Hq_other.
Qed.

Section Compile.
Context `{Host}.
Variable mode : Mode.
Variables toString toInterface : value -> string.
Variable prog : gmap string ssa_Function.

Lemma keeps_makeInstr (instr : Instruction) :
  keeps_indices (makeInstr mode toString toInterface prog instr).
Proof.
  unfold makeInstr, BinOp_executor, Store_executor, makeCallInstr.
  destruct instr; cbn [as_Value]; keeps.
Qed.

Lemma keeps_compile_instrs (l : list Instruction) :
  keeps_indices (compile_instrs mode toString toInterface prog l).
Proof.
  induction l as [|i l IH]; cbn [compile_instrs]; [apply keeps_ret|].
  apply keeps_bind; [apply keeps_makeInstr|]. intros ?.
  apply keeps_bind; [apply IH|]. intros ?. apply keeps_ret.
Qed.

Lemma keeps_compile_blocks (l : list BasicBlock) (index : nat) :
  keeps_indices (compile_blocks mode toString toInterface prog index l).
Proof.
  revert index. induction l as [|b l IH]; intros index; cbn [compile_blocks];
    [apply keeps_ret|].
  apply keeps_bind; [apply keeps_compile_instrs|]. intros ?.
  apply keeps_bind; [apply IH|]. intros ?. apply keeps_ret.
Qed.

Lemma compile_blocks_shape (l : list BasicBlock) (index : nat)
    (p : Function) (r : list FuncBlock) (p' : Function) :
  compile_blocks mode toString toInterface prog index l p = Ok (r, p') ->
  length r = length l
  /\ (forall j b, l !! j = Some b ->
        exists fb, r !! j = Some fb
                   /\ Index fb = (index + j)%nat
                   /\ fb_Preds fb = Preds b /\ fb_Succs fb = Succs b).
Proof.
  revert index p r p'. induction l as [|b l IH]; intros index p r p' E.
  - injection E as <- <-. split; [reflexivity | intros ? ? [=]].
  - cbn [compile_blocks] in E. unfold mbind at 1, C_bind at 1 in E.
    destruct (compile_instrs _ _ _ _ _ p) as [[es q]|]; [|discriminate E].
    unfold mbind at 1, C_bind at 1 in E.
    destruct (compile_blocks _ _ _ _ _ l q) as [[r' q']|] eqn:El;
      [|discriminate E].
    injection E as <- <-.
    destruct (IH _ _ _ _ El) as (Hlen & Hj).
    split; [cbn; now rewrite Hlen|].
    intros [|j] b' Hb; cbn in Hb.
    + injection Hb as <-. eexists. split; [reflexivity|]. cbn.
      repeat split. lia.
    + destruct (Hj _ _ Hb) as (fb & Hfb & Hi & Hp & Hs).
      exists fb. split; [exact Hfb|]. repeat split; try assumption. lia.
Qed.

(** X20.  The compiled form of a function has a well-formed index
    table; when the locals, the parameters and the free variables of the
    function have different keys, their indices are their positions in
    that order (the positions at which a call places the cells of the
    locals, the arguments and the free variables); and the blocks are
    those of the function, in order, with their indices, predecessors
    and successors. *)
Theorem compile_function_spec (fn : ssa_Function) (p : Function) :
  compile_function mode toString toInterface prog fn = Ok p ->
  let operands := (Locals fn ++ Params fn ++ FreeVars fn)%list in
  well_indexed p
  /\ (NoDup (key <$> operands) ->
      forall i v, operands !! i = Some v -> valueIndex p !! key v = Some i)
  /\ length (Blocks p) = length (ssa_Blocks fn)
  /\ (forall j b, ssa_Blocks fn !! j = Some b ->
        exists fb, Blocks p !! j = Some fb /\ Index fb = j
                   /\ fb_Preds fb = Preds b /\ fb_Succs fb = Succs b).
Proof.
  intros E operands. unfold compile_function in E.
  unfold mbind at 1, res_bind at 1 in E.
  match type of E with
  | match ?m with _ => _ end = _ => destruct m as [[blocks q]|] eqn:Em
  end; [|discriminate E].
  injection E as <-. cbn [valueIndex valueCount values Blocks].
  unfold mbind at 1, C_bind at 1 in Em.
  destruct (mapM getIndex (Locals fn) (empty_Function fn))
    as [[r1 p1]|] eqn:E1; [|discriminate Em].
  unfold mbind at 1, C_bind at 1 in Em.
  destruct (mapM getIndex (Params fn) p1) as [[r2 p2]|] eqn:E2;
    [|discriminate Em].
  unfold mbind at 1, C_bind at 1 in Em.
  destruct (mapM getIndex (FreeVars fn) p2) as [[r3 p3]|] eqn:E3;
    [|discriminate Em].
  pose proof (well_indexed_empty fn) as H0.
  destruct (keeps_mapM getIndex _ keeps_getIndex _ _ _ E1 H0) as [H1 X1].
  destruct (keeps_mapM getIndex _ keeps_getIndex _ _ _ E2 H1) as [H2 X2].
  destruct (keeps_mapM getIndex _ keeps_getIndex _ _ _ E3 H2) as [H3 X3].
  destruct (keeps_compile_blocks _ _ _ _ _ Em H3) as [H4 X4].
  destruct (compile_blocks_shape _ _ _ _ _ Em) as (Hlen & Hshape).
  split; [exact H4|]. split; [|split; [exact Hlen|]].
  - intros Hnd i v Hv. subst operands.
    rewrite !fmap_app in Hnd.
    apply NoDup_app in Hnd as (Hn1 & Hn12 & Hn23).
    apply NoDup_app in Hn23 as (Hn2 & Hn23' & Hn3).
    destruct (mapM_getIndex_fresh _ _ _ _ E1 Hn1) as (C1 & J1 & K1);
      [intros; apply lookup_empty | assumption |].
    destruct (mapM_getIndex_fresh _ _ _ _ E2 Hn2) as (C2 & J2 & K2);
      [|assumption|].
    { intros w Hw. rewrite K1; [apply lookup_empty|].
      intros Hin. apply (Hn12 _ Hin). apply elem_of_app. left.
      now apply list_elem_of_fmap_2. }
    destruct (mapM_getIndex_fresh _ _ _ _ E3 Hn3) as (C3 & J3 & K3);
      [|assumption|].
    { intros w Hw. rewrite K2, K1; [apply lookup_empty| |].
      - intros Hin. apply (Hn12 _ Hin). apply elem_of_app. right.
        now apply list_elem_of_fmap_2.
      - intros Hin. apply (Hn23' _ Hin). now apply list_elem_of_fmap_2. }
    cbn [valueCount empty_Function] in C1, J1.
    apply X4.
    apply lookup_app_Some in Hv as [Hl|[Hge Hr]].
    + apply X3, X2. now rewrite (J1 _ _ Hl).
    + apply lookup_app_Some in Hr as [Hpv|[Hge2 Hf]].
      * apply X3. rewrite (J2 _ _ Hpv). f_equal. lia.
      * rewrite (J3 _ _ Hf). f_equal. lia.
  - intros j b Hb. destruct (Hshape _ _ Hb) as (fb & ? & ? & ? & ?).
    exists fb. repeat split; assumption.
Qed.

Lemma compile_projection (T : type) (names : list string) (x : string)
    (j : nat) :
  NoDup names -> names !! j = Some x ->
  exists P,
    compile_function mode toString toInterface prog (projection T names x)
    = Ok P
    /\ Blocks P = [ {| Index := 0; fb_Instrs := [Return_reg_executor j];
                       fb_Preds := []; fb_Succs := [] |} ]
    /\ MainBlock P = Some 0%nat
    /\ length (values P) = length names.
Proof.
  intros Hnd Hj. unfold compile_function.
  cbn [projection Locals Params FreeVars ssa_Blocks ssa_Recover mapM].
  set (params := (fun y => Param y T) <$> names).
  destruct (mapM_getIndex_ok params (empty_Function (projection T names x)))
    as (r & p2 & E2).
  assert (Hkeys : key <$> params = names).
  { unfold params. rewrite <- list_fmap_compose.
    rewrite <- (list_fmap_id names) at 2. now apply list_fmap_ext. }
  pose proof (well_indexed_empty (projection T names x)) as H0.
  destruct (keeps_mapM getIndex _ keeps_getIndex _ _ _ E2 H0) as [H2 _].
  destruct (mapM_getIndex_fresh _ _ _ _ E2) as (Hc & Hi & _);
    [now rewrite Hkeys | intros; apply lookup_empty | assumption |].
  assert (Hx : valueIndex p2 !! x = Some j).
  { apply (Hi j (Param x T)).
    unfold params. rewrite list_lookup_fmap, Hj. reflexivity. }
  assert (Hg : getIndex (Param x T) p2 = Ok (j, p2)).
  { unfold getIndex. cbn [key]. now rewrite Hx. }
  eexists. split.
  - assert (Hcomp : (mapM getIndex [] ;; mapM getIndex params ;;
                  mapM getIndex [] ;;
                  compile_blocks mode toString toInterface prog 0
                    [ {| Instrs := [Return [Param x T]];
                         Preds := []; Succs := [] |} ])
                   (empty_Function (projection T names x))
                 = Ok ([ {| Index := 0; fb_Instrs := [Return_reg_executor j];
                            fb_Preds := []; fb_Succs := [] |} ], p2)).
    { erewrite C_bind_ok by reflexivity.
      rewrite (C_bind_ok _ _ _ _ _ E2).
      erewrite C_bind_ok by reflexivity.
      cbn [compile_blocks compile_instrs Instrs Preds Succs].
      unfold makeInstr. cbn [as_Value].
      unfold mbind, C_bind, mret, C_ret. rewrite Hg. reflexivity. }
    cbn [mapM] in Hcomp. rewrite Hcomp. cbn [mbind res_bind mret res_ret].
    reflexivity.
  - cbn [Blocks MainBlock values]. split; [reflexivity|].
    split; [reflexivity|].
    destruct H2 as [-> _]. rewrite Hc. cbn [valueCount empty_Function].
    unfold params. now rewrite length_fmap.
Qed.
End Compile.

(** X20 at [func f(x, y int) int { return y }]. *)
Lemma compile_function_spec_witness :
  exists p,
    @compile_function Arch64 recovering example_toString example_toString ∅
      (projection (TInteger Int) ["x"; "y"] "y")
    = Ok p
    /\ well_indexed p /\ length (Blocks p) = 1%nat.
Proof.
  assert (Hnd : NoDup ["x"; "y"]).
  { apply (bool_decide_unpack _). vm_compute. exact I. }
  destruct (@compile_projection Arch64 recovering example_toString
              example_toString ∅ (TInteger Int) ["x"; "y"] "y" 1 Hnd eq_refl)
    as (p & Hp & _).
  exists p. split; [exact Hp|].
  destruct (@compile_function_spec Arch64 recovering example_toString
              example_toString ∅ _ _ Hp) as (Hw & _ & Hlen & _).
  split; [exact Hw | exact Hlen].
Defined.


(** ** recover() *)

(** X21.  After recover() has cleared the panic of the caller's caller,
    a second recover() from the same frame returns nil and changes
    nothing: with [DisableRecover] clear, a frame that is not panicking
    and whose caller is panicking, the first call returns what the type
    switch gives for the panic value and leaves the caller with
    [panicking] false and [panic] nil, and the second call, in the state
    the first one left, returns nil and leaves that state. *)
Theorem recover_twice (mode : Mode) (s : state) (c cc : nat)
    (fr outer : frame) :
  frames s !! c = Some fr -> caller fr = Some cc ->
  frames s !! cc = Some outer ->
  DisableRecover mode = false -> panicking fr = false ->
  panicking outer = true ->
  let s' := put_frame cc (with_panic false None outer) s in
  doRecover mode (Some c) s = Done (recovered (panic outer)) s'
  /\ doRecover mode (Some c) s' = Done (Ok VNil) s'.
Proof.
  intros Hc Hcc Hout Hmode Hfr Hp s'.
  assert (Hne : c <> cc).
  { intros ->. rewrite Hc in Hout. injection Hout as ->. congruence. }
  assert (Hc' : frames s' !! c = Some fr).
  { unfold s', put_frame. cbn [frames].
    rewrite list_lookup_insert_ne by congruence. exact Hc. }
  assert (Hout' : frames s' !! cc = Some (with_panic false None outer)).
  { eapply lookup_put_frame. eassumption. }
  unfold doRecover.
  rewrite (M_bind_ok _ _ _ _ _ (the_frame_ok _ _ _ Hc)).
  rewrite (M_bind_ok _ _ _ _ _ (the_frame_ok _ _ _ Hc')).
  rewrite Hmode, Hfr, Hcc. cbn [negb andb].
  rewrite (M_bind_ok _ _ _ _ _ (the_frame_ok _ _ _ Hout)).
  rewrite (M_bind_ok _ _ _ _ _ (the_frame_ok _ _ _ Hout')).
  rewrite Hp. cbn [panicking with_panic].
  split; [|reflexivity].
  rewrite (M_bind_ok _ _ _ _ _ (update_frame_ok _ _ _ _ Hout)).
  reflexivity.
Qed.

(** X21 at a frame whose caller is panicking with the target panic
    "boom". *)
Lemma recover_twice_witness :
  let s := panicking_state (targetPanic (VString "boom")) in
  let outer := with_panic true (Some (targetPanic (VString "boom")))
                 (a_frame None []) in
  let s' := put_frame 0 (with_panic false None outer) s in
  doRecover recovering (Some 1%nat) s = Done (recovered (panic outer)) s'
  /\ doRecover recovering (Some 1%nat) s' = Done (Ok VNil) s'.
Proof.
  apply (recover_twice recovering
           (panicking_state (targetPanic (VString "boom"))) 1 0
           {| caller := Some 0%nat; pfn := "g"; block := Some 0%nat;
              prevBlock := None; env := None; stack := [];
              defers := []; result := VNil; panicking := false;
              panic := None |}
           (with_panic true (Some (targetPanic (VString "boom")))
              (a_frame None []))); reflexivity.
Defined.

(** ** print and println *)

Section Print.
Variable mode : Mode.
Variables toString toInterface : value -> string.

Lemma print_args_concat (ln : bool) (ssaArgs : list ssa_Value)
    (args : list value) (i : nat) :
  print_args toString toInterface ln i args ssaArgs
  = match args with
    | [] => ""
    | _ => (if (0 <? i)%nat && ln then " " else "")
           ++ String.concat (if ln then " " else "")
                (imap (fun j => rendered toString toInterface ssaArgs (i + j)) args)
    end.
Proof.
  revert i. induction args as [|a args IH]; intros i; [reflexivity|].
  cbn [print_args]. rewrite IH. fold (rendered toString toInterface ssaArgs i a).
  cbn [imap]. rewrite Nat.add_0_r. f_equal.
  destruct args as [|b args]; [cbn; now rewrite append_nil_r|].
  change (0 <? S i)%nat with true. cbn [andb].
  assert (Hi : imap (fun j => rendered toString toInterface ssaArgs (S i + j)) (b :: args)
               = imap ((fun j => rendered toString toInterface ssaArgs (i + j)) ∘ S) (b :: args)).
  { apply imap_ext. intros. cbn. f_equal. lia. }
  rewrite <- Hi.
  destruct ln; [reflexivity|]. now rewrite append_nil_l.
Qed.

(** X22.  The built-in print writes the texts of its arguments one
    after the other, println writes them separated by single spaces and
    followed by a newline; the text of an argument is given by
    [toInterface] when the static type of the operand is an interface
    and by [toString] otherwise; both return nil and change neither the
    frames nor the store. *)
Theorem print_println (caller_ : option nat) (args : list value)
    (ssaArgs : list ssa_Value) (s : state) :
  let texts := imap (rendered toString toInterface ssaArgs) args in
  callBuiltin mode toString toInterface caller_ Bprint args ssaArgs s
  = Done (Ok VNil) (with_output (String.concat "" texts) s)
  /\ callBuiltin mode toString toInterface caller_ Bprintln args ssaArgs s
     = Done (Ok VNil) (with_output (String.concat " " texts ++ newline) s).
Proof.
  intros texts. unfold callBuiltin, print. cbn [mbind M_bind mret M_ret].
  rewrite !print_args_concat. subst texts.
  destruct args; split; reflexivity.
Qed.
End Print.

(** ** Deferred calls that panic *)

Section Chain.
Variable mode : Mode.
Variables toString toInterface : value -> string.
Variable prog : gmap string ssa_Function.
Variable funcs : gmap string Function.
Variables (E E' : engine) (n : nat).
Hypothesis HE : e_call E = call mode toString toInterface prog funcs E' n.

Lemma run_chain_actions (fid : nat) (acts : list deferred_action)
    (s : state) (fr : frame) :
  frames s !! fid = Some fr ->
  exists s',
    run_chain E fid (action_call <$> acts) s = Done (Ok ()) s'
    /\ output s' = (output s ++ (toString ∘ VString <$> printed acts))%list
    /\ mem s' = mem s
    /\ frames s' = <[fid := after_chain acts fr]> (frames s).
Proof.
  revert s fr. induction acts as [|a acts IH]; intros s fr Hfr.
  - exists s. cbn. rewrite app_nil_r, list_insert_id by assumption.
    repeat split.
  - rewrite fmap_cons.
    change (run_chain E fid (action_call a :: ?r))
      with (runDefer E fid (action_call a) ;; run_chain E fid r).
    destruct a as [x|v].
    + assert (Hx : runDefer E fid (action_call (Prints x)) s
                   = Done (Ok ())
                       (with_output (toString (VString x))
                          (with_i_caller (Some fid) s))).
      { unfold runDefer. rewrite HE. cbn [action_call print_call d_fn d_args d_ssaArgs].
        cbv [call mbind M_bind get_state put_state mret M_ret callBuiltin
             print print_args].
        cbn. now rewrite append_nil_r. }
      rewrite (M_bind_ok _ _ _ _ _ Hx).
      destruct (IH (with_output (toString (VString x))
                      (with_i_caller (Some fid) s)) fr Hfr)
        as (s' & Hrun & Hout & Hmem & Hframes).
      exists s'. split; [exact Hrun|]. split; [|split; assumption].
      rewrite Hout. cbn. now rewrite <- app_assoc.
    + set (fr1 := with_panic true (Some (targetPanic v)) fr).
      assert (Hx : runDefer E fid (action_call (Panics v)) s
                   = Done (Ok ())
                       (put_frame fid fr1 (with_i_caller (Some fid) s))).
      { unfold runDefer. rewrite HE. cbn [action_call d_fn d_args d_ssaArgs].
        cbv [call mbind M_bind get_state put_state mret M_ret callBuiltin throw].
        now rewrite (update_frame_ok fid _ fr (with_i_caller (Some fid) s)). }
      rewrite (M_bind_ok _ _ _ _ _ Hx).
      destruct (IH (put_frame fid fr1 (with_i_caller (Some fid) s)) fr1)
        as (s' & Hrun & Hout & Hmem & Hframes).
      { eapply lookup_put_frame. exact Hfr. }
      exists s'. split; [exact Hrun|]. split; [exact Hout|].
      split; [exact Hmem|].
      rewrite Hframes. cbn [put_frame frames with_i_caller].
      rewrite list_insert_insert_eq. f_equal.
      unfold after_chain. cbn [last_panic].
      destruct (last_panic acts); reflexivity.
Qed.

(** X23.  A panic in a deferred call does not stop the deferred calls
    that remain: for a frame that is not panicking and whose chain
    consists of calls of print and of panic, [runDefers] runs every call
    of the chain, from its head, so that all the prints appear, in the
    order of the chain; it leaves the chain empty; and it ends in the
    panic of the last call of panic that ran (which replaced the earlier
    ones in the frame), or returns normally when no call panicked. *)
Theorem runDefers_runs_every_call (fid : nat) (acts : list deferred_action)
    (s : state) (fr : frame) :
  frames s !! fid = Some fr -> defers fr = action_call <$> acts ->
  panicking fr = false ->
  exists s',
    runDefers E fid s
    = Done (match last_panic acts with
            | Some v => Throw (targetPanic v)
            | None => Ok ()
            end) s'
    /\ output s' = (output s ++ (toString ∘ VString <$> printed acts))%list
    /\ mem s' = mem s
    /\ frames s' = <[fid := with_defers [] (after_chain acts fr)]> (frames s).
Proof.
  intros Hfr Hd Hp.
  destruct (run_chain_actions fid acts s fr Hfr)
    as (s1 & Hrun & Hout & Hmem & Hframes).
  assert (H1 : frames s1 !! fid = Some (after_chain acts fr)).
  { rewrite Hframes. apply list_lookup_insert_eq.
    eapply lookup_lt_Some; eassumption. }
  exists (put_frame fid (with_defers [] (after_chain acts fr)) s1).
  unfold runDefers.
  rewrite (M_bind_ok _ _ _ _ _ (the_frame_ok _ _ _ Hfr)), Hd.
  unfold mbind at 1, M_bind at 1. rewrite Hrun.
  rewrite (M_bind_ok _ _ _ _ _ (update_frame_ok _ _ _ _ H1)).
  rewrite (M_bind_ok _ _ _ _ _
             (the_frame_ok _ _ _ (lookup_put_frame _ _ _ _ H1))).
  split; [|split; [exact Hout|split; [exact Hmem|]]].
  - unfold after_chain. destruct (last_panic acts); cbn; [reflexivity|].
    now rewrite Hp.
  - cbn [put_frame frames]. rewrite Hframes.
    now rewrite list_insert_insert_eq.
Qed.
End Chain.

(** X23 at the chain [panic("late"); print("x"); panic("early")], the
    head being the call deferred last. *)
Lemma runDefers_runs_every_call_witness :
  let acts := [Panics (VString "late"); Prints "x"; Panics (VString "early")] in
  let fr := with_defers (action_call <$> acts) (a_frame None []) in
  exists s',
    runDefers
      (engine_at recovering example_toString example_toString ∅ ∅ 1)
      0 (a_state fr)
    = Done (Throw (targetPanic (VString "early"))) s'
    /\ output s' = ["x"].
Proof.
  intros acts fr.
  destruct (runDefers_runs_every_call recovering example_toString
              example_toString ∅ ∅
              (engine_at recovering example_toString example_toString ∅ ∅ 1)
              (engine_at recovering example_toString example_toString ∅ ∅ 0)
              0 eq_refl 0 acts (a_state fr) fr eq_refl eq_refl eq_refl)
    as (s' & Hrun & Hout & _).
  exists s'. split; [exact Hrun | exact Hout].
Defined.

(** ** Stores and loads *)

Lemma payload_retype (v p : value) : payload (retype v p) = payload p.
Proof. induction v; try reflexivity. cbn. assumption. Qed.

Lemma get_set_path (path : list nat) (v new v' : value) :
  set_path v path new = Some v' -> get_path v' path = Some new.
Proof.
  revert v v'. induction path as [|i path IH]; intros v v' E; cbn in *.
  - congruence.
  - destruct (payload v) eqn:Ev; try discriminate E.
    + destruct (elems !! i) as [f|] eqn:Ef; [|discriminate E]. cbn in E.
      destruct (set_path f path new) as [f'|] eqn:Es; [|discriminate E].
      cbn in E. injection E as <-. rewrite payload_retype. cbn [payload].
      rewrite list_lookup_insert_eq by (eapply lookup_lt_Some; eassumption).
      cbn. eauto.
    + destruct (vals !! i) as [f|] eqn:Ef; [|discriminate E]. cbn in E.
      destruct (set_path f path new) as [f'|] eqn:Es; [|discriminate E].
      cbn in E. injection E as <-. rewrite payload_retype. cbn [payload].
      rewrite list_lookup_insert_eq by (eapply lookup_lt_Some; eassumption).
      cbn. eauto.
Qed.

Lemma load_store_at (m m' : store) (p : pointer) (new : value) :
  store_at m p new = Some m' ->
  load m' p = Some new
  /\ (forall q, p_cell q <> p_cell p -> load m' q = load m q).
Proof.
  unfold store_at, load, store in *. intros E.
  destruct (m !! p_cell p) as [c|] eqn:Ec; [|discriminate E]. cbn in E.
  destruct (set_path c (p_path p) new) as [c'|] eqn:Es; [|discriminate E].
  cbn in E. injection E as <-. split.
  - rewrite list_lookup_insert_eq by (eapply lookup_lt_Some; eassumption).
    cbn. eapply get_set_path; eassumption.
  - intros q Hq. now rewrite list_lookup_insert_ne by congruence.
Qed.

Lemma set_path_is_Some (path : list nat) (c old new : value) :
  get_path c path = Some old -> is_Some (set_path c path new).
Proof.
  revert c. induction path as [|i path IH]; intros c E; cbn in *; [eauto|].
  destruct (payload c); try discriminate E.
  - destruct (elems !! i) as [f|]; [|discriminate E]. cbn in *.
    destruct (IH f E) as [f' ->]. cbn. eauto.
  - destruct (vals !! i) as [f|]; [|discriminate E]. cbn in *.
    destruct (IH f E) as [f' ->]. cbn. eauto.
Qed.

Lemma store_at_is_Some (m : store) (p : pointer) (old new : value) :
  load m p = Some old -> is_Some (store_at m p new).
Proof.
  unfold load, store_at. destruct (m !! p_cell p) as [c|]; [|discriminate].
  cbn. intros E. destruct (set_path_is_Some _ _ _ new E) as [c' ->].
  cbn. eauto.
Qed.

Lemma getIndex_lookup (v : ssa_Value) (p : Function) (i : nat) (p' : Function) :
  getIndex v p = Ok (i, p') ->
  valueIndex p' !! key v = Some i
  /\ (forall k j, valueIndex p !! k = Some j -> valueIndex p' !! k = Some j).
Proof.
  unfold getIndex. destruct (valueIndex p !! key v) as [j|] eqn:E.
  - intros [= <- <-]. split; [assumption | tauto].
  - intros [= <- <-]. cbn [valueIndex]. split; [apply lookup_insert_eq|].
    intros k j Hk. rewrite lookup_insert_ne; [assumption | congruence].
Qed.

(** X24.  A store through a pointer, and the load that follows it.
    For an address operand that is no [*ssa.FieldAddr], the instruction
    compiler gives the store an executor, which reads the pointer and the
    value from the registers that the index table has for the two
    operands.  When the pointer points to a cell that holds an integer
    of a predeclared type and the value is an integer of that type, the
    executor continues with the next instruction, changes neither the
    frames nor the output, leaves every other cell of the store as it
    was, and a load through the pointer then gives the value stored. *)
Theorem Store_then_load `{Host} (Addr Val : ssa_Value) (pfn : Function) :
  (forall id T X F, Addr <> FieldAddr id T X F) ->
  exists ex ia iv pfn',
    Store_executor Addr Val pfn = Ok (Some ex, pfn')
    /\ valueIndex pfn' !! key Addr = Some ia
    /\ valueIndex pfn' !! key Val = Some iv
    /\ forall (E : engine) (fid : nat) (s : state) (fr : frame) (e : type)
         (ptr : pointer) (k : ikind) (m n : Z),
         frames s !! fid = Some fr ->
         stack fr !! ia = Some (VPtr e (Some ptr)) ->
         stack fr !! iv = Some (VInt k n) ->
         load (mem s) ptr = Some (VInt k m) -> wrap k n = n ->
         exists s',
           ex E fid s = Done (Ok kNext) s'
           /\ frames s' = frames s /\ output s' = output s
           /\ unop (mem s') DEREF (VPtr e (Some ptr)) = Ok (VInt k n)
           /\ (forall q, p_cell q <> p_cell ptr ->
                 load (mem s') q = load (mem s) q).
Proof.
  intros Hfa. unfold Store_executor.
  assert (Hskip : forall p,
            match Addr with
            | FieldAddr _ _ aX Field =>
                match ssa_Type aX with
                | TPointer (TStruct fs) =>
                    match fs !! Field with
                    | Some f => mret (bool_decide (f.1 = "_"))
                    | None => compile_panic
                                (index_out_of_range Field (length fs))
                    end
                | TPointer _ => mret false
                | t => compile_panic
                         (hostRuntimeError
                            ("interface conversion: types.Type is "
                               ++ type_String t ++ ", not *types.Pointer"))
                end
            | _ => mret false
            end p = Ok (false, p)).
  { intros p. destruct Addr; try reflexivity. exfalso. eapply Hfa. reflexivity. }
  rewrite (C_bind_ok _ _ _ _ _ (Hskip pfn)).
  destruct (getIndex_ok Addr pfn) as (ia & p1 & E1).
  destruct (getIndex_ok Val p1) as (iv & p2 & E2).
  rewrite (C_bind_ok _ _ _ _ _ E1), (C_bind_ok _ _ _ _ _ E2).
  destruct (getIndex_lookup _ _ _ _ E1) as [Ha _].
  destruct (getIndex_lookup _ _ _ _ E2) as [Hv Hkeep].
  eexists _, ia, iv, p2. split; [reflexivity|].
  split; [now apply Hkeep|]. split; [exact Hv|].
  intros E fid s fr e ptr k m n Hfr Hia Hiv Hload Hn.
  destruct (store_at_is_Some (mem s) ptr _ (VInt k n) Hload) as [m' Hm'].
  destruct (load_store_at _ _ _ _ Hm') as [Hl Hother].
  exists (with_mem m' s).
  assert (Hset : SetValue (VInt k m) (VInt k n) = Ok (VInt k n)).
  { assert (Hs : set_int (VInt k m) k n = VInt k n).
    { unfold set_int. cbn [retype]. fold (wide k). now rewrite wrap_wide, Hn. }
    unfold SetValue. change (Value_Kind (VInt k m)) with (KInteger k).
    cbn iota. unfold Value_Int, Value_Uint.
    change (Value_Kind (VInt k n)) with (KInteger k).
    destruct k; cbn [ik_signed mbind res_bind mret res_ret int_of payload];
      now rewrite Hs. }
  split.
  - cbv [next mbind M_bind reg get_state lift put_state].
    rewrite (the_frame_ok _ _ _ Hfr), Hia.
    cbv [mret M_ret]. rewrite (the_frame_ok _ _ _ Hfr), Hiv.
    cbn [type_of payload option_bind mbind]. rewrite Hload.
    rewrite Hset. cbn [option_bind]. rewrite Hm'. reflexivity.
  - split; [reflexivity|]. split; [reflexivity|]. split; [|exact Hother].
    unfold unop. cbn [type_of payload with_mem mem mbind option_bind].
    now rewrite Hl.
Qed.

(** X24 at the store [*p = v] of two parameters. *)
Lemma Store_then_load_witness :
  exists ex ia iv pfn',
    @Store_executor Arch64 (Param "p" (TPointer (TInteger Int)))
      (int_param "v") (empty_Function (niladic "f" []))
    = Ok (Some ex, pfn')
    /\ valueIndex pfn' !! "p" = Some ia
    /\ valueIndex pfn' !! "v" = Some iv.
Proof.
  destruct (@Store_then_load Arch64 (Param "p" (TPointer (TInteger Int)))
              (int_param "v") (empty_Function (niladic "f" [])))
    as (ex & ia & iv & pfn' & Hex & Hia & Hiv & _).
  - intros; discriminate.
  - exists ex, ia, iv, pfn'. split; [exact Hex|]. split; assumption.
Defined.

(** ** Calls *)

Lemma same_control_refl (fr : frame) : same_control fr fr.
Proof. repeat split. tauto. Qed.

Lemma place_args_ok (fid : nat) (args : list value) (l : list ssa_Value)
    (index i : nat) (s : state) (fr : frame) :
  frames s !! fid = Some fr -> is_Some (env fr) ->
  (index + length l <= length (stack fr))%nat ->
  (i + length l <= length args)%nat ->
  exists fr',
    place_args true fid index i l args s
    = Done (Ok (index + length l)%nat) (put_frame fid fr' s)
    /\ same_control fr fr'
    /\ (forall j, (j < length l)%nat ->
          stack fr' !! (index + j)%nat = args !! (i + j)%nat)
    /\ (forall j, (j < index)%nat -> stack fr' !! j = stack fr !! j).
Proof.
  revert index i s fr. induction l as [|p l IH];
    intros index i s fr Hfr Henv Hst Hargs.
  - exists fr. cbn [place_args length]. rewrite Nat.add_0_r.
    unfold put_frame. rewrite list_insert_id by assumption.
    destruct s. split; [reflexivity|]. split; [apply same_control_refl|].
    split; [intros; lia | tauto].
  - cbn [length] in Hst, Hargs. cbn [place_args].
    destruct (lookup_lt_is_Some_2 args i) as [a Ha]; [lia|].
    destruct Henv as [e He].
    set (fr1 := with_env (Some (<[key p := a]> e)) fr).
    set (fr2 := with_stack (<[index := a]> (stack fr1)) fr1).
    assert (H1 : (a' ← arg_at args i; setEnv fid (key p) a') s
                 = Done (Ok ()) (put_frame fid fr1 s)).
    { unfold arg_at at 1. rewrite Ha.
      cbv [mbind M_bind mret M_ret setEnv].
      rewrite (the_frame_ok _ _ _ Hfr), He.
      now rewrite (update_frame_ok _ _ _ _ Hfr). }
    assert (Hf1 : frames (put_frame fid fr1 s) !! fid = Some fr1)
      by (eapply lookup_put_frame; eassumption).
    assert (Harg : forall t, arg_at args i t = Done (Ok a) t).
    { intros t. unfold arg_at. now rewrite Ha. }
    assert (H2 : setReg fid index a (put_frame fid fr1 s)
                 = Done (Ok ()) (put_frame fid fr2 s)).
    { cbv [mbind M_bind mret M_ret setReg].
      rewrite (the_frame_ok _ _ _ Hf1).
      rewrite decide_True by (cbn; lia).
      rewrite (update_frame_ok _ _ _ _ Hf1).
      now rewrite put_frame_put_frame. }
    assert (Hf2 : frames (put_frame fid fr2 s) !! fid = Some fr2)
      by (eapply lookup_put_frame; eassumption).
    destruct (IH (S index) (S i) (put_frame fid fr2 s) fr2 Hf2)
      as (fr' & Hrun & Hsame & Hput & Hlow).
    { cbn. eauto. }
    { cbn. rewrite length_insert. lia. }
    { lia. }
    exists fr'. split; [|split; [|split]].
    + erewrite M_bind_ok; [|exact H1].
      rewrite (M_bind_ok _ _ _ _ _ (Harg _)).
      rewrite (M_bind_ok _ _ _ _ _ H2).
      rewrite Hrun, put_frame_put_frame. do 2 f_equal. cbn [length]. lia.
    + destruct Hsame as (?&?&?&?&?&?&?&?&Hlen&Hen).
      cbn in *. rewrite length_insert in Hlen.
      repeat split; try assumption. intros _. apply Hen. eauto.
    + intros [|j] Hjl.
      * rewrite Nat.add_0_r, Hlow by lia. cbn [fr2 stack with_stack].
        rewrite Nat.add_0_r, Ha.
        apply list_lookup_insert_eq. cbn. lia.
      * replace (index + S j)%nat with (S index + j)%nat by lia.
        replace (i + S j)%nat with (S i + j)%nat by lia.
        apply Hput. cbn [length] in Hjl. lia.
    + intros j Hji. rewrite Hlow by lia. cbn [fr2 stack with_stack].
      rewrite list_lookup_insert_ne by lia. reflexivity.
Qed.

(** X25.  Arguments are passed by position.  The function
    [func f(x1, ..., xn T) T { return x }], where the names are
    different and [x] is the parameter at the position [j], called
    through [Interp.call] with at least [n] arguments, returns the
    argument at the position [j] (arguments beyond the parameters are
    ignored), as soon as two nested calls are allowed. *)
Theorem call_returns_parameter `{Host} (T : type) (names : list string)
    (x : string) (j : nat) (args : list value) (a : value) (n : nat) :
  NoDup names -> names !! j = Some x ->
  (length names <= length args)%nat -> args !! j = Some a ->
  (2 <= n)%nat ->
  call_function (projection T names x) args n = Some (Ok a).
Proof.
  intros Hnd Hj Hlen Ha Hn. destruct n as [|[|n]]; try lia.
  unfold call_function.
  set (fn := projection T names x).
  set (prog := {[ Name fn := fn ]} : gmap string ssa_Function).
  destruct (compile_projection recovering example_toString example_toString
              prog T names x j Hnd Hj) as (P & HP & HB & HM & HV).
  fold fn in HP.
  assert (Hall : compile_all recovering example_toString example_toString
                   prog [fn]
                 = Ok (<[ "f" := P ]> (∅ : gmap string Function))).
  { cbn [compile_all fn projection ssa_Blocks mret res_ret mbind res_bind].
    fold fn. rewrite HP. reflexivity. }
  rewrite Hall.
  set (funcs := <[ "f" := P ]> (∅ : gmap string Function)).
  assert (Hprog : prog !! "f" = Some fn) by apply lookup_singleton_eq.
  assert (Hfuncs : funcs !! "f" = Some P) by apply lookup_insert_eq.
  set (E := engine_at recovering example_toString example_toString prog
              funcs (S (S n))).
  set (fr0 := initial_frame None "f" P (Some ∅)).
  set (s1 := {| frames := [fr0]; i_caller := None; mem := []; output := [] |}).
  assert (Hf0 : frames s1 !! 0%nat = Some fr0) by reflexivity.
  destruct (place_args_ok 0 args (Params fn) 0 0 s1 fr0 Hf0)
    as (fr1 & Hplace & Hsame & Hput & _).
  { cbn. eauto. }
  { cbn [fr0 initial_frame stack fn projection Params].
    rewrite HV, length_fmap. lia. }
  { cbn [fn projection Params]. rewrite length_fmap. lia. }
  destruct Hsame as (Hcaller & Hpfn & Hblock & Hprev & _ & _ & _ & _ & _ & _).
  cbn [fr0 initial_frame caller pfn block prevBlock] in Hcaller, Hpfn, Hblock, Hprev.
  rewrite HM in Hblock.
  assert (Hreg : stack fr1 !! j = Some a).
  { rewrite <- Ha. apply (Hput j).
    cbn [fn projection Params]. rewrite length_fmap.
    eapply lookup_lt_Some; eassumption. }
  set (s2 := put_frame 0 fr1 s1).
  assert (Hf1 : frames s2 !! 0%nat = Some fr1) by reflexivity.
  set (fr2 := with_result a fr1).
  set (fr3 := with_block None None fr2).
  assert (Hret : Return_reg_executor j E 0%nat s2
                 = Done (Ok kReturn) (put_frame 0 fr3 s2)).
  { unfold Return_reg_executor.
    assert (Hr : reg 0 j s2 = Done (Ok a) s2).
    { unfold reg. rewrite (M_bind_ok _ _ _ _ _ (the_frame_ok _ _ _ Hf1)).
      now rewrite Hreg. }
    rewrite (M_bind_ok _ _ _ _ _ Hr).
    rewrite (M_bind_ok _ _ _ _ _ (update_frame_ok _ _ _ _ Hf1)).
    assert (Hf2 : frames (put_frame 0 fr2 s2) !! 0%nat = Some fr2)
      by reflexivity.
    rewrite (M_bind_ok _ _ _ _ _ (the_frame_ok _ _ _ Hf2)).
    rewrite (M_bind_ok _ _ _ _ _ (update_frame_ok _ _ _ _ Hf2)).
    cbn [fr2 with_result prevBlock]. rewrite Hprev. reflexivity. }
  assert (Hrun : runFrame funcs E (S (S n)) 0 s2
                 = Done (Ok ()) (put_frame 0 fr3 s2)).
  { cbn [runFrame].
    rewrite (M_bind_ok _ _ _ _ _ (the_frame_ok _ _ _ Hf1)).
    rewrite Hblock, Hpfn, Hfuncs. cbn [mbind option_bind]. rewrite HB.
    cbn [lookup list_lookup fb_Instrs].
    assert (Hins : run_instrs E 0 [Return_reg_executor j] s2
                   = Done (Ok kReturn) (put_frame 0 fr3 s2)).
    { cbn [run_instrs]. rewrite (M_bind_ok _ _ _ _ _ Hret). reflexivity. }
    rewrite (M_bind_ok _ _ _ _ _ Hins). reflexivity. }
  assert (Hf3 : frames (put_frame 0 fr3 s2) !! 0%nat = Some fr3)
    by reflexivity.
  assert (Hloop : run_to_return funcs E (S (S n)) (S (S n)) 0 s2
                  = Done (Ok ()) (put_frame 0 fr3 s2)).
  { cbn [run_to_return].
    rewrite (M_bind_ok _ _ _ _ _ (the_frame_ok _ _ _ Hf1)). rewrite Hblock.
    rewrite (M_bind_ok _ _ _ _ _ Hrun).
    rewrite (M_bind_ok _ _ _ _ _ (the_frame_ok _ _ _ Hf3)). reflexivity. }
  change (Name fn) with "f".
  unfold Interp_call. fold E.
  unfold call.
  cbv [mbind M_bind get_state mret M_ret initial_state i_caller].
  unfold callSSA. rewrite Hprog, Hfuncs.
  cbn [fmap option_fmap option_map fn projection ssa_Blocks Locals FreeVars
       place_locals].
  fold fn. fold fr0.
  assert (Hnew : new_frame fr0
                   {| frames := []; i_caller := None; mem := []; output := [] |}
                 = Done (Ok 0%nat) s1) by reflexivity.
  rewrite (M_bind_ok _ _ _ _ _ Hnew).
  erewrite M_bind_ok by reflexivity.
  rewrite (M_bind_ok _ _ _ _ _ Hplace). fold s2.
  erewrite M_bind_ok by reflexivity.
  rewrite (M_bind_ok _ _ _ _ _ Hloop).
  rewrite (M_bind_ok _ _ _ _ _ (update_frame_ok _ _ _ _ Hf3)).
  set (fr4 := with_env None fr3).
  assert (Hf4 : frames (put_frame 0 fr4 (put_frame 0 fr3 s2)) !! 0%nat
                = Some fr4) by reflexivity.
  rewrite (M_bind_ok _ _ _ _ _ (the_frame_ok _ _ _ Hf4)).
  rewrite (M_bind_ok _ _ _ _ _ (update_frame_ok _ _ _ _ Hf4)).
  reflexivity.
Qed.

(** X25 at [func f(x, y, z int) int { return y }] called on 1, 2, 3. *)
Lemma call_returns_parameter_witness :
  @call_function Arch64 (projection (TInteger Int) ["x"; "y"; "z"] "y")
    [VInt Int 1; VInt Int 2; VInt Int 3] 2
  = Some (Ok (VInt Int 2)).
Proof.
  apply (@call_returns_parameter Arch64 (TInteger Int) ["x"; "y"; "z"] "y"
           1 [VInt Int 1; VInt Int 2; VInt Int 3] (VInt Int 2) 2);
    try reflexivity; try lia.
  apply (bool_decide_unpack _). vm_compute. exact I.
Defined.

(** ** Branches *)

Section Branch.
Context `{Host}.
Variable mode : Mode.
Variables toString toInterface : value -> string.
Variable prog : gmap string ssa_Function.

(** X26.  The executors of [If] and [Jump].  In a frame whose block is
    [b], with the successors [t] and [f] in this order, the executor of
    [If] moves the frame to [t] when the register of the condition
    holds true and to [f] when it holds false; the executor of [Jump]
    moves it to the first successor; both record [b] as the previous
    block and report a jump.  A [Jump] in a block without successors
    ends in the host's index panic. *)
Theorem If_and_Jump (Cond : ssa_Value) (p : Function) :
  exists branch jump ic p',
    makeInstr mode toString toInterface prog (If Cond) p
    = Ok (Some branch, p')
    /\ makeInstr mode toString toInterface prog Jump p = Ok (Some jump, p)
    /\ getIndex Cond p = Ok (ic, p')
    /\ valueIndex p' !! key Cond = Some ic
    /\ forall (E : engine) (fid : nat) (s : state) (fr : frame) (b : nat),
         frames s !! fid = Some fr -> block fr = Some b ->
         let succs := e_Succs E (pfn fr) b in
         let goes_to t :=
           Done (Ok kJump)
             (put_frame fid (with_block (Some t) (Some b) fr) s) in
         (forall t f rest, succs = t :: f :: rest ->
            (stack fr !! ic = Some (VBool true) -> branch E fid s = goes_to t)
            /\ (stack fr !! ic = Some (VBool false) ->
                branch E fid s = goes_to f))
         /\ (forall t rest, succs = t :: rest -> jump E fid s = goes_to t)
         /\ (succs = [] ->
             jump E fid s = Done (Throw (index_out_of_range 0 0)) s).
Proof.
  unfold makeInstr. cbn [as_Value].
  destruct (getIndex_ok Cond p) as (ic & p1 & E1).
  destruct (getIndex_lookup _ _ _ _ E1) as [Hic _].
  erewrite !C_bind_ok by reflexivity.
  rewrite (C_bind_ok _ _ _ _ _ E1).
  eexists _, _, ic, p1. split; [reflexivity|]. split; [reflexivity|].
  split; [exact E1|]. split; [exact Hic|].
  intros E fid s fr b Hfr Hb. set (succs := e_Succs E (pfn fr) b).
  assert (Ht : forall n t, succs !! n = Some t ->
            transfer E fid n s
            = Done (Ok ()) (put_frame fid (with_block (Some t) (Some b) fr) s)).
  { intros n t Hn. unfold transfer.
    rewrite (M_bind_ok _ _ _ _ _ (the_frame_ok _ _ _ Hfr)), Hb.
    fold succs. rewrite Hn. apply update_frame_ok, Hfr. }
  assert (Hreg : forall v, stack fr !! ic = Some v ->
            reg fid ic s = Done (Ok v) s).
  { intros v Hv. unfold reg.
    rewrite (M_bind_ok _ _ _ _ _ (the_frame_ok _ _ _ Hfr)). now rewrite Hv. }
  split; [|split].
  - intros t f rest Hs. split; intros Hc.
    + rewrite (M_bind_ok _ _ _ _ _ (Hreg _ Hc)).
      cbn [assert_bool lift]. erewrite M_bind_ok by reflexivity.
      rewrite (M_bind_ok _ _ _ _ _ (Ht 0%nat t ltac:(now rewrite Hs))).
      reflexivity.
    + rewrite (M_bind_ok _ _ _ _ _ (Hreg _ Hc)).
      cbn [assert_bool lift]. erewrite M_bind_ok by reflexivity.
      rewrite (M_bind_ok _ _ _ _ _ (Ht 1%nat f ltac:(now rewrite Hs))).
      reflexivity.
  - intros t rest Hs.
    rewrite (M_bind_ok _ _ _ _ _ (Ht 0%nat t ltac:(now rewrite Hs))).
    reflexivity.
  - intros Hs. unfold transfer. cbv [mbind M_bind].
    rewrite (the_frame_ok _ _ _ Hfr), Hb. fold succs. rewrite Hs.
    reflexivity.
Qed.
End Branch.

(** X26 at a condition that is true, in a block with the successors 1
    and 2. *)
Lemma If_and_Jump_witness :
  let E := {| e_call := fun _ _ _ _ => timeout;
              e_callFunction := fun _ _ _ _ => timeout;
              e_Succs := fun _ _ => [1; 2]%nat;
              e_allocates := fun _ _ => true |} in
  let fr := a_frame None [VBool true] in
  exists branch p',
    @makeInstr Arch64 recovering example_toString example_toString ∅
      (If (Param "c" TBool)) (empty_Function (niladic "f" []))
    = Ok (Some branch, p')
    /\ branch E 0%nat (a_state fr)
       = Done (Ok kJump)
           (put_frame 0 (with_block (Some 1%nat) (Some 0%nat) fr)
              (a_state fr)).
Proof.
  intros E fr.
  destruct (@If_and_Jump Arch64 recovering example_toString example_toString
              ∅ (Param "c" TBool) (empty_Function (niladic "f" [])))
    as (branch & jump & ic & p' & Hb & _ & Hg & _ & Hrun).
  injection Hg as <- _.
  exists branch, p'. split; [exact Hb|].
  destruct (Hrun E 0%nat (a_state fr) fr 0%nat eq_refl eq_refl)
    as (Hif & _).
  exact (proj1 (Hif 1%nat 2%nat [] eq_refl) eq_refl).
Defined.


(** ** Missing arguments *)

Lemma place_args_step (fid : nat) (args : list value) (p : ssa_Value)
    (l : list ssa_Value) (index i : nat) (s : state) (fr : frame)
    (e : gmap string value) (a : value) :
  frames s !! fid = Some fr -> env fr = Some e ->
  (index < length (stack fr))%nat -> args !! i = Some a ->
  place_args true fid index i (p :: l) args s
  = place_args true fid (S index) (S i) l args
      (put_frame fid
         (with_stack (<[index := a]> (stack fr))
            (with_env (Some (<[key p := a]> e)) fr)) s).
Proof.
  intros Hfr He Hst Ha. cbn [place_args].
  set (fr1 := with_env (Some (<[key p := a]> e)) fr).
  assert (H1 : (a' ← arg_at args i; setEnv fid (key p) a') s
               = Done (Ok ()) (put_frame fid fr1 s)).
  { unfold arg_at at 1. rewrite Ha.
    cbv [mbind M_bind mret M_ret setEnv].
    rewrite (the_frame_ok _ _ _ Hfr), He.
    now rewrite (update_frame_ok _ _ _ _ Hfr). }
  assert (Hf1 : frames (put_frame fid fr1 s) !! fid = Some fr1)
    by (eapply lookup_put_frame; eassumption).
  assert (Harg : forall t, arg_at args i t = Done (Ok a) t).
  { intros t. unfold arg_at. now rewrite Ha. }
  assert (H2 : setReg fid index a (put_frame fid fr1 s)
               = Done (Ok ())
                   (put_frame fid (with_stack (<[index := a]> (stack fr)) fr1)
                      s)).
  { cbv [mbind M_bind mret M_ret setReg].
    rewrite (the_frame_ok _ _ _ Hf1).
    rewrite decide_True by (cbn; lia).
    rewrite (update_frame_ok _ _ _ _ Hf1).
    now rewrite put_frame_put_frame. }
  erewrite M_bind_ok; [|exact H1].
  rewrite (M_bind_ok _ _ _ _ _ (Harg _)).
  now rewrite (M_bind_ok _ _ _ _ _ H2).
Qed.

Lemma place_args_short (fid : nat) (args : list value) (l : list ssa_Value)
    (index i : nat) (s : state) (fr : frame) :
  frames s !! fid = Some fr -> is_Some (env fr) ->
  (index + length l <= length (stack fr))%nat ->
  (i <= length args < i + length l)%nat ->
  exists s',
    place_args true fid index i l args s
    = Done (Throw (index_out_of_range (length args) (length args))) s'.
Proof.
  revert index i s fr. induction l as [|p l IH];
    intros index i s fr Hfr [e He] Hst Hargs; cbn [length] in *; [lia|].
  destruct (decide (i = length args)) as [->|Hne].
  - exists s. cbn [place_args]. unfold mbind at 1, M_bind at 1.
    unfold mbind at 1, M_bind at 1. unfold arg_at at 1.
    rewrite lookup_ge_None_2 by lia. reflexivity.
  - destruct (lookup_lt_is_Some_2 args i) as [a Ha]; [lia|].
    assert (Hix : (index < length (stack fr))%nat) by lia.
    rewrite (place_args_step fid args p l index i s fr e a Hfr He Hix Ha).
    eapply IH.
    + eapply lookup_put_frame. eassumption.
    + cbn. eauto.
    + cbn. rewrite length_insert. lia.
    + lia.
Qed.

(** X27.  A call with too few arguments.  The function
    [func f(x1, ..., xn T) T { return x }] with different parameter
    names, called through [Interp.call] with fewer than [n] arguments,
    ends in the host's index panic "index out of range [k] with length
    k", where [k] is the number of arguments, whatever the number of
    nested calls allowed. *)
Theorem call_with_missing_argument `{Host} (T : type) (names : list string)
    (x : string) (j : nat) (args : list value) (n : nat) :
  NoDup names -> names !! j = Some x ->
  (length args < length names)%nat ->
  call_function (projection T names x) args n
  = Some (Throw (index_out_of_range (length args) (length args))).
Proof.
  intros Hnd Hj Hlen.
  unfold call_function.
  set (fn := projection T names x).
  set (prog := {[ Name fn := fn ]} : gmap string ssa_Function).
  destruct (compile_projection recovering example_toString example_toString
              prog T names x j Hnd Hj) as (P & HP & HB & HM & HV).
  fold fn in HP.
  assert (Hall : compile_all recovering example_toString example_toString
                   prog [fn]
                 = Ok (<[ "f" := P ]> (∅ : gmap string Function))).
  { cbn [compile_all fn projection ssa_Blocks mret res_ret mbind res_bind].
    fold fn. rewrite HP. reflexivity. }
  rewrite Hall.
  set (funcs := <[ "f" := P ]> (∅ : gmap string Function)).
  assert (Hprog : prog !! "f" = Some fn) by apply lookup_singleton_eq.
  assert (Hfuncs : funcs !! "f" = Some P) by apply lookup_insert_eq.
  set (fr0 := initial_frame None "f" P (Some ∅)).
  set (s1 := {| frames := [fr0]; i_caller := None; mem := []; output := [] |}).
  assert (Hf0 : frames s1 !! 0%nat = Some fr0) by reflexivity.
  destruct (place_args_short 0 args (Params fn) 0 0 s1 fr0 Hf0)
    as (s' & Hplace).
  { cbn. eauto. }
  { cbn [fr0 initial_frame stack fn projection Params].
    rewrite HV, length_fmap. lia. }
  { cbn [fn projection Params]. rewrite length_fmap. lia. }
  change (Name fn) with "f".
  unfold Interp_call, call.
  cbv [mbind M_bind get_state mret M_ret initial_state i_caller].
  unfold callSSA. rewrite Hprog, Hfuncs.
  cbn [fmap option_fmap option_map fn projection ssa_Blocks Locals FreeVars
       place_locals].
  fold fn. fold fr0.
  assert (Hnew : new_frame fr0
                   {| frames := []; i_caller := None; mem := []; output := [] |}
                 = Done (Ok 0%nat) s1) by reflexivity.
  rewrite (M_bind_ok _ _ _ _ _ Hnew).
  erewrite M_bind_ok by reflexivity.
  unfold mbind at 1, M_bind at 1. rewrite Hplace. reflexivity.
Qed.

(** X27 at [func f(x, y int) int { return y }] called on one argument. *)
Lemma call_with_missing_argument_witness :
  @call_function Arch64 (projection (TInteger Int) ["x"; "y"] "y")
    [VInt Int 1] 2
  = Some (Throw (index_out_of_range 1 1)).
Proof.
  apply (@call_with_missing_argument Arch64 (TInteger Int) ["x"; "y"] "y"
           1 [VInt Int 1] 2); try reflexivity; try (cbn; lia).
  apply (bool_decide_unpack _). vm_compute. exact I.
Defined.

(** ** asInt *)

(** X28.  [asInt] on an integer [n] of a predeclared type [k] gives [n]
    wrapped to the width of [int]: it is [n] itself when [k] is signed
    and not wider than [int], or unsigned and narrower than [int]; and
    for the types [uint] and [uintptr], a value at or above
    [2^(intSize-1)] becomes the negative number [n - 2^intSize]. *)
Theorem asInt_wraps `{Host} (k : ikind) (n : Z) :
  wrap k n = n ->
  asInt (VInt k n) = Ok (wrap Int n)
  /\ ((if ik_signed k then ik_bits k <= intSize else ik_bits k < intSize) ->
      asInt (VInt k n) = Ok n)
  /\ (k = Uint \/ k = Uintptr -> 2 ^ (intSize - 1) <= n ->
      asInt (VInt k n) = Ok (n - 2 ^ intSize) /\ n - 2 ^ intSize < 0).
Proof.
  intros Hn. pose proof (wrap_valid_range k n Hn) as Hr.
  pose proof (ik_bits_pos Int) as Hi. change (ik_bits Int) with intSize in Hi.
  pose proof (ik_bits_pos k) as Hk.
  assert (Hh : 2 ^ intSize = 2 * 2 ^ (intSize - 1)).
  { rewrite <- Z.pow_succ_r by lia. f_equal. lia. }
  assert (Ha : asInt (VInt k n) = Ok (wrap Int n)).
  { destruct k; try reflexivity. unfold asInt. now rewrite Hn. }
  split; [exact Ha|]. rewrite Ha. split.
  - intros Hfit. f_equal. apply wrap_small. cbn [ik_signed].
    change (ik_bits Int) with intSize.
    destruct (ik_signed k).
    + assert (2 ^ (ik_bits k - 1) <= 2 ^ (intSize - 1))
        by (apply Z.pow_le_mono_r; lia). lia.
    + assert (2 ^ ik_bits k <= 2 ^ (intSize - 1))
        by (apply Z.pow_le_mono_r; lia). lia.
  - intros Hu Hbig.
    assert (Hb : ik_bits k = intSize /\ ik_signed k = false)
      by (destruct Hu as [-> | ->]; split; reflexivity).
    destruct Hb as [Hb Hs]. rewrite Hs, Hb in Hr.
    split; [|lia]. f_equal. unfold wrap, wrap_signed. cbn [ik_signed].
    change (ik_bits Int) with intSize.
    replace (n + 2 ^ (intSize - 1))
      with ((n - 2 ^ (intSize - 1)) + 1 * 2 ^ intSize) by lia.
    rewrite Z.mod_add by lia. rewrite Z.mod_small by lia. lia.
Qed.

(** X28 at the largest [uint] of a 64-bit host. *)
Lemma asInt_wraps_witness :
  @asInt Arch64 (VInt Uint (2 ^ 64 - 1)) = Ok (2 ^ 64 - 1 - 2 ^ @intSize Arch64)
  /\ 2 ^ 64 - 1 - 2 ^ @intSize Arch64 < 0.
Proof.
  apply (proj2 (proj2 (@asInt_wraps Arch64 Uint (2 ^ 64 - 1) eq_refl))).
  - now left.
  - vm_compute. discriminate.
Defined.
